(** * reisen: the stream and frame pipeline over the native decoding engine

    A shallow embedding of the Go sources of the package (frames, the media
    container, the shared stream state machine, video and audio streams,
    packets) and the properties their specification states about them.

    Conventions of the embedding:
    - Go's [int], [int64] and [time.Duration] are [Z] with the 64-bit
      two's-complement wrap-around written out ([wrap64]); a C [int] is a
      [Z] as well.
    - [float64] is IEEE-754 binary64, taken from the standard library's
      executable specification [SpecFloat] (precision 53, emax 1024).
    - A method with a pointer receiver takes the struct and returns the
      updated struct.
    - The native engine (the libav libraries) is a black box: every native
      call takes its status code and whatever it writes from an explicit
      record of outcomes ([..._env]); native allocations live in a heap of
      handles so that leaks and frees are visible.
    - Go byte slices, slices of streams and stream objects live in stores
      of their own, so that copies and aliases can be told apart.
    - A Go run-time panic is the [Panic] outcome. *)

From Stdlib Require Import ZArith Lia Strings.Byte String SpecFloat Sorted.
From stdpp Require Import base option list gmap.

Local Open Scope Z_scope.

(** ** Go integer arithmetic *)

Definition int64_min : Z := - 2 ^ 63.
Definition int64_max : Z := 2 ^ 63 - 1.

Definition in_int64 (z : Z) : Prop := int64_min <= z <= int64_max.

(** Reduction of a mathematical integer to the int64 it is stored as. *)
Definition wrap64 (z : Z) : Z := (z + 2 ^ 63) mod 2 ^ 64 - 2 ^ 63.

Definition mul64 (a b : Z) : Z := wrap64 (a * b).

(** The result of a Go expression that may panic at run time. *)
Inductive outcome (A : Type) : Type :=
  | Done (a : A)
  | Panic.
Arguments Done {A} a.
Arguments Panic {A}.

(** Go's [/] on int64: truncated towards zero, a run-time panic on a zero
    divisor, and [MinInt64 / -1 = MinInt64] by wrap-around. *)
Definition div64 (a b : Z) : outcome Z :=
  if b =? 0 then Panic else Done (wrap64 (Z.quot a b)).

(** [time.Second], in nanoseconds. *)
Definition Second : Z := 1000000000.

(** ** float64 *)

Definition float64 : Type := spec_float.

Definition f64_prec : Z := 53.
Definition f64_emax : Z := 1024.

(** [float64(z)] for an integer [z]: round to nearest, ties to even. *)
Definition f64_of_int (z : Z) : float64 :=
  binary_normalize f64_prec f64_emax z 0 false.

Definition f64_mul : float64 -> float64 -> float64 := SFmul f64_prec f64_emax.
Definition f64_div : float64 -> float64 -> float64 := SFdiv f64_prec f64_emax.

(** [int64(x)] for a float64 [x]: the fraction is discarded.  Go leaves the
    result open when the value does not fit; amd64 yields [MinInt64] there
    and for NaN, which is what is written here. *)
Definition f64_to_int64 (x : float64) : Z :=
  match x with
  | S754_zero _ => 0
  | S754_finite s m e =>
      let mag := if 0 <=? e then Z.pos m * 2 ^ e else Z.pos m / 2 ^ (- e) in
      let v := if s then - mag else mag in
      if (int64_min <=? v) && (v <=? int64_max) then v else int64_min
  | S754_infinity _ | S754_nan => int64_min
  end.

(** The sign bit is clear, or the value is NaN. *)
Definition f64_nonneg (x : float64) : bool :=
  match x with
  | S754_nan => true
  | S754_zero s | S754_infinity s | S754_finite s _ _ => negb s
  end.

(** The sign bit is set, or the value is NaN. *)
Definition f64_nonpos (x : float64) : bool :=
  match x with
  | S754_nan => true
  | S754_zero s | S754_infinity s | S754_finite s _ _ => s
  end.

(** ** Errors

    Every error of the package is built by [fmt.Errorf], either from a
    fixed message or from a native status code and a message. *)
Inductive error : Type :=
  | Errorf (status : option Z) (msg : string).

(** ** Native data *)

(** [AVRational]. *)
Record AVRational : Type := { num : Z; den : Z }.

(** ** The platform

    [ErrorAgain] is the native status code of the transient try-again
    condition.  It is fixed per platform in a file of the package that
    differs between operating systems, so it is a parameter here; it is a
    negated errno, hence negative, which the theorems that need it assume. *)
Class Platform : Type := ErrorAgain : Z.

(** The value on Linux, [AVERROR(EAGAIN)]. *)
Definition linux : Platform := -11.

(** ** The native heap

    Objects the native engine allocates on behalf of the package.  A
    handle that is a key of the heap is a live allocation. *)
Inductive CObj : Type :=
  | CCodecCtx                        (* AVCodecContext *)
  | CFrame (data0 : option positive) (* AVFrame; data[0] once bound to a buffer *)
  | CPacket                          (* AVPacket *)
  | CBSFCtx                          (* AVBSFContext *)
  | CSwsCtx                          (* SwsContext *)
  | CSwrCtx                          (* SwrContext *)
  | CBuffer (bytes : list byte).     (* a block from av_malloc *)

(** Native memory and the Go byte arrays the package creates. *)
Record Mem : Type := {
  cheap : gmap positive CObj;
  goheap : gmap positive (list byte) }.

Definition set_cheap (h : gmap positive CObj) (w : Mem) : Mem :=
  {| cheap := h; goheap := goheap w |}.

(** A native allocator: a fresh handle on success, NULL on failure. *)
Definition c_alloc (ok : bool) (o : CObj) (w : Mem) : option positive * Mem :=
  if ok then
    let p := fresh (dom (cheap w)) in
    (Some p, set_cheap (<[p := o]> (cheap w)) w)
  else (None, w).

(** A native release; releasing NULL does nothing. *)
Definition c_free (p : option positive) (w : Mem) : Mem :=
  match p with
  | Some h => set_cheap (delete h (cheap w)) w
  | None => w
  end.

(** The bytes of a block, and its allocated size. *)
Definition c_bytes (w : Mem) (p : positive) : option (list byte) :=
  match cheap w !! p with
  | Some (CBuffer bs) => Some bs
  | _ => None
  end.

(** A native write of [out] at the start of block [p], within its bounds. *)
Definition c_write (p : positive) (out : list byte) (w : Mem) : Mem :=
  match c_bytes w p with
  | Some old =>
      let n := length old in
      set_cheap (<[p := CBuffer (take n (out ++ drop (length out) old))]> (cheap w)) w
  | None => w
  end.

(** A new Go byte array holding [bs]. *)
Definition go_alloc (bs : list byte) (w : Mem) : positive * Mem :=
  let p := fresh (dom (goheap w)) in
  (p, {| cheap := cheap w; goheap := <[p := bs]> (goheap w) |}).

(** [C.GoBytes(ptr, n)]: a new Go byte slice with a copy of [n] bytes of
    native memory. *)
Definition GoBytes (src : list byte) (n : Z) (w : Mem) : positive * Mem :=
  go_alloc (take (Z.to_nat n) src) w.

(** ** Native stream descriptions *)

(** [AVMEDIA_TYPE_VIDEO] and [AVMEDIA_TYPE_AUDIO] of libavutil. *)
Definition AVMEDIA_TYPE_VIDEO : Z := 0.
Definition AVMEDIA_TYPE_AUDIO : Z := 1.

Record AVCodecParameters : Type := {
  codec_type : Z;
  codec_id : Z;
  bit_rate : Z;
  width : Z;
  height : Z }.

Record AVStream : Type := {
  index : Z;
  time_base : AVRational;
  duration : Z;
  r_frame_rate : AVRational;
  nb_frames : Z;
  codecpar : AVCodecParameters }.

(** A decoder description, as [avcodec_find_decoder] returns it. *)
Record AVCodec : Type := {
  name : string;
  long_name : string }.

(** [AVPacket], as far as the package reads it. *)
Record AVPacket : Type := {
  stream_index : Z;
  pkt_data : option (list byte);
  pkt_size : Z;
  pkt_pts : Z;
  pkt_dts : Z;
  pkt_pos : Z;
  pkt_duration : Z;
  pkt_flags : Z }.

(** ** Slices of streams

    A [[]Stream] is a slice header over a backing array of interface
    values, each a pointer to a stream object (or nil). *)
Record slice : Type := {
  arr : positive;
  len : nat }.

(** ** Media *)
Record Options : Type := {
  InputFormat : string;
  Timeout : Z }.

Record Media : Type := {
  ctx : option positive;
  packet : option positive;
  opts : Options;
  streams : option slice }.

Definition set_streams (sl : option slice) (m : Media) : Media :=
  {| ctx := ctx m; packet := packet m; opts := opts m; streams := sl |}.

Definition set_packet (p : option positive) (m : Media) : Media :=
  {| ctx := ctx m; packet := p; opts := opts m; streams := streams m |}.

(** ** Streams: the shared state machine *)

Module Stream.

(** [baseStream].  The back pointer [media] is not a field here: the one
    method that follows it, [read], takes the media as an argument. *)
Record baseStream : Type := {
  inner : AVStream;
  params : AVCodecParameters;
  codec : option AVCodec;
  codecCtx : option positive;
  frame : option positive;
  filterArgs : string;
  filterCtx : option positive;
  filterInPacket : option positive;
  filterOutPacket : option positive;
  skip : bool;
  opened : bool }.

Definition set_codecCtx (x : option positive) (s : baseStream) : baseStream :=
  {| inner := inner s; params := params s; codec := codec s; codecCtx := x;
     frame := frame s; filterArgs := filterArgs s; filterCtx := filterCtx s;
     filterInPacket := filterInPacket s; filterOutPacket := filterOutPacket s;
     skip := skip s; opened := opened s |}.

Definition set_frame (x : option positive) (s : baseStream) : baseStream :=
  {| inner := inner s; params := params s; codec := codec s; codecCtx := codecCtx s;
     frame := x; filterArgs := filterArgs s; filterCtx := filterCtx s;
     filterInPacket := filterInPacket s; filterOutPacket := filterOutPacket s;
     skip := skip s; opened := opened s |}.

Definition set_filterArgs (x : string) (s : baseStream) : baseStream :=
  {| inner := inner s; params := params s; codec := codec s; codecCtx := codecCtx s;
     frame := frame s; filterArgs := x; filterCtx := filterCtx s;
     filterInPacket := filterInPacket s; filterOutPacket := filterOutPacket s;
     skip := skip s; opened := opened s |}.

Definition set_filterCtx (x : option positive) (s : baseStream) : baseStream :=
  {| inner := inner s; params := params s; codec := codec s; codecCtx := codecCtx s;
     frame := frame s; filterArgs := filterArgs s; filterCtx := x;
     filterInPacket := filterInPacket s; filterOutPacket := filterOutPacket s;
     skip := skip s; opened := opened s |}.

Definition set_filterInPacket (x : option positive) (s : baseStream) : baseStream :=
  {| inner := inner s; params := params s; codec := codec s; codecCtx := codecCtx s;
     frame := frame s; filterArgs := filterArgs s; filterCtx := filterCtx s;
     filterInPacket := x; filterOutPacket := filterOutPacket s;
     skip := skip s; opened := opened s |}.

Definition set_filterOutPacket (x : option positive) (s : baseStream) : baseStream :=
  {| inner := inner s; params := params s; codec := codec s; codecCtx := codecCtx s;
     frame := frame s; filterArgs := filterArgs s; filterCtx := filterCtx s;
     filterInPacket := filterInPacket s; filterOutPacket := x;
     skip := skip s; opened := opened s |}.

Definition set_skip (x : bool) (s : baseStream) : baseStream :=
  {| inner := inner s; params := params s; codec := codec s; codecCtx := codecCtx s;
     frame := frame s; filterArgs := filterArgs s; filterCtx := filterCtx s;
     filterInPacket := filterInPacket s; filterOutPacket := filterOutPacket s;
     skip := x; opened := opened s |}.

Definition set_opened (x : bool) (s : baseStream) : baseStream :=
  {| inner := inner s; params := params s; codec := codec s; codecCtx := codecCtx s;
     frame := frame s; filterArgs := filterArgs s; filterCtx := filterCtx s;
     filterInPacket := filterInPacket s; filterOutPacket := filterOutPacket s;
     skip := skip s; opened := x |}.

(** A stream as [findStreams] creates it with [new]: every field but the
    three it assigns has Go's zero value. *)
Definition new (i : AVStream) (c : option AVCodec) : baseStream :=
  {| inner := i; params := codecpar i; codec := c; codecCtx := None;
     frame := None; filterArgs := ""; filterCtx := None;
     filterInPacket := None; filterOutPacket := None;
     skip := false; opened := false |}.

Definition Opened (s : baseStream) : bool := opened s.

Definition Index (s : baseStream) : Z := index (inner s).

Definition Type_ (s : baseStream) : Z := codec_type (params s).

(** [TimeBase]: numerator and denominator of the stream's time base. *)
Definition TimeBase (s : baseStream) : Z * Z :=
  (num (time_base (inner s)), den (time_base (inner s))).

(** What [time.ParseDuration(fmt.Sprintf("%fs", tm))] yields, both of Go's
    standard library.  [%f] prints the exact value of [tm] rounded to six
    decimals, ties to even, and NaN and the infinities as words, which are
    no duration.  [ParseDuration] reads the integer part [v] and the six
    decimals [f], rejects [v] above [(1<<63) / 1e9] and a total above
    [1<<63], and negates the total after a minus sign. *)
Definition micros (m : positive) (e : Z) : Z :=
  if 0 <=? e then Z.pos m * 2 ^ e * 10 ^ 6
  else
    let n := Z.pos m * 10 ^ 6 in
    let d := 2 ^ (- e) in
    let q := n / d in
    match 2 * (n mod d) ?= d with
    | Lt => q
    | Gt => q + 1
    | Eq => if Z.even q then q else q + 1
    end.

Definition invalid_duration : error := Errorf None "time: invalid duration".

Definition ParseDuration_fs (tm : float64) : Z * option error :=
  match tm with
  | S754_nan | S754_infinity _ => (0, Some invalid_duration)
  | S754_zero _ => (0, None)
  | S754_finite neg m e =>
      let u := micros m e in
      let v := u / 10 ^ 6 in
      let f := u mod 10 ^ 6 in
      if 2 ^ 63 / Second <? v then (0, Some invalid_duration)
      else
        let d := v * Second + f * 1000 in
        if 2 ^ 63 <? d then (0, Some invalid_duration)
        else if neg then (wrap64 (- d), None)
        else if 2 ^ 63 - 1 <? d then (0, Some invalid_duration)
        else (d, None)
  end.

(** [baseStream.Duration]. *)
Definition Duration (s : baseStream) : Z * option error :=
  let dur := duration (inner s) in
  let dur := if dur <? 0 then 0 else dur in
  let '(tmNum, tmDen) := TimeBase s in
  let factor := f64_div (f64_of_int tmNum) (f64_of_int tmDen) in
  let tm := f64_mul (f64_of_int dur) factor in
  ParseDuration_fs tm.

(** *** Filters *)

Record filter_env : Type := {
  av_bsf_list_parse_str_r : Z;
  par_in_copy_r : Z;
  par_out_copy_r : Z;
  av_bsf_init_r : Z;
  packet_in_alloc_ok : bool;
  packet_out_alloc_ok : bool }.

(** [baseStream.ApplyFilter]. *)
Definition ApplyFilter (e : filter_env) (args : string) (s : baseStream) (w : Mem)
  : baseStream * Mem * option error :=
  if av_bsf_list_parse_str_r e <? 0 then
    (s, w, Some (Errorf (Some (av_bsf_list_parse_str_r e)) "couldn't create a filter context"))
  else
    let '(fc, w) := c_alloc true CBSFCtx w in
    let s := set_filterCtx fc s in
    if par_in_copy_r e <? 0 then
      (s, w, Some (Errorf (Some (par_in_copy_r e))
                     "couldn't copy the input codec parameters to the filter"))
    else if par_out_copy_r e <? 0 then
      (s, w, Some (Errorf (Some (par_out_copy_r e))
                     "couldn't copy the output codec parameters to the filter"))
    else if av_bsf_init_r e <? 0 then
      (s, w, Some (Errorf (Some (av_bsf_init_r e)) "couldn't initialize the filter context"))
    else
      let '(pin, w) := c_alloc (packet_in_alloc_ok e) CPacket w in
      let s := set_filterInPacket pin s in
      match filterInPacket s with
      | None => (s, w, Some (Errorf None "couldn't allocate a packet for filtering in"))
      | Some _ =>
          let '(pout, w) := c_alloc (packet_out_alloc_ok e) CPacket w in
          let s := set_filterOutPacket pout s in
          match filterInPacket s with
          | None => (s, w, Some (Errorf None "couldn't allocate a packet for filtering out"))
          | Some _ => (set_filterArgs args s, w, None)
          end
      end.

(** [baseStream.Filter]. *)
Definition Filter (s : baseStream) : string := filterArgs s.

(** [baseStream.RemoveFilter]. *)
Definition RemoveFilter (s : baseStream) (w : Mem) : baseStream * Mem * option error :=
  match filterCtx s with
  | None => (s, w, Some (Errorf None "no filter applied"))
  | Some _ =>
      let w := c_free (filterCtx s) w in
      let s := set_filterCtx None s in
      let w := c_free (filterInPacket s) w in
      let w := c_free (filterOutPacket s) w in
      let s := set_filterInPacket None s in
      let s := set_filterOutPacket None s in
      (s, w, None)
  end.

(** *** open, read, close *)

Record open_env : Type := {
  avcodec_alloc_context3_ok : bool;
  avcodec_parameters_to_context_r : Z;
  avcodec_open2_r : Z;
  av_frame_alloc_ok : bool }.

(** [baseStream.open]. *)
Definition open (e : open_env) (s : baseStream) (w : Mem)
  : baseStream * Mem * option error :=
  let '(cc, w) := c_alloc (avcodec_alloc_context3_ok e) CCodecCtx w in
  let s := set_codecCtx cc s in
  match codecCtx s with
  | None => (s, w, Some (Errorf None "couldn't open a codec context"))
  | Some _ =>
      if avcodec_parameters_to_context_r e <? 0 then
        (s, w, Some (Errorf (Some (avcodec_parameters_to_context_r e))
                       "couldn't send codec parameters to the context"))
      else if avcodec_open2_r e <? 0 then
        (s, w, Some (Errorf (Some (avcodec_open2_r e)) "couldn't open the codec context"))
      else
        let '(fr, w) := c_alloc (av_frame_alloc_ok e) (CFrame None) w in
        let s := set_frame fr s in
        match frame s with
        | None => (s, w, Some (Errorf None "couldn't allocate a new frame"))
        | Some _ => (set_opened true s, w, None)
        end
  end.

(** The two native calls of [read]; each sees the handles it is given. *)
Record read_env : Type := {
  avcodec_send_packet : option positive -> option positive -> Z;
  avcodec_receive_frame : option positive -> option positive -> Z }.

Section Read.
Context {platform : Platform}.

(** [baseStream.read].  Unreferencing the packets after a decoded frame
    leaves the packet objects allocated, so the heap is not touched. *)
Definition read (e : read_env) (m : Media) (s : baseStream)
  : baseStream * bool * option error :=
  let readPacket := packet m in
  let readPacket :=
    match filterCtx s with
    | Some _ => filterOutPacket s
    | None => readPacket
    end in
  let r := avcodec_send_packet e (codecCtx s) readPacket in
  if r <? 0 then
    (set_skip false s, false,
     Some (Errorf (Some r) "couldn't send the packet to the codec context"))
  else
    let r := avcodec_receive_frame e (codecCtx s) (frame s) in
    if r <? 0 then
      if r =? ErrorAgain then (set_skip true s, true, None)
      else
        (set_skip false s, false,
         Some (Errorf (Some r) "couldn't receive the frame from the codec context"))
    else (set_skip false s, true, None).

End Read.

(** [baseStream.close]. *)
Definition close (s : baseStream) (w : Mem) : baseStream * Mem * option error :=
  let w := c_free (frame s) w in
  let s := set_frame None s in
  let w := c_free (codecCtx s) w in
  let s := set_codecCtx None s in
  let '(s, w) :=
    match filterCtx s with
    | Some _ => (set_filterCtx None s, c_free (filterCtx s) w)
    | None => (s, w)
    end in
  let '(s, w) :=
    match filterInPacket s with
    | Some _ => (set_filterInPacket None s, c_free (filterInPacket s) w)
    | None => (s, w)
    end in
  let '(s, w) :=
    match filterOutPacket s with
    | Some _ => (set_filterOutPacket None s, c_free (filterOutPacket s) w)
    | None => (s, w)
    end in
  (set_opened false s, w, None).

(** *** Descriptions of a stream *)

(** [StreamVideo] and [StreamAudio]. *)
Definition StreamVideo : Z := AVMEDIA_TYPE_VIDEO.
Definition StreamAudio : Z := AVMEDIA_TYPE_AUDIO.

(** [StreamType.String]. *)
Definition StreamType_String (streamType : Z) : string :=
  if streamType =? StreamVideo then "video"
  else if streamType =? StreamAudio then "audio"
  else "".

(** [baseStream.CodecName] and [baseStream.CodecLongName].  Both read
    through [s.codec], which is nil on a stream for which no decoder was
    found; a name that is NULL is the empty string of the description. *)
Definition CodecName (s : baseStream) : outcome string :=
  match codec s with
  | Some c => Done (name c)
  | None => Panic
  end.

Definition CodecLongName (s : baseStream) : outcome string :=
  match codec s with
  | Some c => Done (long_name c)
  | None => Panic
  end.

(** [baseStream.BitRate], [baseStream.FrameRate] and
    [baseStream.FrameCount]. *)
Definition BitRate (s : baseStream) : Z := bit_rate (params s).

Definition FrameRate (s : baseStream) : Z * Z :=
  (num (r_frame_rate (inner s)), den (r_frame_rate (inner s))).

Definition FrameCount (s : baseStream) : Z := nb_frames (inner s).

End Stream.

Import Stream.

(** ** Frames *)

(** [baseFrame].  [stream] is the frame's stream; the frame reads nothing
    of it but [TimeBase()], that is the native stream description, which no
    operation of the package changes, so the frame carries the stream's
    base record. *)
Record baseFrame : Type := {
  stream : baseStream;
  pts : Z;
  indexCoded : Z;
  indexDisplay : Z }.

Module Frame.

(** [baseFrame.PresentationOffset] in its integer form:
    [time.Second * time.Duration(tbNum) * time.Duration(pts) /
    time.Duration(tbDen)], evaluated left to right on int64. *)
Definition PresentationOffset (frame : baseFrame) : outcome (Z * option error) :=
  let '(tbNum, tbDen) := TimeBase (stream frame) in
  match div64 (mul64 (mul64 Second tbNum) (pts frame)) tbDen with
  | Done d => Done (d, None)
  | Panic => Panic
  end.

Definition IndexCoded (frame : baseFrame) : Z := indexCoded frame.

Definition IndexDisplay (frame : baseFrame) : Z := indexDisplay frame.

End Frame.

Module FrameF64.

(** [baseFrame.PresentationOffset] in its floating-point form:
    [tb := float64(tbNum) / float64(tbDen)], [tm := float64(pts) * tb],
    [time.Duration(tm * float64(time.Second))]. *)
Definition PresentationOffset (f : baseFrame) : Z * option error :=
  let '(tbNum, tbDen) := TimeBase (stream f) in
  let tb := f64_div (f64_of_int tbNum) (f64_of_int tbDen) in
  let tm := f64_mul (f64_of_int (pts f)) tb in
  (f64_to_int64 (f64_mul tm (f64_of_int Second)), None).

End FrameF64.

(** [image.RGBA], as far as the package uses it: the pixel array and the
    bounds. *)
Record RGBA : Type := {
  Pix : positive;
  Dx : Z;
  Dy : Z }.

Record VideoFrame : Type := {
  vbase : baseFrame;
  img : RGBA }.

(** [copy(dst, src)] on byte slices: as many bytes as both hold. *)
Definition go_copy (dst : positive) (src : list byte) (w : Mem) : Mem :=
  {| cheap := cheap w;
     goheap :=
       alter (fun old =>
                let n := Nat.min (length old) (length src) in
                take n src ++ drop n old) dst (goheap w) |}.

(** Every Go byte array of [w] is there, unchanged, in [w']. *)
Definition go_extends (w w' : Mem) : Prop :=
  forall q, q ∈ dom (goheap w) -> goheap w' !! q = goheap w !! q.

(** The bytes of a Go byte slice. *)
Definition go_bytes (w : Mem) (p : positive) : list byte :=
  default [] (goheap w !! p).

(** [mul3NonNeg] of Go's [image] package: the product of three ints, or
    [-1] when one of them is negative or a product leaves int.  The two
    products are taken on 64 bits with their high words, then the low word
    is read as an int. *)
Definition mul3NonNeg (x y z : Z) : Z :=
  if (x <? 0) || (y <? 0) || (z <? 0) then -1
  else if 2 ^ 64 <=? x * y then -1
  else if 2 ^ 64 <=? x * y * z then -1
  else if 2 ^ 63 <=? x * y * z then -1
  else x * y * z.

(** [pixelBufferLength] of Go's [image] package, by which [image.NewRGBA]
    sizes its pixel array: a rectangle whose pixels do not fit an int stops
    the program. *)
Definition pixelBufferLength (bytesPerPixel dx dy : Z) : outcome Z :=
  let totalLength := mul3NonNeg bytesPerPixel dx dy in
  if totalLength <? 0 then Panic else Done totalLength.

(** [newVideoFrame]: a new image of [width] by [height] RGBA pixels, into
    which the pixels handed over are copied.  [image.Rect] puts the corners
    in order, so the sides of the image are the absolute values of [width]
    and [height]; [image.NewRGBA] stops the program when the pixel array
    would not fit an int. *)
Definition newVideoFrame (stream : baseStream) (pts indCoded indDisplay width height : Z)
    (pix : positive) (w : Mem) : outcome (VideoFrame * Mem) :=
  match pixelBufferLength 4 (Z.abs width) (Z.abs height) with
  | Panic => Panic
  | Done n =>
      let '(p, w) := go_alloc (replicate (Z.to_nat n) x00) w in
      let w := go_copy p (go_bytes w pix) w in
      Done ({| vbase := {| stream := stream; pts := pts;
                           indexCoded := indCoded; indexDisplay := indDisplay |};
               img := {| Pix := p; Dx := Z.abs width; Dy := Z.abs height |} |}, w)
  end.

Module VideoFrameM.

(** [VideoFrame.Data]: the slice of the image's pixels. *)
Definition Data (f : VideoFrame) : positive := Pix (img f).

End VideoFrameM.

(** Modelled from the spec: the file that declares [AudioFrame] and
    [newAudioFrame] is not among the sources.  The spec makes an audio frame
    the raw interleaved PCM bytes with the pts and the two indices of a
    frame; the constructor keeps the byte slice it is handed. *)
Record AudioFrame : Type := {
  abase : baseFrame;
  data : positive }.

Definition newAudioFrame (stream : baseStream) (pts indCoded indDisplay : Z)
    (data : positive) : AudioFrame :=
  {| abase := {| stream := stream; pts := pts;
                 indexCoded := indCoded; indexDisplay := indDisplay |};
     data := data |}.

Module AudioFrameM.

Definition Data (f : AudioFrame) : positive := data f.

End AudioFrameM.

(** A value of the [Frame] interface: the nil interface, or a pointer to a
    video or to an audio frame, which itself may be nil. *)
Inductive FrameValue : Type :=
  | FrameNil
  | FrameVideo (p : option VideoFrame)
  | FrameAudio (p : option AudioFrame).

(** ** Video streams *)

Module Video.

Record VideoStream : Type := {
  base : baseStream;
  swsCtx : option positive;
  rgbaFrame : option positive;
  bufSize : Z }.

Definition set_base (b : baseStream) (s : VideoStream) : VideoStream :=
  {| base := b; swsCtx := swsCtx s; rgbaFrame := rgbaFrame s; bufSize := bufSize s |}.

Definition set_swsCtx (x : option positive) (s : VideoStream) : VideoStream :=
  {| base := base s; swsCtx := x; rgbaFrame := rgbaFrame s; bufSize := bufSize s |}.

Definition set_rgbaFrame (x : option positive) (s : VideoStream) : VideoStream :=
  {| base := base s; swsCtx := swsCtx s; rgbaFrame := x; bufSize := bufSize s |}.

Definition set_bufSize (x : Z) (s : VideoStream) : VideoStream :=
  {| base := base s; swsCtx := swsCtx s; rgbaFrame := rgbaFrame s; bufSize := x |}.

Definition new (i : AVStream) (c : option AVCodec) : VideoStream :=
  {| base := Stream.new i c; swsCtx := None; rgbaFrame := None; bufSize := 0 |}.

Record open_env : Type := {
  base_open : Stream.open_env;
  rgba_frame_alloc_ok : bool;
  av_image_get_buffer_size_r : Z;
  av_malloc_ok : bool;
  av_image_fill_arrays_r : Z;
  sws_getContext_ok : bool }.

(** [av_frame_free(&s.rgbaFrame)]: the frame is released and the field it
    is passed by address is set to NULL. *)
Definition free_rgbaFrame (s : VideoStream) (w : Mem) : VideoStream * Mem :=
  (set_rgbaFrame None s, c_free (rgbaFrame s) w).

(** [VideoStream.OpenDecode]. *)
Definition OpenDecode (e : open_env) (width height alg : Z) (s : VideoStream) (w : Mem)
  : VideoStream * Mem * option error :=
  let '(b, w, err) := Stream.open (base_open e) (base s) w in
  let s := set_base b s in
  match err with
  | Some er => (s, w, Some er)
  | None =>
      let '(rf, w) := c_alloc (rgba_frame_alloc_ok e) (CFrame None) w in
      let s := set_rgbaFrame rf s in
      match rgbaFrame s with
      | None => (s, w, Some (Errorf None "couldn't allocate a new RGBA frame"))
      | Some f =>
          let s := set_bufSize (av_image_get_buffer_size_r e) s in
          if bufSize s <? 0 then
            let '(s, w) := free_rgbaFrame s w in
            (s, w, Some (Errorf (Some (av_image_get_buffer_size_r e))
                           "couldn't get the buffer size"))
          else
            let '(buf, w) :=
              c_alloc (av_malloc_ok e)
                (CBuffer (replicate (Z.to_nat (bufSize s)) x00)) w in
            match buf with
            | None =>
                let '(s, w) := free_rgbaFrame s w in
                (s, w, Some (Errorf None "couldn't allocate an AV buffer"))
            | Some _ =>
                let status := av_image_fill_arrays_r e in
                if status <? 0 then
                  let w := c_free buf w in
                  let '(s, w) := free_rgbaFrame s w in
                  (s, w, Some (Errorf (Some status) "couldn't fill the image arrays"))
                else
                  let w := set_cheap (<[f := CFrame buf]> (cheap w)) w in
                  let '(sc, w) := c_alloc (sws_getContext_ok e) CSwsCtx w in
                  let s := set_swsCtx sc s in
                  match swsCtx s with
                  | None =>
                      let w := c_free buf w in
                      let '(s, w) := free_rgbaFrame s w in
                      (s, w, Some (Errorf None "couldn't create an SWS context"))
                  | Some _ => (s, w, None)
                  end
            end
      end
  end.

(** [InterpolationBicubic], which is [SWS_BICUBIC] of libswscale. *)
Definition InterpolationBicubic : Z := 4.

(** [VideoStream.Open]. *)
Definition Open (e : open_env) (s : VideoStream) (w : Mem)
  : VideoStream * Mem * option error :=
  OpenDecode e (width (params (base s))) (height (params (base s)))
    InterpolationBicubic s w.

(** What the native engine produces in one [ReadVideoFrame]: the statuses
    of [read], the fields of the decoded frame and of the codec context
    that are read back, and the bytes [sws_scale] writes. *)
Record read_env : Type := {
  rd : Stream.read_env;
  frame_pts : Z;
  coded_picture_number : Z;
  display_picture_number : Z;
  ctx_width : Z;
  ctx_height : Z;
  sws_scale_out : list byte }.


(** [s.rgbaFrame.data[0]]. *)
Definition rgba_data0 (s : VideoStream) (w : Mem) : option positive :=
  match rgbaFrame s with
  | Some f =>
      match cheap w !! f with
      | Some (CFrame d) => d
      | _ => None
      end
  | None => None
  end.

Section Read.
Context {platform : Platform}.

(** [VideoStream.ReadVideoFrame].  Reading through a nil [rgbaFrame]
    or an unbound [data[0]] stops the program. *)
Definition ReadVideoFrame (e : read_env) (m : Media) (s : VideoStream) (w : Mem)
  : outcome (VideoStream * Mem * (option VideoFrame * bool * option error)) :=
  let '(b, ok, err) := Stream.read (rd e) m (base s) in
  let s := set_base b s in
  match err with
  | Some er => Done (s, w, (None, false, Some er))
  | None =>
      if ok && skip (base s) then Done (s, w, (None, true, None))
      else if negb ok then Done (s, w, (None, false, None))
      else
        match rgba_data0 s w with
        | None => Panic
        | Some buf =>
            let w := c_write buf (sws_scale_out e) w in
            let '(data, w) := GoBytes (default [] (c_bytes w buf)) (bufSize s) w in
            match
              newVideoFrame (base s) (frame_pts e) (coded_picture_number e)
                (display_picture_number e) (ctx_width e) (ctx_height e) data w
            with
            | Panic => Panic
            | Done (frame, w) => Done (s, w, (Some frame, true, None))
            end
        end
  end.

End Read.

Section Reads.
Context {platform : Platform}.

(** A run of [ReadVideoFrame] calls, whatever each returns. *)
Fixpoint reads (es : list read_env) (m : Media) (s : VideoStream) (w : Mem)
  : outcome (VideoStream * Mem) :=
  match es with
  | [] => Done (s, w)
  | e :: es =>
      match ReadVideoFrame e m s w with
      | Done (s, w, _) => reads es m s w
      | Panic => Panic
      end
  end.

End Reads.

Section ReadFrame.
Context {platform : Platform}.

(** [VideoStream.ReadFrame]: the results of [ReadVideoFrame], the frame
    pointer converted to the [Frame] interface. *)
Definition ReadFrame (e : read_env) (m : Media) (s : VideoStream) (w : Mem)
  : outcome (VideoStream * Mem * (FrameValue * bool * option error)) :=
  match ReadVideoFrame e m s w with
  | Done (s, w, (f, more, err)) => Done (s, w, (FrameVideo f, more, err))
  | Panic => Panic
  end.

End ReadFrame.

(** [VideoStream.Close]. *)
Definition Close (s : VideoStream) (w : Mem) : VideoStream * Mem * option error :=
  let '(b, w, err) := Stream.close (base s) w in
  let s := set_base b s in
  match err with
  | Some er => (s, w, Some er)
  | None =>
      let '(s, w) :=
        match rgbaFrame s with
        | Some _ =>
            let w := c_free (rgba_data0 s w) w in
            let w := c_free (rgbaFrame s) w in
            (set_rgbaFrame None s, w)
        | None => (s, w)
        end in
      let '(s, w) :=
        match swsCtx s with
        | Some _ => (set_swsCtx None s, c_free (swsCtx s) w)
        | None => (s, w)
        end in
      (s, w, None)
  end.

End Video.

(** ** Audio streams *)

Module Audio.

(** [StandardChannelCount]. *)
Definition StandardChannelCount : Z := 2.

Record AudioStream : Type := {
  base : baseStream;
  swrCtx : option positive;
  buffer : option positive;
  bufferSize : Z }.

Definition set_base (b : baseStream) (s : AudioStream) : AudioStream :=
  {| base := b; swrCtx := swrCtx s; buffer := buffer s; bufferSize := bufferSize s |}.

Definition set_swrCtx (x : option positive) (s : AudioStream) : AudioStream :=
  {| base := base s; swrCtx := x; buffer := buffer s; bufferSize := bufferSize s |}.

Definition set_buffer (x : option positive) (s : AudioStream) : AudioStream :=
  {| base := base s; swrCtx := swrCtx s; buffer := x; bufferSize := bufferSize s |}.

Definition set_bufferSize (x : Z) (s : AudioStream) : AudioStream :=
  {| base := base s; swrCtx := swrCtx s; buffer := buffer s; bufferSize := x |}.

Definition new (i : AVStream) (c : option AVCodec) : AudioStream :=
  {| base := Stream.new i c; swrCtx := None; buffer := None; bufferSize := 0 |}.

Record open_env : Type := {
  base_open : Stream.open_env;
  swr_alloc_set_opts2_ok : bool;
  swr_init_r : Z }.

(** [swr_alloc_set_opts2(&s.swrCtx, ...)]: a context that is already
    there is set up again, otherwise one is allocated; on failure the
    context is released and the field set to NULL. *)
Definition swr_alloc_set_opts2 (ok : bool) (s : AudioStream) (w : Mem)
  : AudioStream * Mem :=
  if ok then
    match swrCtx s with
    | Some _ => (s, w)
    | None =>
        let '(c, w) := c_alloc true CSwrCtx w in
        (set_swrCtx c s, w)
    end
  else (set_swrCtx None s, c_free (swrCtx s) w).

(** [AudioStream.Open]. *)
Definition Open (e : open_env) (s : AudioStream) (w : Mem)
  : AudioStream * Mem * option error :=
  let '(b, w, err) := Stream.open (base_open e) (base s) w in
  let s := set_base b s in
  match err with
  | Some er => (s, w, Some er)
  | None =>
      let '(s, w) := swr_alloc_set_opts2 (swr_alloc_set_opts2_ok e) s w in
      match swrCtx s with
      | None => (s, w, Some (Errorf None "couldn't allocate an SWR context"))
      | Some _ =>
          if swr_init_r e <? 0 then
            (s, w, Some (Errorf (Some (swr_init_r e)) "couldn't initialize the SWR context"))
          else (set_buffer None s, w, None)
      end
  end.

(** What the native engine produces in one [ReadAudioFrame]. *)
Record read_env : Type := {
  rd : Stream.read_env;
  frame_pts : Z;
  coded_picture_number : Z;
  display_picture_number : Z;
  av_samples_get_buffer_size_r : Z;
  av_malloc_ok : bool;
  swr_convert_r : Z;
  swr_convert_out : list byte }.

Section Read.
Context {platform : Platform}.

(** [AudioStream.ReadAudioFrame].  [bufferSize(n)] only changes the C
    type of the size, which is not negative where it is used. *)
Definition ReadAudioFrame (e : read_env) (m : Media) (s : AudioStream) (w : Mem)
  : AudioStream * Mem * (option AudioFrame * bool * option error) :=
  let '(b, ok, err) := Stream.read (rd e) m (base s) in
  let s := set_base b s in
  match err with
  | Some er => (s, w, (None, false, Some er))
  | None =>
      if ok && skip (base s) then (s, w, (None, true, None))
      else if negb ok then (s, w, (None, false, None))
      else
        let maxBufferSize := av_samples_get_buffer_size_r e in
        if maxBufferSize <? 0 then
          (s, w, (None, false,
                  Some (Errorf (Some maxBufferSize) "couldn't get the max buffer size")))
        else
          let '(s, w) :=
            if bufferSize s <? maxBufferSize then
              (set_buffer None s, c_free (buffer s) w)
            else (s, w) in
          let '(s, w, failed) :=
            match buffer s with
            | None =>
                let '(p, w) :=
                  c_alloc (av_malloc_ok e)
                    (CBuffer (replicate (Z.to_nat maxBufferSize) x00)) w in
                let s := set_bufferSize maxBufferSize (set_buffer p s) in
                match buffer s with
                | None => (s, w, true)
                | Some _ => (s, w, false)
                end
            | Some _ => (s, w, false)
            end in
          if failed then
            (s, w, (None, false, Some (Errorf None "couldn't allocate an AV buffer")))
          else
            let w :=
              match buffer s with
              | Some p => c_write p (swr_convert_out e) w
              | None => w
              end in
            let gotSamples := swr_convert_r e in
            if gotSamples <? 0 then
              (s, w, (None, false,
                      Some (Errorf (Some gotSamples) "couldn't convert the audio frame")))
            else
              let src :=
                match buffer s with
                | Some p => default [] (c_bytes w p)
                | None => []
                end in
              let '(data, w) := GoBytes src maxBufferSize w in
              let frame :=
                newAudioFrame (base s) (frame_pts e) (coded_picture_number e)
                  (display_picture_number e) data in
              (s, w, (Some frame, true, None))
  end.

End Read.

Section ReadFrame.
Context {platform : Platform}.

(** [AudioStream.ReadFrame]: the results of [ReadAudioFrame], the frame
    pointer converted to the [Frame] interface. *)
Definition ReadFrame (e : read_env) (m : Media) (s : AudioStream) (w : Mem)
  : AudioStream * Mem * (FrameValue * bool * option error) :=
  let '(s, w, (f, more, err)) := ReadAudioFrame e m s w in
  (s, w, (FrameAudio f, more, err)).

End ReadFrame.

(** [AudioStream.Close]. *)
Definition Close (s : AudioStream) (w : Mem) : AudioStream * Mem * option error :=
  let '(b, w, err) := Stream.close (base s) w in
  let s := set_base b s in
  match err with
  | Some er => (s, w, Some er)
  | None =>
      let w := c_free (buffer s) w in
      let s := set_buffer None s in
      let w := c_free (swrCtx s) w in
      let s := set_swrCtx None s in
      (s, w, None)
  end.

(** The size of the block behind the reusable output buffer; no buffer
    has size 0. *)
Definition buffer_size (s : AudioStream) (w : Mem) : Z :=
  match buffer s with
  | Some p =>
      match c_bytes w p with
      | Some bs => Z.of_nat (length bs)
      | None => 0
      end
  | None => 0
  end.

(** The size field describes the block behind the buffer, if there is
    one. *)
Definition buffer_wf (s : AudioStream) (w : Mem) : Prop :=
  forall p, buffer s = Some p ->
    exists bs, c_bytes w p = Some bs /\ Z.of_nat (length bs) = bufferSize s.

Section Sessions.
Context {platform : Platform}.

(** A run of [ReadAudioFrame] calls, whatever each returns. *)
Fixpoint reads (es : list read_env) (m : Media) (s : AudioStream) (w : Mem)
  : AudioStream * Mem :=
  match es with
  | [] => (s, w)
  | e :: es =>
      let '(s, w, _) := ReadAudioFrame e m s w in
      reads es m s w
  end.

(** The buffer sizes seen after each of a run of [ReadAudioFrame]
    calls. *)
Fixpoint sizes (es : list read_env) (m : Media) (s : AudioStream) (w : Mem) : list Z :=
  match es with
  | [] => []
  | e :: es =>
      let '(s, w, _) := ReadAudioFrame e m s w in
      buffer_size s w :: sizes es m s w
  end.

End Sessions.

End Audio.

(** ** Unknown streams *)

(** Modelled from the spec: the file that declares [UnknownStream] is not
    among the sources.  The spec makes it the third variant of a stream,
    metadata only, over the shared base record. *)
Module Unknown.

Record UnknownStream : Type := {
  base : baseStream }.

Definition new (i : AVStream) (c : option AVCodec) : UnknownStream :=
  {| base := Stream.new i c |}.

End Unknown.

(** The three implementations of the [Stream] interface. *)
Inductive StreamObj : Type :=
  | SVideo (v : Video.VideoStream)
  | SAudio (a : Audio.AudioStream)
  | SUnknown (u : Unknown.UnknownStream).

(** The dynamic type of a [Stream] interface value. *)
Inductive StreamKind : Type := KVideo | KAudio | KUnknown.

Definition kind_of (s : StreamObj) : StreamKind :=
  match s with
  | SVideo _ => KVideo
  | SAudio _ => KAudio
  | SUnknown _ => KUnknown
  end.

Definition base_of (s : StreamObj) : baseStream :=
  match s with
  | SVideo v => Video.base v
  | SAudio a => Audio.base a
  | SUnknown u => Unknown.base u
  end.

(** ** Packets *)

Record Packet : Type := {
  streamIndex : Z;
  pdata : list byte;
  ppts : Z;
  pdts : Z;
  ppos : Z;
  pduration : Z;
  psize : Z;
  pflags : Z }.

(** [newPacket].  The packet's back pointer to the media is left out. *)
Definition newPacket (cPkt : AVPacket) : Packet :=
  {| streamIndex := stream_index cPkt;
     pdata :=
       match pkt_data cPkt with
       | Some bs => if 0 <? pkt_size cPkt then take (Z.to_nat (pkt_size cPkt)) bs else []
       | None => []
       end;
     ppts := pkt_pts cPkt;
     pdts := pkt_dts cPkt;
     ppos := pkt_pos cPkt;
     pduration := pkt_duration cPkt;
     psize := pkt_size cPkt;
     pflags := pkt_flags cPkt |}.

(** ** The media container *)

Module MediaM.

(** The Go objects a media owns: the stream objects made by [new] and
    the backing arrays of [[]Stream] slices, whose elements are pointers
    to stream objects (nil is [None]). *)
Record GoStore : Type := {
  objects : gmap positive StreamObj;
  arrays : gmap positive (list (option positive)) }.

Definition set_objects (o : gmap positive StreamObj) (st : GoStore) : GoStore :=
  {| objects := o; arrays := arrays st |}.

Definition set_arrays (a : gmap positive (list (option positive))) (st : GoStore)
  : GoStore :=
  {| objects := objects st; arrays := a |}.

(** [new(T)] followed by the assignments to its fields. *)
Definition new_object (o : StreamObj) (st : GoStore) : positive * GoStore :=
  let p := fresh (dom (objects st)) in
  (p, set_objects (<[p := o]> (objects st)) st).

(** [len(s)]; the nil slice has length 0. *)
Definition slice_len (s : option slice) : nat :=
  match s with
  | Some sl => len sl
  | None => 0%nat
  end.

(** The elements of a slice. *)
Definition elems (st : GoStore) (s : option slice) : list (option positive) :=
  match s with
  | Some sl => take (len sl) (default [] (arrays st !! arr sl))
  | None => []
  end.

(** A slice points to a live backing array that is long enough for it;
    the nil slice is valid. *)
Definition slice_valid (st : GoStore) (s : option slice) : Prop :=
  match s with
  | Some sl =>
      exists xs, arrays st !! arr sl = Some xs /\ (len sl <= length xs)%nat
  | None => True
  end.

(** [make([]Stream, n)]: a fresh backing array of [n] nil interfaces. *)
Definition make (n : nat) (st : GoStore) : slice * GoStore :=
  let a := fresh (dom (arrays st)) in
  ({| arr := a; len := n |}, set_arrays (<[a := replicate n None]> (arrays st)) st).

(** [copy(dst, src)]. *)
Definition copy (dst : slice) (src : option slice) (st : GoStore) : GoStore :=
  let xs := elems st src in
  let n := Nat.min (len dst) (length xs) in
  set_arrays (alter (fun old => take n xs ++ drop n old) (arr dst) (arrays st)) st.

(** [s[i] = x]; out of range is a run-time panic. *)
Definition slice_set (s : slice) (i : nat) (x : option positive) (st : GoStore)
  : outcome GoStore :=
  if (i <? len s)%nat then
    Done (set_arrays (alter (fun old => <[i := x]> old) (arr s) (arrays st)) st)
  else Panic.

(** [s[i]]; a negative index or one out of range is a run-time panic. *)
Definition slice_get (st : GoStore) (s : option slice) (i : Z) : outcome (option positive) :=
  if i <? 0 then Panic
  else
    match elems st s !! Z.to_nat i with
    | Some x => Done x
    | None => Panic
    end.

(** [Media.Streams]. *)
Definition Streams (m : Media) (st : GoStore) : slice * GoStore :=
  let '(streams', st) := make (slice_len (streams m)) st in
  let st := copy streams' (streams m) st in
  (streams', st).

(** One turn of the loop of [findStreams]: the stream object made for
    one native sub-stream. *)
Definition classify (avcodec_find_decoder : Z -> option AVCodec) (innerStream : AVStream)
  : StreamObj :=
  let codecParams := codecpar innerStream in
  match avcodec_find_decoder (codec_id codecParams) with
  | None => SUnknown (Unknown.new innerStream None)
  | Some codec =>
      if codec_type codecParams =? AVMEDIA_TYPE_VIDEO then
        SVideo (Video.new innerStream (Some codec))
      else if codec_type codecParams =? AVMEDIA_TYPE_AUDIO then
        SAudio (Audio.new innerStream (Some codec))
      else SUnknown (Unknown.new innerStream (Some codec))
  end.

(** The loop of [findStreams]: the pointers appended so far and the
    store. *)
Fixpoint find_loop (avcodec_find_decoder : Z -> option AVCodec)
    (innerStreams : list AVStream) (acc : list (option positive)) (st : GoStore)
  : list (option positive) * GoStore :=
  match innerStreams with
  | [] => (acc, st)
  | innerStream :: rest =>
      let '(p, st) := new_object (classify avcodec_find_decoder innerStream) st in
      find_loop avcodec_find_decoder rest (acc ++ [Some p]) st
  end.

(** What the native engine reports to [findStreams]. *)
Record find_env : Type := {
  avformat_find_stream_info_r : Z;
  ctx_streams : list AVStream;
  avcodec_find_decoder : Z -> option AVCodec }.

(** [Media.findStreams].  The slice built by [append] becomes the
    media's [streams]; its backing array is fresh. *)
Definition findStreams (e : find_env) (m : Media) (st : GoStore)
  : Media * GoStore * option error :=
  if avformat_find_stream_info_r e <? 0 then
    (m, st, Some (Errorf None "couldn't find stream information"))
  else
    let '(ptrs, st) := find_loop (avcodec_find_decoder e) (ctx_streams e) [] st in
    let a := fresh (dom (arrays st)) in
    let st := set_arrays (<[a := ptrs]> (arrays st)) st in
    (set_streams (Some {| arr := a; len := length ptrs |}) m, st, None).

(** What the native engine produces in one [ReadPacket]. *)
Record read_env : Type := {
  av_read_frame_r : Z;
  read_pkt : AVPacket;
  av_packet_ref_r : Z;
  av_bsf_send_packet_r : Z;
  av_bsf_receive_packet_r : Z;
  filtered_pkt : AVPacket }.

Section Read.
Context {platform : Platform}.

(** [Media.ReadPacket].  Once the native read has succeeded the stream
    index is read through [m.packet], which is nil until [OpenDecode]: a
    nil packet stops the program there.  So does a filtered packet that is
    built from a nil output packet. *)
Definition ReadPacket (e : read_env) (m : Media) (st : GoStore)
  : outcome (option Packet * bool * option error) :=
  let r := av_read_frame_r e in
  if r <? 0 then
    if r =? ErrorAgain then Done (None, true, None)
    else Done (None, false, None)
  else
    match packet m with
    | None => Panic
    | Some _ =>
        match slice_get st (streams m) (stream_index (read_pkt e)) with
        | Panic => Panic
        | Done None => Panic
        | Done (Some p) =>
            match objects st !! p with
            | None => Panic
            | Some packetStream =>
                match filterCtx (base_of packetStream) with
                | Some _ =>
                    if av_packet_ref_r e <? 0 then
                      Done (None, false,
                            Some (Errorf (Some (av_packet_ref_r e))
                                    "couldn't reference the packet"))
                    else if av_bsf_send_packet_r e <? 0 then
                      Done (None, false,
                            Some (Errorf (Some (av_bsf_send_packet_r e))
                                    "couldn't send the packet to the filter"))
                    else if av_bsf_receive_packet_r e <? 0 then
                      Done (None, false,
                            Some (Errorf (Some (av_bsf_receive_packet_r e))
                                    "couldn't receive the packet from the filter"))
                    else
                      match filterOutPacket (base_of packetStream) with
                      | None => Panic
                      | Some _ => Done (Some (newPacket (filtered_pkt e)), true, None)
                      end
                | None => Done (Some (newPacket (read_pkt e)), true, None)
                end
            end
        end
    end.

End Read.

(** The loops of [VideoStreams] and [AudioStreams]: the pointers of the
    list whose stream object has the asserted type, appended in order. *)
Fixpoint video_loop (st : GoStore) (xs : list (option positive)) (acc : list positive)
  : list positive :=
  match xs with
  | [] => acc
  | x :: rest =>
      match x with
      | Some p =>
          match objects st !! p with
          | Some (SVideo _) => video_loop st rest (acc ++ [p])
          | _ => video_loop st rest acc
          end
      | None => video_loop st rest acc
      end
  end.

Fixpoint audio_loop (st : GoStore) (xs : list (option positive)) (acc : list positive)
  : list positive :=
  match xs with
  | [] => acc
  | x :: rest =>
      match x with
      | Some p =>
          match objects st !! p with
          | Some (SAudio _) => audio_loop st rest (acc ++ [p])
          | _ => audio_loop st rest acc
          end
      | None => audio_loop st rest acc
      end
  end.

(** [Media.VideoStreams] and [Media.AudioStreams]. *)
Definition VideoStreams (m : Media) (st : GoStore) : list positive :=
  video_loop st (elems st (streams m)) [].

Definition AudioStreams (m : Media) (st : GoStore) : list positive :=
  audio_loop st (elems st (streams m)) [].

(** [Media.OpenDecode]. *)
Definition OpenDecode (av_packet_alloc_ok : bool) (m : Media) (w : Mem)
  : Media * Mem * option error :=
  let '(p, w) := c_alloc av_packet_alloc_ok CPacket w in
  let m := set_packet p m in
  match packet m with
  | None => (m, w, Some (Errorf None "couldn't allocate a new packet"))
  | Some _ => (m, w, None)
  end.

(** [Media.CloseDecode]. *)
Definition CloseDecode (m : Media) (w : Mem) : Media * Mem * option error :=
  let w := c_free (packet m) w in
  (set_packet None m, w, None).

(** [Packet.StreamIndex], [Packet.Data] and [Packet.Size]. *)
Definition Packet_StreamIndex (p : Packet) : Z := streamIndex p.

Definition Packet_Data (p : Packet) : list byte := pdata p.

Definition Packet_Size (p : Packet) : Z := psize p.

(** [Packet.Type]: [p.media.Streams()[p.streamIndex].Type()], on the media
    the packet came from. *)
Definition Packet_Type (p : Packet) (m : Media) (st : GoStore) : outcome (Z * GoStore) :=
  let '(sl, st) := Streams m st in
  match slice_get st (Some sl) (streamIndex p) with
  | Done (Some q) =>
      match objects st !! q with
      | Some o => Done (Type_ (base_of o), st)
      | None => Panic
      end
  | Done None => Panic
  | Panic => Panic
  end.

(** [Media.Duration]: [float64(dur) / float64(TimeBase)], printed with
    [%fs] and parsed back.  [dur] is the native container's duration;
    [TimeBase], the number of native ticks in a second, is declared in a
    file that is not among the sources and is a parameter. *)
Definition Duration (TimeBase : Z) (dur : Z) : Z * option error :=
  let tm := f64_div (f64_of_int dur) (f64_of_int TimeBase) in
  ParseDuration_fs tm.

End MediaM.

(** ** Sample inputs *)

Definition sample_params : AVCodecParameters :=
  {| codec_type := AVMEDIA_TYPE_VIDEO; codec_id := 27; bit_rate := 400000;
     width := 2; height := 1 |}.

Definition sample_inner (tb : AVRational) (dur : Z) : AVStream :=
  {| index := 0; time_base := tb; duration := dur;
     r_frame_rate := {| num := 25; den := 1 |}; nb_frames := 0;
     codecpar := sample_params |}.

Definition sample_codec : AVCodec := {| name := "h264"; long_name := "H.264" |}.

Definition sample_stream (tb : AVRational) (dur : Z) : baseStream :=
  Stream.new (sample_inner tb dur) (Some sample_codec).

Definition sample_frame (tb : AVRational) (p : Z) : baseFrame :=
  {| stream := sample_stream tb 0; pts := p; indexCoded := 0; indexDisplay := 0 |}.

Definition empty_mem : Mem := {| cheap := ∅; goheap := ∅ |}.

Definition sample_media : Media :=
  {| ctx := Some 1%positive; packet := Some 2%positive;
     opts := {| InputFormat := ""; Timeout := 0 |}; streams := None |}.

(** A [read] in which the decoder takes the packet and asks for more. *)
Definition rd_try_again : Stream.read_env :=
  {| avcodec_send_packet := fun _ _ => 0;
     avcodec_receive_frame := fun _ _ => -11 |}.

(** A [read] in which the decoder takes the packet and gives a frame. *)
Definition rd_frame : Stream.read_env :=
  {| avcodec_send_packet := fun _ _ => 0;
     avcodec_receive_frame := fun _ _ => 0 |}.

Definition video_env (r : Stream.read_env) (out : list byte) : Video.read_env :=
  {| Video.rd := r; Video.frame_pts := 50; Video.coded_picture_number := 0;
     Video.display_picture_number := 0; Video.ctx_width := 2; Video.ctx_height := 1;
     Video.sws_scale_out := out |}.

Definition audio_env (r : Stream.read_env) (size : Z) (malloc_ok : bool) (out : list byte)
  : Audio.read_env :=
  {| Audio.rd := r; Audio.frame_pts := 50; Audio.coded_picture_number := 0;
     Audio.display_picture_number := 0; Audio.av_samples_get_buffer_size_r := size;
     Audio.av_malloc_ok := malloc_ok; Audio.swr_convert_r := size / 4;
     Audio.swr_convert_out := out |}.

Definition sample_tb : AVRational := {| num := 1; den := 25 |}.

Definition sample_video : Video.VideoStream :=
  Video.new (sample_inner sample_tb 100) (Some sample_codec).

Definition sample_audio : Audio.AudioStream :=
  Audio.new (sample_inner sample_tb 100) (Some sample_codec).

(** Opening in which every native step succeeds. *)
Definition open_ok : Stream.open_env :=
  {| avcodec_alloc_context3_ok := true; avcodec_parameters_to_context_r := 0;
     avcodec_open2_r := 0; av_frame_alloc_ok := true |}.

(** Opening in which the codec context is allocated and then refuses the
    stream's parameters with [AVERROR(EINVAL)]. *)
Definition open_params_rejected : Stream.open_env :=
  {| avcodec_alloc_context3_ok := true; avcodec_parameters_to_context_r := -22;
     avcodec_open2_r := 0; av_frame_alloc_ok := true |}.

Definition video_open_env (b : Stream.open_env) (sws_ok : bool) : Video.open_env :=
  {| Video.base_open := b; Video.rgba_frame_alloc_ok := true;
     Video.av_image_get_buffer_size_r := 8; Video.av_malloc_ok := true;
     Video.av_image_fill_arrays_r := 8; Video.sws_getContext_ok := sws_ok |}.

Definition audio_open_env (b : Stream.open_env) (swr_init : Z) : Audio.open_env :=
  {| Audio.base_open := b; Audio.swr_alloc_set_opts2_ok := true;
     Audio.swr_init_r := swr_init |}.

(** A filter set-up in which every native step succeeds. *)
Definition filter_ok : Stream.filter_env :=
  {| av_bsf_list_parse_str_r := 0; par_in_copy_r := 0; par_out_copy_r := 0;
     av_bsf_init_r := 0; packet_in_alloc_ok := true; packet_out_alloc_ok := true |}.

(** A session of three reads in which the second allocation fails. *)
Definition shrinking_session : list Audio.read_env :=
  [ audio_env rd_frame 200 true [];
    audio_env rd_frame 400 false [];
    audio_env rd_frame 100 true [] ].

Definition growing_session : list Audio.read_env :=
  [ audio_env rd_frame 200 true [];
    audio_env rd_try_again 0 true [];
    audio_env rd_frame 100 true [];
    audio_env rd_frame 400 true [] ].

Definition sample_packet : AVPacket :=
  {| stream_index := 0; pkt_data := Some [x01; x02; x03]; pkt_size := 3;
     pkt_pts := 50; pkt_dts := 50; pkt_pos := 0; pkt_duration := 1; pkt_flags := 1 |}.

(** A [ReadPacket] in which [av_read_frame] returns [r]. *)
Definition packet_env (r : Z) : MediaM.read_env :=
  {| MediaM.av_read_frame_r := r; MediaM.read_pkt := sample_packet;
     MediaM.av_packet_ref_r := 0; MediaM.av_bsf_send_packet_r := 0;
     MediaM.av_bsf_receive_packet_r := 0; MediaM.filtered_pkt := sample_packet |}.

Definition empty_store : MediaM.GoStore :=
  {| MediaM.objects := ∅; MediaM.arrays := ∅ |}.

(** A media with two streams, as [findStreams] leaves it. *)
Definition two_streams : list AVStream :=
  [ sample_inner sample_tb 100;
    {| index := 1; time_base := {| num := 1; den := 48000 |}; duration := 480000;
       r_frame_rate := {| num := 0; den := 0 |}; nb_frames := 0;
       codecpar := {| codec_type := AVMEDIA_TYPE_AUDIO; codec_id := 86018;
                      bit_rate := 128000; width := 0; height := 0 |} |} ].

Definition find_env_ok (ss : list AVStream) : MediaM.find_env :=
  {| MediaM.avformat_find_stream_info_r := 0;
     MediaM.ctx_streams := ss;
     MediaM.avcodec_find_decoder :=
       fun id => if id =? 27 then Some sample_codec
                 else if id =? 86018 then Some {| name := "aac"; long_name := "AAC" |}
                 else None |}.

Definition found_media : Media :=
  (MediaM.findStreams (find_env_ok two_streams) sample_media empty_store).1.1.

Definition found_store : MediaM.GoStore :=
  (MediaM.findStreams (find_env_ok two_streams) sample_media empty_store).1.2.

(** A video stream opened for a 2 by 1 picture, and the memory then. *)
Definition opened_video : Video.VideoStream :=
  (Video.OpenDecode (video_open_env open_ok true) 2 1 4 sample_video empty_mem).1.1.

Definition opened_video_mem : Mem :=
  (Video.OpenDecode (video_open_env open_ok true) 2 1 4 sample_video empty_mem).1.2.

Definition opened_audio : Audio.AudioStream :=
  (Audio.Open (audio_open_env open_ok 0) sample_audio empty_mem).1.1.

Definition opened_audio_mem : Mem :=
  (Audio.Open (audio_open_env open_ok 0) sample_audio empty_mem).1.2.

Definition pixels_a : list byte := [x01; x02; x03; x04; x05; x06; x07; x08].

Definition pixels_b : list byte := [xf1; xf2; xf3; xf4; xf5; xf6; xf7; xf8].

(** ** Proof automation *)

(** Lookups in a heap after frees and allocations. *)
Ltac heap_lookup :=
  simpl; rewrite ?lookup_delete, ?lookup_insert; repeat case_decide;
  try congruence; try done.

(** Equality of two heaps, key by key, from what is known of the fresh
    handles. *)
Ltac heap_eq :=
  apply map_eq; intros ?k;
  rewrite ?lookup_delete, ?lookup_insert;
  repeat case_decide; subst; try congruence; try reflexivity.

(** Facts about a handle that is fresh for a heap with handles inserted. *)
Ltac fresh_facts H :=
  repeat (rewrite lookup_insert_None in H;
          let H' := fresh "Hne" in destruct H as [H H']).

(** ** Ownership of native objects

    [video_opened w0 s w]: the video stream [s] is open in memory [w] and
    holds, beyond what the native heap of [w0] holds, exactly its codec
    context, decode frame, RGBA frame, RGBA buffer and scaler. *)
Definition video_opened (w0 : Mem) (s : Video.VideoStream) (w : Mem) : Prop :=
  exists cc fr f buf sc bs,
    (codecCtx (Video.base s) = Some cc /\ frame (Video.base s) = Some fr
     /\ Video.rgbaFrame s = Some f /\ Video.swsCtx s = Some sc
     /\ filterCtx (Video.base s) = None /\ filterInPacket (Video.base s) = None
     /\ filterOutPacket (Video.base s) = None)
    /\ (cheap w !! cc = Some CCodecCtx /\ cheap w !! fr = Some (CFrame None)
        /\ cheap w !! f = Some (CFrame (Some buf)) /\ cheap w !! buf = Some (CBuffer bs)
        /\ cheap w !! sc = Some CSwsCtx)
    /\ (cheap w0 !! cc = None /\ cheap w0 !! fr = None /\ cheap w0 !! f = None
        /\ cheap w0 !! buf = None /\ cheap w0 !! sc = None)
    /\ (forall k, k <> cc -> k <> fr -> k <> f -> k <> buf -> k <> sc ->
          cheap w !! k = cheap w0 !! k).

(** [audio_opened w0 s w]: the same for an audio stream, which holds its
    codec context, decode frame and resampler and, when it has one, its
    output buffer. *)
Definition audio_opened (w0 : Mem) (s : Audio.AudioStream) (w : Mem) : Prop :=
  exists cc fr sw,
    (codecCtx (Audio.base s) = Some cc /\ frame (Audio.base s) = Some fr
     /\ Audio.swrCtx s = Some sw
     /\ filterCtx (Audio.base s) = None /\ filterInPacket (Audio.base s) = None
     /\ filterOutPacket (Audio.base s) = None)
    /\ (cheap w !! cc = Some CCodecCtx /\ cheap w !! fr = Some (CFrame None)
        /\ cheap w !! sw = Some CSwrCtx)
    /\ (cheap w0 !! cc = None /\ cheap w0 !! fr = None /\ cheap w0 !! sw = None)
    /\ match Audio.buffer s with
       | Some b =>
           (exists bs, cheap w !! b = Some (CBuffer bs)
                       /\ Audio.bufferSize s <= Z.of_nat (length bs))
           /\ cheap w0 !! b = None
           /\ forall k, k <> cc -> k <> fr -> k <> sw -> k <> b ->
                cheap w !! k = cheap w0 !! k
       | None =>
           forall k, k <> cc -> k <> fr -> k <> sw -> cheap w !! k = cheap w0 !! k
       end.

(** A media opened for decoding, and the memory then. *)
Definition decoding_media : Media :=
  (MediaM.OpenDecode true sample_media empty_mem).1.1.

Definition decoding_mem : Mem :=
  (MediaM.OpenDecode true sample_media empty_mem).1.2.

(** * Properties *)

(** ** int64 arithmetic *)

Lemma wrap64_id (z : Z) : in_int64 z -> wrap64 z = z.
Proof.
  unfold in_int64, int64_min, int64_max, wrap64. intros H.
  rewrite Z.mod_small; lia.
Qed.

(** Wrapping a factor first does not change the wrapped product. *)
Lemma wrap64_mul_l (a b : Z) : wrap64 (wrap64 a * b) = wrap64 (a * b).
Proof.
  unfold wrap64. f_equal.
  replace (((a + 2 ^ 63) mod 2 ^ 64 - 2 ^ 63) * b + 2 ^ 63)
    with ((a + 2 ^ 63) mod 2 ^ 64 * b + (2 ^ 63 - 2 ^ 63 * b)) by ring.
  replace (a * b + 2 ^ 63) with ((a + 2 ^ 63) * b + (2 ^ 63 - 2 ^ 63 * b)) by ring.
  rewrite (Z.add_mod ((a + 2 ^ 63) mod 2 ^ 64 * b)) by lia.
  rewrite (Z.add_mod ((a + 2 ^ 63) * b)) by lia.
  rewrite Z.mul_mod_idemp_l by lia. reflexivity.
Qed.

Lemma quot_in_int64 (a d : Z) :
  in_int64 a -> a <> int64_min -> d <> 0 -> in_int64 (a ÷ d).
Proof.
  unfold in_int64, int64_min, int64_max. intros Ha Hmin Hd.
  assert (Habs : Z.abs (a ÷ d) <= Z.abs a).
  { rewrite <- Z.quot_abs by assumption.
    apply Z.quot_le_upper_bound; nia. }
  generalize dependent (a ÷ d). intros q Hq. lia.
Qed.

(** ** Presentation offset *)

(** A whole number of seconds is never [MinInt64] nanoseconds. *)
Lemma Second_mul_not_min (n p : Z) : Second * n * p <> int64_min.
Proof.
  intros H.
  assert (H5 : (Second * n * p) mod 5 = 0).
  { replace (Second * n * p) with (n * p * 200000000 * 5) by (unfold Second; ring).
    apply Z.mod_mul. lia. }
  rewrite H in H5. vm_compute in H5. discriminate.
Qed.

Lemma PresentationOffset_unfold (f : baseFrame) :
  Frame.PresentationOffset f =
  match div64 (wrap64 (Second * num (time_base (inner (stream f))) * pts f))
          (den (time_base (inner (stream f)))) with
  | Done d => Done (d, None)
  | Panic => Panic
  end.
Proof.
  unfold Frame.PresentationOffset, TimeBase, mul64.
  rewrite wrap64_mul_l. reflexivity.
Qed.

(** C2, as amended.  For a frame of pts [p] on a stream of time base
    [n/d] with [d] not zero, if [10^9 * n * p] fits in int64 then the integer
    form of PresentationOffset returns [p * n / d] seconds truncated towards
    zero to whole nanoseconds, with a nil error and by integer arithmetic
    alone; the result is exact whenever [d] divides [10^9 * n * p]; and for
    time base 1/25 and pts 50 both forms return 2 seconds. *)
Theorem PresentationOffset_truncated_quotient (f : baseFrame) (n d : Z) :
  TimeBase (stream f) = (n, d) ->
  d <> 0 ->
  in_int64 (Second * n * pts f) ->
  Frame.PresentationOffset f = Done ((Second * n * pts f) ÷ d, None)
  /\ ((d | Second * n * pts f) ->
      exists r, Frame.PresentationOffset f = Done (r, None)
                /\ r * d = Second * n * pts f)
  /\ (n = 1 -> d = 25 -> pts f = 50 ->
      Frame.PresentationOffset f = Done (2 * Second, None)
      /\ FrameF64.PresentationOffset f = (2 * Second, None)).
Proof.
  intros Htb Hd Hfit.
  assert (Hpo : Frame.PresentationOffset f = Done ((Second * n * pts f) ÷ d, None)).
  { rewrite PresentationOffset_unfold.
    unfold TimeBase in Htb. injection Htb as Hn Hden. rewrite Hn, Hden.
    unfold div64. destruct (Z.eqb_spec d 0) as [|_]; [contradiction|].
    rewrite (wrap64_id (Second * n * pts f)) by assumption.
    rewrite wrap64_id; [reflexivity|].
    apply quot_in_int64; try assumption.
    apply Second_mul_not_min. }
  split; [exact Hpo|]. split.
  - intros [k Hk]. exists ((Second * n * pts f) ÷ d). split; [exact Hpo|].
    rewrite Hk. rewrite Z.quot_mul by assumption. reflexivity.
  - intros -> -> Hp. split.
    + rewrite Hpo, Hp. reflexivity.
    + unfold FrameF64.PresentationOffset. rewrite Htb, Hp. vm_compute. reflexivity.
Qed.

Lemma PresentationOffset_truncated_quotient_witness :
  Frame.PresentationOffset (sample_frame {| num := 1; den := 25 |} 50)
  = Done (2000000000, None).
Proof.
  pose proof (PresentationOffset_truncated_quotient
                (sample_frame {| num := 1; den := 25 |} 50) 1 25) as H.
  destruct H as [H _].
  - reflexivity.
  - lia.
  - split; vm_compute; discriminate.
  - exact H.
Defined.

(** C2 as stated fails.  On a 90 kHz time base a pts of 9223372037 ticks
    (about 28.5 hours) makes [10^9 * pts] leave int64, and the integer form
    returns a negative offset; the floating-point form returns 8199999999 ns
    for pts 205 at time base 1/25, where [205 / 25] s is 8200000000 ns
    exactly. *)
Lemma PresentationOffset_not_exact :
  Frame.PresentationOffset (sample_frame {| num := 1; den := 90000 |} 9223372037)
  = Done (-102481911518995, None)
  /\ 0 < Second * 1 * 9223372037
  /\ FrameF64.PresentationOffset (sample_frame {| num := 1; den := 25 |} 205)
     = (8199999999, None)
  /\ 8200000000 * 25 = Second * 1 * 205.
Proof.
  repeat split; vm_compute; reflexivity.
Qed.

(** ** Stream duration *)

Lemma binary_round_aux_nonneg (m e : Z) (l : location) :
  f64_nonneg (binary_round_aux f64_prec f64_emax false m e l) = true.
Proof.
  unfold binary_round_aux.
  destruct (shr_fexp f64_prec f64_emax m e l) as [mrs' e'].
  destruct (shr_fexp f64_prec f64_emax _ e' loc_Exact) as [mrs'' e''].
  destruct (shr_m mrs''); [reflexivity| |reflexivity].
  destruct (e'' <=? f64_emax - f64_prec); reflexivity.
Qed.

Lemma f64_of_int_nonneg (z : Z) : 0 <= z -> f64_nonneg (f64_of_int z) = true.
Proof.
  intros Hz. unfold f64_of_int, binary_normalize.
  destruct z as [|p|p]; [reflexivity| |lia].
  unfold binary_round.
  destruct (shl_align p 0 _) as [mz ez].
  apply binary_round_aux_nonneg.
Qed.

Lemma f64_mul_nonneg (x y : float64) :
  f64_nonneg x = true -> f64_nonneg y = true -> f64_nonneg (f64_mul x y) = true.
Proof.
  unfold f64_mul.
  destruct x as [[]|[]| |[] mx ex], y as [[]|[]| |[] my ey];
    simpl; intros Hx Hy; try discriminate; try reflexivity.
  apply binary_round_aux_nonneg.
Qed.

Lemma f64_div_nonneg (x y : float64) :
  f64_nonneg x = true -> f64_nonneg y = true -> f64_nonneg (f64_div x y) = true.
Proof.
  unfold f64_div.
  destruct x as [[]|[]| |[] mx ex], y as [[]|[]| |[] my ey];
    simpl; intros Hx Hy; try discriminate; try reflexivity.
  destruct (SFdiv_core_binary f64_prec f64_emax (Z.pos mx) ex (Z.pos my) ey) as [[mz ez] lz].
  apply binary_round_aux_nonneg.
Qed.

Lemma micros_nonneg (m : positive) (e : Z) : 0 <= micros m e.
Proof.
  unfold micros. destruct (0 <=? e) eqn:He.
  - apply Z.leb_le in He. 
    assert (0 < 2 ^ e) by (apply Z.pow_pos_nonneg; lia). nia.
  - apply Z.leb_gt in He.
    assert (Hd : 0 < 2 ^ (- e)) by (apply Z.pow_pos_nonneg; lia).
    assert (Hq : 0 <= Z.pos m * 10 ^ 6 / 2 ^ (- e)) by (apply Z.div_pos; lia).
    destruct (_ ?= _); [destruct (Z.even _)| |]; lia.
Qed.

Lemma ParseDuration_fs_nonneg (tm : float64) :
  f64_nonneg tm = true -> 0 <= fst (ParseDuration_fs tm).
Proof.
  destruct tm as [s|s| |s m e]; simpl; try (intros _; lia).
  intros Hs. destruct s; [discriminate|clear Hs].
  pose proof (micros_nonneg m e) as Hu.
  destruct (_ <? micros m e / 10 ^ 6); [simpl; lia|].
  destruct (2 ^ 63 <? _); [simpl; lia|].
  destruct (2 ^ 63 - 1 <? _); [simpl; lia|]. 
  cbn [fst].
  assert (0 <= micros m e / 10 ^ 6) by (apply Z.div_pos; lia).
  assert (0 <= micros m e mod 10 ^ 6) by (apply Z.mod_pos_bound; lia).
  unfold Second. lia.
Qed.

(** A clamped native duration converts to zero whatever the time base. *)
Lemma Duration_of_negative (s : baseStream) :
  duration (inner s) < 0 -> fst (Duration s) = 0.
Proof.
  intros Hneg. unfold Duration, TimeBase.
  destruct (Z.ltb_spec (duration (inner s)) 0) as [_|]; [|lia].
  change (f64_of_int 0) with (S754_zero false).
  destruct (f64_div _ _) as [[]|[]| |[] m e]; reflexivity.
Qed.

(** C9, as amended.  On a stream whose time base has a numerator and a
    denominator that are not negative, Duration never returns a negative
    duration; and a negative native duration, clamped to zero, makes the
    returned duration zero. *)
Theorem Duration_nonneg (s : baseStream) :
  0 <= num (time_base (inner s)) ->
  0 <= den (time_base (inner s)) ->
  0 <= fst (Duration s)
  /\ (duration (inner s) < 0 -> fst (Duration s) = 0).
Proof.
  intros Hn Hd. split; [|apply Duration_of_negative].
  unfold Duration, TimeBase.
  apply ParseDuration_fs_nonneg, f64_mul_nonneg.
  - apply f64_of_int_nonneg. destruct (Z.ltb_spec (duration (inner s)) 0); lia.
  - apply f64_div_nonneg; apply f64_of_int_nonneg; assumption.
Qed.

Lemma Duration_nonneg_witness :
  0 <= fst (Duration (sample_stream {| num := 1; den := 25 |} 50)).
Proof.
  apply (Duration_nonneg (sample_stream {| num := 1; den := 25 |} 50)).
  - simpl. lia.
  - simpl. lia.
Defined.

(** C9 as stated fails on a stream whose time base is negative: nothing in
    Duration looks at the sign of the time base. *)
Lemma Duration_negative :
  Duration (sample_stream {| num := -1; den := 25 |} 50) = (-2000000000, None)
  /\ fst (Duration (sample_stream {| num := -1; den := 25 |} 50)) < 0.
Proof.
  split; vm_compute; reflexivity.
Qed.

(** ** The recoverable condition of read *)

Section TryAgain.
Context {platform : Platform}.


(** An error from [read] never stands for the try-again status of the
    receive step. *)
Lemma read_error_not_try_again (e : Stream.read_env) (m : Media) (s : baseStream)
    (b : baseStream) (ok : bool) (er : error) :
  read e m s = (b, ok, Some er) ->
  (exists c p, avcodec_send_packet e c p < 0)
  \/ (exists c f, avcodec_receive_frame e c f < 0
                  /\ avcodec_receive_frame e c f <> ErrorAgain).
Proof.
  unfold read.
  destruct (Z.ltb_spec (avcodec_send_packet e (codecCtx s)
              match filterCtx s with Some _ => filterOutPacket s | None => packet m end) 0)
    as [Hlt|_].
  - intros _. left. eauto.
  - destruct (Z.ltb_spec (avcodec_receive_frame e (codecCtx s) (frame s)) 0) as [Hlt|_];
      [|discriminate].
    destruct (Z.eqb_spec (avcodec_receive_frame e (codecCtx s) (frame s)) ErrorAgain)
      as [|Hne]; [discriminate|].
    intros _. right. eauto.
Qed.



End TryAgain.



(** ** Failure paths of Open *)

(** When [open] fails after the codec context was allocated, the context is
    neither released nor forgotten. *)
Lemma open_failure_keeps_codecCtx (e : Stream.open_env) (s : baseStream) (w : Mem) :
  avcodec_alloc_context3_ok e = true ->
  avcodec_parameters_to_context_r e < 0 ->
  exists h s' w' er,
    open e s w = (s', w', Some er)
    /\ codecCtx s' = Some h
    /\ cheap w' !! h = Some CCodecCtx
    /\ cheap w !! h = None.
Proof.
  intros Hok Hr. unfold open, c_alloc. rewrite Hok. simpl.
  destruct (Z.ltb_spec (avcodec_parameters_to_context_r e) 0) as [_|]; [|lia].
  eexists _, _, _, _. split; [reflexivity|]. split; [reflexivity|]. split.
  - simpl. apply lookup_insert_eq.
  - apply not_elem_of_dom, is_fresh.
Qed.

(** C3 fails on the code.  A video stream is opened on empty memory.  When
    the codec context rejects the parameters, OpenDecode returns the error
    with the context still allocated and still held by the stream.  When the
    scaler cannot be built, OpenDecode releases the RGBA frame and its
    buffer but returns the error with the stream marked open and the codec
    context and the decode frame allocated.  An audio stream whose resampler
    fails to initialise is left open in the same way. *)
Theorem OpenDecode_failure_leaves_resources :
  (let '(s, w, err) :=
     Video.OpenDecode (video_open_env open_params_rejected true) 2 1 4
       sample_video empty_mem in
   err = Some (Errorf (Some (-22)) "couldn't send codec parameters to the context")
   /\ codecCtx (Video.base s) = Some 1%positive
   /\ cheap w !! 1%positive = Some CCodecCtx)
  /\ (let '(s, w, err) :=
        Video.OpenDecode (video_open_env open_ok false) 2 1 4 sample_video empty_mem in
      err = Some (Errorf None "couldn't create an SWS context")
      /\ opened (Video.base s) = true
      /\ codecCtx (Video.base s) = Some 1%positive
      /\ frame (Video.base s) = Some 2%positive
      /\ Video.rgbaFrame s = None
      /\ dom (cheap w) = {[ 1%positive; 2%positive ]})
  /\ (let '(s, w, err) :=
        Audio.Open (audio_open_env open_ok (-22)) sample_audio empty_mem in
      err = Some (Errorf (Some (-22)) "couldn't initialize the SWR context")
      /\ opened (Audio.base s) = true
      /\ dom (cheap w) = {[ 1%positive; 2%positive; 3%positive ]}).
Proof.
  repeat split; vm_compute; reflexivity.
Qed.

(** ** Filters *)

(** RemoveFilter never touches the filter arguments that [Filter] reports. *)
Lemma RemoveFilter_Filter (s : baseStream) (w : Mem) :
  Filter (RemoveFilter s w).1.1 = Filter s.
Proof.
  unfold RemoveFilter. destruct (filterCtx s); reflexivity.
Qed.

Lemma RemoveFilter_no_filter (s : baseStream) (w : Mem) :
  filterCtx s = None ->
  RemoveFilter s w = (s, w, Some (Errorf None "no filter applied")).
Proof.
  intros H. unfold RemoveFilter. rewrite H. reflexivity.
Qed.

(** With a filter active, RemoveFilter succeeds, releases the filter context
    and both packets and clears the three fields. *)
Lemma RemoveFilter_releases (s : baseStream) (w : Mem) (c : positive) :
  filterCtx s = Some c ->
  let '(s', w', err) := RemoveFilter s w in
  err = None
  /\ filterCtx s' = None /\ filterInPacket s' = None /\ filterOutPacket s' = None
  /\ cheap w' !! c = None
  /\ (forall p, filterInPacket s = Some p -> cheap w' !! p = None)
  /\ (forall p, filterOutPacket s = Some p -> cheap w' !! p = None).
Proof.
  intros H. unfold RemoveFilter. rewrite H. simpl.
  repeat split.
  - destruct (filterInPacket s), (filterOutPacket s); heap_lookup.
  - intros p Hp. rewrite Hp. destruct (filterOutPacket s); heap_lookup.
  - intros p Hp. rewrite Hp. heap_lookup.
Qed.

(** C6 fails on the code in its last part.  A filter is applied to a
    stream and removed again: RemoveFilter succeeds and frees every native
    object of the filter, yet [Filter] still reports the removed filter. *)
Theorem RemoveFilter_leaves_Filter_set :
  let '(s1, w1, e1) :=
    ApplyFilter filter_ok "h264_mp4toannexb" (sample_stream sample_tb 100) empty_mem in
  let '(s2, w2, e2) := RemoveFilter s1 w1 in
  e1 = None /\ filterCtx s1 = Some 1%positive /\ Filter s1 = "h264_mp4toannexb"%string
  /\ e2 = None /\ filterCtx s2 = None
  /\ filterInPacket s2 = None /\ filterOutPacket s2 = None
  /\ cheap w2 = ∅
  /\ Filter s2 = "h264_mp4toannexb"%string.
Proof.
  vm_compute. repeat split; reflexivity.
Qed.

(** ** The reusable output buffer of an audio stream *)

Section AudioBuffer.
Context {platform : Platform}.

(** [read] changes nothing of the stream but its skip flag. *)
Lemma read_only_sets_skip (e : Stream.read_env) (m : Media) (s : baseStream) :
  exists x, (read e m s).1.1 = set_skip x s.
Proof.
  unfold read.
  destruct (_ <? 0); [eexists; reflexivity|].
  destruct (_ <? 0); [|eexists; reflexivity].
  destruct (_ =? _); eexists; reflexivity.
Qed.

Lemma c_write_length (p : positive) (out : list byte) (w : Mem) (bs : list byte) :
  c_bytes w p = Some bs ->
  exists bs', c_bytes (c_write p out w) p = Some bs' /\ length bs' = length bs.
Proof.
  intros H. unfold c_write. rewrite H.
  eexists. split.
  - unfold c_bytes. simpl. rewrite lookup_insert_eq. reflexivity.
  - rewrite length_take, length_app, length_drop. lia.
Qed.

Lemma c_write_dom (p : positive) (out : list byte) (w : Mem) :
  dom (cheap (c_write p out w)) = dom (cheap w).
Proof.
  unfold c_write, c_bytes. destruct (cheap w !! p) as [[]|] eqn:H; try reflexivity.
  simpl. rewrite dom_insert_L.
  apply subseteq_union_1_L, singleton_subseteq_l, elem_of_dom. eauto.
Qed.

Lemma buffer_size_of_block (s : Audio.AudioStream) (w : Mem) (p : positive) (bs : list byte) :
  Audio.buffer s = Some p -> c_bytes w p = Some bs ->
  Audio.buffer_size s w = Z.of_nat (length bs).
Proof.
  intros Hb Hc. unfold Audio.buffer_size. rewrite Hb, Hc. reflexivity.
Qed.

Lemma buffer_size_nonneg (s : Audio.AudioStream) (w : Mem) : 0 <= Audio.buffer_size s w.
Proof.
  unfold Audio.buffer_size. destruct (Audio.buffer s); [|lia].
  destruct (c_bytes w p); lia.
Qed.

Lemma buffer_size_wf (s : Audio.AudioStream) (w : Mem) :
  Audio.buffer_wf s w ->
  Audio.buffer_size s w
  = match Audio.buffer s with Some _ => Audio.bufferSize s | None => 0 end.
Proof.
  intros Hwf. unfold Audio.buffer_size.
  destruct (Audio.buffer s) as [p|] eqn:Hb; [|reflexivity].
  destruct (Hwf p Hb) as (bs & Hc & Hlen). rewrite Hc. exact Hlen.
Qed.

Lemma ReadAudioFrame_step (e : Audio.read_env) (m : Media) (s : Audio.AudioStream) (w : Mem) :
  Audio.buffer_wf s w ->
  Audio.av_malloc_ok e = true ->
  let '(s', w', _) := Audio.ReadAudioFrame e m s w in
  Audio.buffer_wf s' w'
  /\ Audio.buffer_size s w <= Audio.buffer_size s' w'
  /\ (forall p, Audio.buffer s = Some p ->
        (Audio.buffer s' = Some p
         /\ Audio.buffer_size s' w' = Audio.buffer_size s w
         /\ dom (cheap w') = dom (cheap w))
        \/ (Audio.bufferSize s < Audio.av_samples_get_buffer_size_r e
            /\ Audio.buffer_size s' w' = Audio.av_samples_get_buffer_size_r e)).
Proof.
  intros Hwf Hok. unfold Audio.ReadAudioFrame.
  destruct (read_only_sets_skip (Audio.rd e) m (Audio.base s)) as [x Hx].
  destruct (read (Audio.rd e) m (Audio.base s)) as [[b ok] err]. simpl in Hx. subst b.
  assert (Hsame : Audio.buffer_wf (Audio.set_base (set_skip x (Audio.base s)) s) w
          /\ Audio.buffer_size s w
             <= Audio.buffer_size (Audio.set_base (set_skip x (Audio.base s)) s) w
          /\ (forall p, Audio.buffer s = Some p ->
                (Audio.buffer (Audio.set_base (set_skip x (Audio.base s)) s) = Some p
                 /\ Audio.buffer_size (Audio.set_base (set_skip x (Audio.base s)) s) w
                    = Audio.buffer_size s w
                 /\ dom (cheap w) = dom (cheap w))
                \/ (Audio.bufferSize s < Audio.av_samples_get_buffer_size_r e
                    /\ Audio.buffer_size (Audio.set_base (set_skip x (Audio.base s)) s) w
                       = Audio.av_samples_get_buffer_size_r e))).
  { split; [exact Hwf|]. split; [reflexivity|]. intros p Hp. left. auto. }
  destruct err; [exact Hsame|].
  destruct (ok && _); [exact Hsame|].
  destruct (negb ok); [exact Hsame|].
  destruct (Z.ltb_spec (Audio.av_samples_get_buffer_size_r e) 0) as [|Hnn]; [exact Hsame|].
  clear Hsame.
  set (mx := Audio.av_samples_get_buffer_size_r e) in *.
  pose proof (buffer_size_wf s w Hwf) as Hsz.
  cbn [Audio.bufferSize Audio.buffer Audio.set_base].
  destruct (Z.ltb_spec (Audio.bufferSize s) mx) as [Hlt|Hge];
    [|destruct (Audio.buffer s) as [p|] eqn:Hb].
  - (* the buffer is too small: released, and a block of [mx] bytes allocated *)
    cbn [Audio.buffer Audio.set_buffer Audio.set_bufferSize]. rewrite Hok.
    unfold c_alloc. cbn [Audio.buffer Audio.set_buffer Audio.set_bufferSize].
    set (w0 := c_free (Audio.buffer s) w).
    set (q := fresh (dom (cheap w0))).
    set (w1 := set_cheap _ w0).
    assert (Hc : c_bytes w1 q = Some (replicate (Z.to_nat mx) x00)).
    { unfold c_bytes, w1. simpl. rewrite lookup_insert_eq. reflexivity. }
    destruct (c_write_length q (Audio.swr_convert_out e) w1 _ Hc) as (bs' & Hc' & Hl').
    rewrite length_replicate in Hl'.
    set (s2 := Audio.set_bufferSize mx _).
    assert (Hfacts : forall w', c_bytes w' q = Some bs' ->
              Audio.buffer_wf s2 w' /\ Audio.buffer_size s2 w' = mx).
    { intros w' Hw'. split.
      - intros r Hr. injection Hr as <-. exists bs'. split; [exact Hw'|]. simpl. lia.
      - rewrite (buffer_size_of_block s2 w' q bs' eq_refl Hw'). lia. }
    destruct (Audio.swr_convert_r e <? 0); [|unfold GoBytes, go_alloc];
      (match goal with
       | |- Audio.buffer_wf _ ?w' /\ _ => destruct (Hfacts w' Hc') as [Hf1 Hf2]
       end;
       split; [exact Hf1|]; rewrite Hf2; split;
       [destruct (Audio.buffer s); lia | intros p1 Hp1; right; split; [exact Hlt|reflexivity]]).
  - (* the buffer is large enough: kept *)
    destruct (Hwf p Hb) as (bs & Hc & Hlen).
    destruct (c_write_length p (Audio.swr_convert_out e) w bs Hc) as (bs' & Hc' & Hl').
    pose proof (c_write_dom p (Audio.swr_convert_out e) w) as Hdom.
    do 2 (cbn [Audio.buffer Audio.set_base]; rewrite ?Hb).
    set (s2 := Audio.set_base _ s).
    assert (Hfacts : forall w', c_bytes w' p = Some bs' ->
              Audio.buffer_wf s2 w' /\ Audio.buffer_size s2 w' = Audio.bufferSize s).
    { intros w' Hw'. split.
      - intros r Hr. simpl in Hr. rewrite Hb in Hr. injection Hr as <-.
        exists bs'. split; [exact Hw'|]. simpl. lia.
      - rewrite (buffer_size_of_block s2 w' p bs' Hb Hw'). lia. }
    destruct (Audio.swr_convert_r e <? 0); [|unfold GoBytes, go_alloc];
      (match goal with
       | |- Audio.buffer_wf _ ?w' /\ _ => destruct (Hfacts w' Hc') as [Hf1 Hf2]
       end;
       split; [exact Hf1|]; rewrite Hf2; split;
       [lia | intros p1 Hp1; left; split;
              [unfold s2; simpl; congruence|split; [lia|exact Hdom]]]).
  - (* there is no buffer yet: a block of [mx] bytes allocated *)
    do 2 (cbn [Audio.buffer Audio.set_base Audio.set_buffer Audio.set_bufferSize];
          rewrite ?Hb).
    rewrite Hok.
    unfold c_alloc. cbn [Audio.buffer Audio.set_buffer Audio.set_bufferSize].
    set (q := fresh (dom (cheap w))).
    set (w1 := set_cheap _ w).
    assert (Hc : c_bytes w1 q = Some (replicate (Z.to_nat mx) x00)).
    { unfold c_bytes, w1. simpl. rewrite lookup_insert_eq. reflexivity. }
    destruct (c_write_length q (Audio.swr_convert_out e) w1 _ Hc) as (bs' & Hc' & Hl').
    rewrite length_replicate in Hl'.
    set (s2 := Audio.set_bufferSize mx _).
    assert (Hfacts : forall w', c_bytes w' q = Some bs' ->
              Audio.buffer_wf s2 w' /\ Audio.buffer_size s2 w' = mx).
    { intros w' Hw'. split.
      - intros r Hr. injection Hr as <-. exists bs'. split; [exact Hw'|]. simpl. lia.
      - rewrite (buffer_size_of_block s2 w' q bs' eq_refl Hw'). lia. }
    destruct (Audio.swr_convert_r e <? 0); [|unfold GoBytes, go_alloc];
      (match goal with
       | |- Audio.buffer_wf _ ?w' /\ _ => destruct (Hfacts w' Hc') as [Hf1 Hf2]
       end;
       split; [exact Hf1|]; rewrite Hf2; split;
       [lia | intros p1 Hp1; discriminate]).
Qed.

Lemma sizes_sorted (es : list Audio.read_env) (m : Media) (s : Audio.AudioStream) (w : Mem) :
  Audio.buffer_wf s w ->
  Forall (fun e => Audio.av_malloc_ok e = true) es ->
  Sorted Z.le (Audio.buffer_size s w :: Audio.sizes es m s w).
Proof.
  revert s w. induction es as [|e es IH]; intros s w Hwf Hall.
  - repeat constructor.
  - inversion Hall as [|? ? Hok Hrest]; subst.
    pose proof (ReadAudioFrame_step e m s w Hwf Hok) as Hstep.
    cbn [Audio.sizes].
    destruct (Audio.ReadAudioFrame e m s w) as [[s' w'] r].
    destruct Hstep as (Hwf' & Hle & _).
    constructor; [apply IH; assumption|]. constructor. exact Hle.
Qed.

Lemma Open_buffer_nil (eo : Audio.open_env) (s0 s : Audio.AudioStream) (w0 w : Mem) :
  Audio.Open eo s0 w0 = (s, w, None) -> Audio.buffer s = None.
Proof.
  unfold Audio.Open.
  destruct (open (Audio.base_open eo) (Audio.base s0) w0) as [[b w1] [er|]];
    [discriminate|].
  destruct (Audio.swr_alloc_set_opts2 _ _ w1) as [s1 w2].
  destruct (Audio.swrCtx s1); [|discriminate].
  destruct (Audio.swr_init_r eo <? 0); [discriminate|].
  intros H. injection H as <- _. reflexivity.
Qed.

(** C5, as amended.  Within one open session, over any run of
    ReadAudioFrame calls in which no allocation of the buffer fails, the
    size of the block behind the reusable output buffer never decreases
    from one call to the next.  In each such call a buffer that exists
    is either kept, with its size, and nothing is released, or the
    required size exceeds the size on record and the buffer afterwards has
    exactly the required size. *)
Theorem AudioStream_buffer_size_nondecreasing
    (eo : Audio.open_env) (es : list Audio.read_env) (m : Media)
    (s0 s : Audio.AudioStream) (w0 w : Mem) :
  Audio.Open eo s0 w0 = (s, w, None) ->
  Forall (fun e => Audio.av_malloc_ok e = true) es ->
  StronglySorted Z.le (Audio.sizes es m s w)
  /\ (forall e s1 w1,
        Audio.buffer_wf s1 w1 ->
        Audio.av_malloc_ok e = true ->
        let '(s', w', _) := Audio.ReadAudioFrame e m s1 w1 in
        Audio.buffer_wf s' w'
        /\ Audio.buffer_size s1 w1 <= Audio.buffer_size s' w'
        /\ (forall p, Audio.buffer s1 = Some p ->
              (Audio.buffer s' = Some p
               /\ Audio.buffer_size s' w' = Audio.buffer_size s1 w1
               /\ dom (cheap w') = dom (cheap w1))
              \/ (Audio.bufferSize s1 < Audio.av_samples_get_buffer_size_r e
                  /\ Audio.buffer_size s' w' = Audio.av_samples_get_buffer_size_r e))).
Proof.
  intros Hopen Hall. split.
  - assert (Hwf : Audio.buffer_wf s w).
    { intros p Hp. rewrite (Open_buffer_nil _ _ _ _ _ Hopen) in Hp. discriminate. }
    pose proof (sizes_sorted es m s w Hwf Hall) as Hs.
    apply Sorted_StronglySorted in Hs; [|intros a b c; apply Z.le_trans].
    inversion Hs; assumption.
  - intros e s1 w1. apply ReadAudioFrame_step.
Qed.

End AudioBuffer.

Lemma AudioStream_buffer_size_nondecreasing_witness :
  StronglySorted Z.le
    (@Audio.sizes linux growing_session sample_media
       (Audio.Open (audio_open_env open_ok 0) sample_audio empty_mem).1.1
       (Audio.Open (audio_open_env open_ok 0) sample_audio empty_mem).1.2).
Proof.
  refine (proj1 (@AudioStream_buffer_size_nondecreasing linux
            (audio_open_env open_ok 0) growing_session sample_media
            sample_audio _ empty_mem _ _ _)).
  - vm_compute. reflexivity.
  - repeat constructor.
Defined.

(** C5 as stated fails when an allocation of the buffer fails.  After a
    buffer of 200 bytes, a frame that needs 400 releases it and the
    allocation fails; the next frame needs 100 bytes, which does not exceed
    the 400 on record, and a buffer of 100 bytes is allocated: the sizes
    after the three calls are 200, none and 100. *)
Lemma AudioStream_buffer_size_shrinks :
  @Audio.sizes linux shrinking_session sample_media
     (Audio.Open (audio_open_env open_ok 0) sample_audio empty_mem).1.1
     (Audio.Open (audio_open_env open_ok 0) sample_audio empty_mem).1.2
  = [200; 0; 100].
Proof.
  vm_compute. reflexivity.
Qed.

(** ** Reading packets *)

Section ReadPacket.
Context {platform : Platform}.

(** C1, as amended.  ReadPacket returns [(nil, true, nil)] when the native
    read reports try-again, and [(nil, false, nil)] for every other negative
    status of the native read, the end of the source and a failure alike.
    It returns an error only as [(nil, false, err)] and only when the native
    read succeeded and a step of the stream's bitstream filter failed. *)
Theorem ReadPacket_tri_state (e : MediaM.read_env) (m : Media) (st : MediaM.GoStore) :
  ErrorAgain < 0 ->
  (MediaM.av_read_frame_r e = ErrorAgain ->
   MediaM.ReadPacket e m st = Done (None, true, None))
  /\ (MediaM.av_read_frame_r e < 0 ->
      MediaM.av_read_frame_r e <> ErrorAgain ->
      MediaM.ReadPacket e m st = Done (None, false, None))
  /\ (forall pkt more er,
        MediaM.ReadPacket e m st = Done (pkt, more, Some er) ->
        pkt = None /\ more = false
        /\ 0 <= MediaM.av_read_frame_r e
        /\ (MediaM.av_packet_ref_r e < 0
            \/ MediaM.av_bsf_send_packet_r e < 0
            \/ MediaM.av_bsf_receive_packet_r e < 0)).
Proof.
  intros Hneg. unfold MediaM.ReadPacket. split; [|split].
  - intros ->. destruct (Z.ltb_spec ErrorAgain 0); [|lia].
    rewrite Z.eqb_refl. reflexivity.
  - intros Hlt Hne. destruct (Z.ltb_spec (MediaM.av_read_frame_r e) 0); [|lia].
    destruct (Z.eqb_spec (MediaM.av_read_frame_r e) ErrorAgain); [contradiction|].
    reflexivity.
  - intros pkt more er.
    destruct (Z.ltb_spec (MediaM.av_read_frame_r e) 0) as [|Hread];
      [destruct (_ =? _); discriminate|].
    destruct (packet m) as [pk|]; [|discriminate].
    destruct (MediaM.slice_get _ _ _) as [[p|]|]; try discriminate.
    destruct (_ !! p) as [o|]; try discriminate.
    destruct (filterCtx _); [|discriminate].
    destruct (Z.ltb_spec (MediaM.av_packet_ref_r e) 0);
      [intros Hr; injection Hr as <- <- _; auto 8|].
    destruct (Z.ltb_spec (MediaM.av_bsf_send_packet_r e) 0);
      [intros Hr; injection Hr as <- <- _; auto 8|].
    destruct (Z.ltb_spec (MediaM.av_bsf_receive_packet_r e) 0);
      [intros Hr; injection Hr as <- <- _; auto 8|].
    destruct (filterOutPacket _); discriminate.
Qed.

End ReadPacket.

Lemma ReadPacket_tri_state_witness :
  @MediaM.ReadPacket linux (packet_env (-11)) sample_media empty_store
  = Done (None, true, None).
Proof.
  refine (proj1 (@ReadPacket_tri_state linux (packet_env (-11)) sample_media
            empty_store _) _).
  - unfold ErrorAgain, linux. lia.
  - reflexivity.
Defined.

(** C1 as stated fails in its third part: a native read that fails with
    [AVERROR(EIO)] is reported as the end of the source, without an error. *)
Lemma ReadPacket_failure_is_end_of_stream :
  @MediaM.ReadPacket linux (packet_env (-5)) sample_media empty_store
  = Done (None, false, None).
Proof.
  reflexivity.
Qed.

(** ** The list of streams *)

Lemma elems_valid (st : MediaM.GoStore) (sl : slice) (xs : list (option positive)) :
  MediaM.arrays st !! arr sl = Some xs ->
  MediaM.elems st (Some sl) = take (len sl) xs.
Proof.
  intros H. unfold MediaM.elems. rewrite H. reflexivity.
Qed.

Lemma elems_length (st : MediaM.GoStore) (s : option slice) :
  MediaM.slice_valid st s -> length (MediaM.elems st s) = MediaM.slice_len s.
Proof.
  destruct s as [sl|]; [|reflexivity].
  intros (xs & Hxs & Hlen). rewrite (elems_valid _ _ _ Hxs).
  rewrite length_take. simpl. lia.
Qed.

(** Elements of a slice depend on its own backing array only. *)
Lemma elems_agree (st st' : MediaM.GoStore) (s : option slice) :
  (forall sl, s = Some sl ->
     MediaM.arrays st' !! arr sl = MediaM.arrays st !! arr sl) ->
  MediaM.elems st' s = MediaM.elems st s.
Proof.
  destruct s as [sl|]; [|reflexivity].
  intros H. unfold MediaM.elems. rewrite (H sl eq_refl). reflexivity.
Qed.

Lemma Streams_spec (m : Media) (st : MediaM.GoStore) :
  MediaM.slice_valid st (streams m) ->
  let '(s1, st1) := MediaM.Streams m st in
  (arr s1 ∉ dom (MediaM.arrays st))
  /\ len s1 = MediaM.slice_len (streams m)
  /\ MediaM.arrays st1 = <[arr s1 := MediaM.elems st (streams m)]> (MediaM.arrays st)
  /\ MediaM.objects st1 = MediaM.objects st.
Proof.
  intros Hv. unfold MediaM.Streams, MediaM.make, MediaM.copy.
  set (a := fresh (dom (MediaM.arrays st))).
  assert (Ha : a ∉ dom (MediaM.arrays st)) by apply is_fresh.
  cbn [arr len MediaM.arrays MediaM.set_arrays MediaM.objects].
  split; [exact Ha|]. split; [reflexivity|]. split; [|reflexivity].
  set (st0 := MediaM.set_arrays _ st).
  assert (He : MediaM.elems st0 (streams m) = MediaM.elems st (streams m)).
  { apply elems_agree. intros sl Hsl. unfold st0. simpl.
    apply lookup_insert_ne. intros ->.
    rewrite Hsl in Hv. destruct Hv as (xs & Hxs & _).
    apply Ha, elem_of_dom. eauto. }
  rewrite He. pose proof (elems_length st (streams m) Hv) as Hl.
  rewrite Hl, Nat.min_id.
  unfold st0. cbn [MediaM.arrays MediaM.set_arrays]. rewrite alter_insert_eq.
  f_equal.
  rewrite drop_ge by (rewrite length_replicate; lia).
  rewrite app_nil_r. apply take_ge. lia.
Qed.

(** C10.  On a media whose list of streams is a live slice, Streams
    returns a slice over a fresh backing array that holds the same stream
    pointers in the same order; the media's own list reads the same before
    and after, also after any element of the returned slice is assigned; and
    a second call returns a slice with equal contents over another fresh
    array. *)
Theorem Streams_returns_fresh_copy (m : Media) (st : MediaM.GoStore) :
  MediaM.slice_valid st (streams m) ->
  let '(s1, st1) := MediaM.Streams m st in
  let '(s2, st2) := MediaM.Streams m st1 in
  (arr s1 ∉ dom (MediaM.arrays st))
  /\ (forall sl, streams m = Some sl -> arr s1 <> arr sl)
  /\ MediaM.elems st1 (Some s1) = MediaM.elems st (streams m)
  /\ MediaM.elems st1 (streams m) = MediaM.elems st (streams m)
  /\ (forall i x st', MediaM.slice_set s1 i x st1 = Done st' ->
        MediaM.elems st' (streams m) = MediaM.elems st (streams m)
        /\ MediaM.elems st' (Some s1) = <[i := x]> (MediaM.elems st (streams m)))
  /\ arr s2 <> arr s1
  /\ MediaM.elems st2 (Some s2) = MediaM.elems st2 (Some s1)
  /\ MediaM.elems st2 (Some s2) = MediaM.elems st (streams m)
  /\ (forall i x st', MediaM.slice_set s2 i x st2 = Done st' ->
        MediaM.elems st' (Some s1) = MediaM.elems st (streams m)
        /\ MediaM.elems st' (streams m) = MediaM.elems st (streams m)).
Proof.
  intros Hv.
  pose proof (Streams_spec m st Hv) as H1.
  destruct (MediaM.Streams m st) as [s1 st1].
  destruct H1 as (Hf1 & Hl1 & Ha1 & _).
  assert (Hne1 : forall sl, streams m = Some sl -> arr s1 <> arr sl).
  { intros sl Hsl Heq. rewrite Hsl in Hv. destruct Hv as (xs & Hxs & _).
    apply Hf1, elem_of_dom. rewrite Heq. eauto. }
  assert (Hm1 : MediaM.elems st1 (streams m) = MediaM.elems st (streams m)).
  { apply elems_agree. intros sl Hsl. rewrite Ha1.
    apply lookup_insert_ne. auto. }
  pose proof (elems_length st (streams m) Hv) as Hlen.
  assert (Hs1 : MediaM.elems st1 (Some s1) = MediaM.elems st (streams m)).
  { unfold MediaM.elems at 1. rewrite Ha1, lookup_insert_eq. simpl.
    apply take_ge. lia. }
  assert (Hv1 : MediaM.slice_valid st1 (streams m)).
  { destruct (streams m) as [sl|] eqn:Hsl; [|exact I].
    destruct Hv as (xs & Hxs & Hle). exists xs. split; [|exact Hle].
    rewrite Ha1. rewrite lookup_insert_ne by auto. exact Hxs. }
  pose proof (Streams_spec m st1 Hv1) as H2.
  destruct (MediaM.Streams m st1) as [s2 st2].
  destruct H2 as (Hf2 & Hl2 & Ha2 & _).
  assert (Hne21 : arr s2 <> arr s1).
  { intros Heq. apply Hf2. rewrite Heq, Ha1. set_solver. }
  assert (Hne2 : forall sl, streams m = Some sl -> arr s2 <> arr sl).
  { intros sl Hsl Heq. rewrite Hsl in Hv1. destruct Hv1 as (xs & Hxs & _).
    apply Hf2, elem_of_dom. rewrite Heq. eauto. }
  assert (Hs2 : MediaM.elems st2 (Some s2) = MediaM.elems st (streams m)).
  { unfold MediaM.elems at 1. rewrite Ha2, lookup_insert_eq. simpl.
    rewrite Hm1. apply take_ge. lia. }
  assert (Hs12 : MediaM.elems st2 (Some s1) = MediaM.elems st (streams m)).
  { rewrite <- Hs1. apply elems_agree. intros sl Hsl. injection Hsl as <-.
    rewrite Ha2. apply lookup_insert_ne. exact Hne21. }
  split; [exact Hf1|]. split; [exact Hne1|]. split; [exact Hs1|].
  split; [exact Hm1|]. split.
  { intros i x st' Hset. unfold MediaM.slice_set in Hset.
    destruct (i <? len s1)%nat eqn:Hi; [|discriminate]. injection Hset as <-.
    split.
    - rewrite <- Hm1. apply elems_agree. intros sl Hsl. simpl.
      apply lookup_alter_ne. auto.
    - unfold MediaM.elems. simpl. rewrite lookup_alter_eq, Ha1, lookup_insert_eq.
      simpl. rewrite take_ge by (rewrite length_insert; lia). reflexivity. }
  split; [exact Hne21|]. split; [congruence|]. split; [exact Hs2|].
  intros i x st' Hset. unfold MediaM.slice_set in Hset.
  destruct (i <? len s2)%nat eqn:Hi; [|discriminate]. injection Hset as <-.
  split.
  - rewrite <- Hs12. apply elems_agree. intros sl Hsl. injection Hsl as <-. simpl.
    apply lookup_alter_ne. exact Hne21.
  - rewrite <- Hm1.
    transitivity (MediaM.elems st2 (streams m)).
    + apply elems_agree. intros sl Hsl. simpl. apply lookup_alter_ne. auto.
    + apply elems_agree. intros sl Hsl. rewrite Ha2. apply lookup_insert_ne. auto.
Qed.

Lemma found_media_valid : MediaM.slice_valid found_store (streams found_media).
Proof.
  eexists. split; [vm_compute; reflexivity|]. simpl. lia.
Qed.

Lemma Streams_returns_fresh_copy_witness :
  MediaM.elems (MediaM.Streams found_media found_store).2
    (Some (MediaM.Streams found_media found_store).1)
  = MediaM.elems found_store (streams found_media).
Proof.
  pose proof (Streams_returns_fresh_copy found_media found_store) as T.
  destruct (MediaM.Streams found_media found_store) as [s1 st1].
  destruct (MediaM.Streams found_media st1) as [s2 st2].
  apply T. eexists. split; [vm_compute; reflexivity|]. simpl. lia.
Defined.

(** ** Stream discovery *)

Lemma classify_base (dec : Z -> option AVCodec) (i : AVStream) :
  inner (base_of (MediaM.classify dec i)) = i
  /\ params (base_of (MediaM.classify dec i)) = codecpar i
  /\ codec (base_of (MediaM.classify dec i)) = dec (codec_id (codecpar i)).
Proof.
  unfold MediaM.classify.
  destruct (dec (codec_id (codecpar i))); [|auto].
  destruct (_ =? AVMEDIA_TYPE_VIDEO); [auto|].
  destruct (_ =? AVMEDIA_TYPE_AUDIO); auto.
Qed.

Lemma classify_kind (dec : Z -> option AVCodec) (i : AVStream) :
  (dec (codec_id (codecpar i)) = None -> kind_of (MediaM.classify dec i) = KUnknown)
  /\ (forall c, dec (codec_id (codecpar i)) = Some c ->
        (codec_type (codecpar i) = AVMEDIA_TYPE_VIDEO ->
         kind_of (MediaM.classify dec i) = KVideo)
        /\ (codec_type (codecpar i) = AVMEDIA_TYPE_AUDIO ->
            kind_of (MediaM.classify dec i) = KAudio)
        /\ (codec_type (codecpar i) <> AVMEDIA_TYPE_VIDEO ->
            codec_type (codecpar i) <> AVMEDIA_TYPE_AUDIO ->
            kind_of (MediaM.classify dec i) = KUnknown)).
Proof.
  unfold MediaM.classify, AVMEDIA_TYPE_VIDEO, AVMEDIA_TYPE_AUDIO. split.
  - intros ->. reflexivity.
  - intros c ->.
    destruct (Z.eqb_spec (codec_type (codecpar i)) 0) as [->|Hv].
    + repeat split; try reflexivity; intros; congruence.
    + destruct (Z.eqb_spec (codec_type (codecpar i)) 1) as [->|Ha];
        repeat split; try reflexivity; intros; congruence.
Qed.

(** The loop appends one pointer per native sub-stream, in order, each to a
    new object, and leaves the objects and arrays that were there alone. *)
Lemma find_loop_spec (dec : Z -> option AVCodec) (inners : list AVStream)
    (acc : list (option positive)) (st : MediaM.GoStore) :
  let '(ptrs, st') := MediaM.find_loop dec inners acc st in
  MediaM.arrays st' = MediaM.arrays st
  /\ (forall q, q ∈ dom (MediaM.objects st) ->
        MediaM.objects st' !! q = MediaM.objects st !! q)
  /\ exists ps,
       ptrs = acc ++ (Some <$> ps)
       /\ length ps = length inners
       /\ forall i innerStream, inners !! i = Some innerStream ->
            exists p, ps !! i = Some p
                      /\ (p ∉ dom (MediaM.objects st))
                      /\ MediaM.objects st' !! p = Some (MediaM.classify dec innerStream).
Proof.
  revert acc st. induction inners as [|x rest IH]; intros acc st.
  - simpl. split; [reflexivity|]. split; [reflexivity|].
    exists []. simpl. rewrite app_nil_r. split; [reflexivity|]. split; [reflexivity|].
    intros i y Hy. rewrite lookup_nil in Hy. discriminate.
  - cbn [MediaM.find_loop]. unfold MediaM.new_object.
    set (p := fresh (dom (MediaM.objects st))).
    assert (Hp : p ∉ dom (MediaM.objects st)) by apply is_fresh.
    set (st1 := MediaM.set_objects _ st).
    specialize (IH (acc ++ [Some p]) st1).
    destruct (MediaM.find_loop dec rest (acc ++ [Some p]) st1) as [ptrs st'].
    destruct IH as (Harr & Hold & ps & Hptrs & Hlen & Hall).
    split; [exact Harr|]. split.
    { intros q Hq. rewrite Hold.
      - unfold st1. simpl. apply lookup_insert_ne. intros ->. contradiction.
      - unfold st1. simpl. rewrite dom_insert_L. set_solver. }
    exists (p :: ps). split; [|split].
    + rewrite Hptrs, <- app_assoc. reflexivity.
    + simpl. lia.
    + intros [|i] y Hy; simpl in Hy.
      * injection Hy as <-. exists p. split; [reflexivity|]. split; [exact Hp|].
        rewrite Hold.
        -- unfold st1. simpl. apply lookup_insert_eq.
        -- unfold st1. simpl. rewrite dom_insert_L. set_solver.
      * destruct (Hall i y Hy) as (q & Hq & Hfresh & Hobj).
        exists q. split; [exact Hq|]. split; [|exact Hobj].
        intros Hin. apply Hfresh. unfold st1. simpl. rewrite dom_insert_L. set_solver.
Qed.

(** C8.  When stream discovery succeeds, the media's list of streams has one
    entry per native sub-stream, entry [i] pointing to a stream object made
    for native sub-stream [i]: an UnknownStream when no decoder exists for
    its codec id; otherwise, with that decoder, a VideoStream or an
    AudioStream according to the codec type, and an UnknownStream for any
    other codec type. *)
Theorem findStreams_classifies (e : MediaM.find_env) (m m' : Media)
    (st st' : MediaM.GoStore) :
  MediaM.findStreams e m st = (m', st', None) ->
  length (MediaM.elems st' (streams m')) = length (MediaM.ctx_streams e)
  /\ forall i innerStream,
       MediaM.ctx_streams e !! i = Some innerStream ->
       exists p obj,
         MediaM.elems st' (streams m') !! i = Some (Some p)
         /\ MediaM.objects st' !! p = Some obj
         /\ inner (base_of obj) = innerStream
         /\ params (base_of obj) = codecpar innerStream
         /\ codec (base_of obj)
            = MediaM.avcodec_find_decoder e (codec_id (codecpar innerStream))
         /\ (MediaM.avcodec_find_decoder e (codec_id (codecpar innerStream)) = None ->
             kind_of obj = KUnknown)
         /\ (forall c,
               MediaM.avcodec_find_decoder e (codec_id (codecpar innerStream)) = Some c ->
               (codec_type (codecpar innerStream) = AVMEDIA_TYPE_VIDEO ->
                kind_of obj = KVideo)
               /\ (codec_type (codecpar innerStream) = AVMEDIA_TYPE_AUDIO ->
                   kind_of obj = KAudio)
               /\ (codec_type (codecpar innerStream) <> AVMEDIA_TYPE_VIDEO ->
                   codec_type (codecpar innerStream) <> AVMEDIA_TYPE_AUDIO ->
                   kind_of obj = KUnknown)).
Proof.
  unfold MediaM.findStreams.
  destruct (MediaM.avformat_find_stream_info_r e <? 0); [discriminate|].
  pose proof (find_loop_spec (MediaM.avcodec_find_decoder e) (MediaM.ctx_streams e) [] st)
    as Hloop.
  destruct (MediaM.find_loop _ _ [] st) as [ptrs st1].
  destruct Hloop as (_ & _ & ps & Hptrs & Hlen & Hall). simpl in Hptrs.
  intros H. injection H as <- <-.
  assert (Hel : MediaM.elems
                  (MediaM.set_arrays
                     (<[fresh (dom (MediaM.arrays st1)) := ptrs]> (MediaM.arrays st1)) st1)
                  (streams (set_streams
                     (Some {| arr := fresh (dom (MediaM.arrays st1));
                              len := length ptrs |}) m))
                = ptrs).
  { unfold MediaM.elems. simpl. rewrite lookup_insert_eq. simpl. apply take_ge. lia. }
  rewrite Hel. split.
  - rewrite Hptrs, length_fmap. exact Hlen.
  - intros i y Hy. destruct (Hall i y Hy) as (p & Hp & _ & Hobj).
    exists p, (MediaM.classify (MediaM.avcodec_find_decoder e) y).
    split; [rewrite Hptrs, list_lookup_fmap, Hp; reflexivity|].
    split; [exact Hobj|].
    destruct (classify_base (MediaM.avcodec_find_decoder e) y) as (Hi & Hpar & Hc).
    destruct (classify_kind (MediaM.avcodec_find_decoder e) y) as (Hk1 & Hk2).
    auto 10.
Qed.

Lemma findStreams_classifies_witness :
  length (MediaM.elems found_store (streams found_media)) = 2%nat.
Proof.
  refine (proj1 (findStreams_classifies (find_env_ok two_streams) sample_media
            found_media empty_store found_store _)).
  vm_compute. reflexivity.
Defined.

(** ** Frames own their bytes *)

Lemma go_extends_refl (w : Mem) : go_extends w w.
Proof. intros q _. reflexivity. Qed.

Lemma go_extends_dom (w w' : Mem) (q : positive) :
  go_extends w w' -> q ∈ dom (goheap w) -> q ∈ dom (goheap w').
Proof.
  intros H Hq. apply elem_of_dom. rewrite (H q Hq). apply elem_of_dom. exact Hq.
Qed.

Lemma go_extends_trans (w1 w2 w3 : Mem) :
  go_extends w1 w2 -> go_extends w2 w3 -> go_extends w1 w3.
Proof.
  intros H12 H23 q Hq. rewrite (H23 q (go_extends_dom _ _ _ H12 Hq)). apply H12, Hq.
Qed.

(** Native allocation, release and writes do not touch Go memory. *)
Lemma c_write_goheap (p : positive) (out : list byte) (w : Mem) :
  goheap (c_write p out w) = goheap w.
Proof. unfold c_write. destruct (c_bytes w p); reflexivity. Qed.

Lemma c_free_goheap (p : option positive) (w : Mem) : goheap (c_free p w) = goheap w.
Proof. destruct p; reflexivity. Qed.

Lemma c_alloc_goheap (ok : bool) (o : CObj) (w : Mem) :
  goheap (c_alloc ok o w).2 = goheap w.
Proof. unfold c_alloc. destruct ok; reflexivity. Qed.

Lemma go_alloc_spec (bs : list byte) (w : Mem) :
  ((go_alloc bs w).1 ∉ dom (goheap w))
  /\ goheap (go_alloc bs w).2 = <[(go_alloc bs w).1 := bs]> (goheap w)
  /\ go_extends w (go_alloc bs w).2.
Proof.
  unfold go_alloc. simpl. split; [apply is_fresh|]. split; [reflexivity|].
  intros q Hq. simpl. apply lookup_insert_ne. intros <-. revert Hq. apply is_fresh.
Qed.

(** A new video frame holds a new array with the pixels copied in. *)
Lemma pixelBufferLength_Done (dx dy n : Z) :
  0 <= dx -> 0 <= dy ->
  pixelBufferLength 4 dx dy = Done n ->
  n = 4 * dx * dy /\ 4 * dx * dy <= int64_max.
Proof.
  intros Hx Hy. unfold pixelBufferLength, mul3NonNeg, int64_max.
  destruct (Z.ltb_spec 4 0); [lia|].
  destruct (Z.ltb_spec dx 0); [lia|].
  destruct (Z.ltb_spec dy 0); [lia|]. cbn [orb].
  destruct (Z.leb_spec (2 ^ 64) (4 * dx)); [discriminate|].
  destruct (Z.leb_spec (2 ^ 64) (4 * dx * dy)); [discriminate|].
  destruct (Z.leb_spec (2 ^ 63) (4 * dx * dy)); [discriminate|].
  destruct (Z.ltb_spec (4 * dx * dy) 0); [discriminate|].
  intros Hdone. injection Hdone as <-. lia.
Qed.


(** A frame that [newVideoFrame] returns is the one built over a new
    array of [4 * |width| * |height|] bytes, a number that fits an int. *)
Lemma newVideoFrame_Done (st : baseStream) (p ic id wd ht : Z) (pix : positive)
    (w w' : Mem) (f : VideoFrame) :
  newVideoFrame st p ic id wd ht pix w = Done (f, w') ->
  4 * Z.abs wd * Z.abs ht <= int64_max
  /\ (f, w')
     = (let '(q, w1) :=
          go_alloc (replicate (Z.to_nat (4 * Z.abs wd * Z.abs ht)) x00) w in
        ({| vbase := {| stream := st; pts := p; indexCoded := ic; indexDisplay := id |};
            img := {| Pix := q; Dx := Z.abs wd; Dy := Z.abs ht |} |},
         go_copy q (go_bytes w1 pix) w1)).
Proof.
  unfold newVideoFrame.
  destruct (pixelBufferLength 4 (Z.abs wd) (Z.abs ht)) as [n|] eqn:En; [|discriminate].
  apply pixelBufferLength_Done in En; [|lia|lia]. destruct En as [-> Hfit].
  destruct (go_alloc _ w) as [q w1]. intros H. injection H as <- <-.
  split; [exact Hfit|reflexivity].
Qed.

Lemma newVideoFrame_spec (st : baseStream) (p ic id wd ht : Z) (pix : positive)
    (w w' : Mem) (f : VideoFrame) :
  newVideoFrame st p ic id wd ht pix w = Done (f, w') ->
  (VideoFrameM.Data f ∉ dom (goheap w))
  /\ (VideoFrameM.Data f ∈ dom (goheap w'))
  /\ go_extends w w'.
Proof.
  intros Hn. apply newVideoFrame_Done in Hn. destruct Hn as [_ Hn].
  pose proof (go_alloc_spec (replicate (Z.to_nat (4 * Z.abs wd * Z.abs ht)) x00) w)
    as (Hf & Hh & He).
  destruct (go_alloc _ w) as [q w1]. injection Hn as -> ->. simpl in *.
  split; [exact Hf|]. split.
  - apply elem_of_dom. rewrite lookup_alter_eq, Hh, lookup_insert_eq. eauto.
  - intros r Hr. simpl. rewrite lookup_alter_ne by (intros <-; contradiction).
    apply He, Hr.
Qed.

Lemma newVideoFrame_bytes (st : baseStream) (p ic id wd ht : Z) (pix : positive)
    (w w' : Mem) (f : VideoFrame) :
  pix ∈ dom (goheap w) ->
  newVideoFrame st p ic id wd ht pix w = Done (f, w') ->
  cheap w' = cheap w
  /\ go_bytes w' (VideoFrameM.Data f)
     = take (Z.to_nat (4 * Z.abs wd * Z.abs ht)) (go_bytes w pix)
       ++ replicate (Z.to_nat (4 * Z.abs wd * Z.abs ht) - length (go_bytes w pix)) x00.
Proof.
  intros Hpix Hn. apply newVideoFrame_Done in Hn. destruct Hn as [_ Hn].
  pose proof (go_alloc_spec (replicate (Z.to_nat (4 * Z.abs wd * Z.abs ht)) x00) w)
    as (Hf & Hh & He).
  destruct (go_alloc _ w) as [q w1] eqn:Ea. injection Hn as -> ->.
  simpl in Hf, Hh, He.
  assert (Hc : cheap w1 = cheap w).
  { unfold go_alloc in Ea. injection Ea as _ <-. reflexivity. }
  assert (Hsrc : go_bytes w1 pix = go_bytes w pix).
  { unfold go_bytes. rewrite (He pix Hpix). reflexivity. }
  split; [exact Hc|].
  unfold go_bytes at 1. simpl. rewrite lookup_alter_eq, Hh, lookup_insert_eq. simpl.
  rewrite Hsrc, length_replicate.
  set (n := Z.to_nat (4 * Z.abs wd * Z.abs ht)).
  set (src := go_bytes w pix).
  rewrite drop_replicate. f_equal.
  - destruct (Nat.le_ge_cases n (length src)) as [Hle|Hge].
    + rewrite Nat.min_l by exact Hle. reflexivity.
    + rewrite Nat.min_r by exact Hge. rewrite !take_ge by lia. reflexivity.
  - f_equal. lia.
Qed.

Section FramesOwnBytes.
Context {platform : Platform}.

Lemma ReadVideoFrame_go_extends (e : Video.read_env) (m : Media)
    (s s' : Video.VideoStream) (w w' : Mem) r :
  Video.ReadVideoFrame e m s w = Done (s', w', r) ->
  go_extends w w'
  /\ forall f, r.1.1 = Some f ->
       (VideoFrameM.Data f ∉ dom (goheap w)) /\ (VideoFrameM.Data f ∈ dom (goheap w')).
Proof.
  unfold Video.ReadVideoFrame.
  destruct (read (Video.rd e) m (Video.base s)) as [[b ok] err].
  destruct err.
  { intros H. injection H as <- <- <-. split; [apply go_extends_refl|discriminate]. }
  destruct (ok && _).
  { intros H. injection H as <- <- <-. split; [apply go_extends_refl|discriminate]. }
  destruct (negb ok).
  { intros H. injection H as <- <- <-. split; [apply go_extends_refl|discriminate]. }
  destruct (Video.rgba_data0 _ w) as [buf|]; [|discriminate].
  set (w1 := c_write buf (Video.sws_scale_out e) w).
  unfold GoBytes.
  pose proof (go_alloc_spec
                (take (Z.to_nat (Video.bufSize (Video.set_base b s)))
                   (default [] (c_bytes w1 buf))) w1) as (Hf1 & _ & He1).
  destruct (go_alloc _ w1) as [data w2]. simpl in Hf1, He1.
  destruct (newVideoFrame _ _ _ _ _ _ data w2) as [[fr w3]|] eqn:En; [|discriminate].
  destruct (newVideoFrame_spec _ _ _ _ _ _ _ _ _ _ En) as (Hf2 & Hin & He2).
  intros H. injection H as <- <- <-.
  assert (He0 : go_extends w w1).
  { intros q _. unfold w1. rewrite c_write_goheap. reflexivity. }
  split.
  - eapply go_extends_trans; [exact He0|]. eapply go_extends_trans; eassumption.
  - intros f Hfeq. simpl in Hfeq. injection Hfeq as <-. split; [|exact Hin].
    intros Hd. apply Hf2. eapply go_extends_dom; [exact He1|].
    eapply go_extends_dom; [exact He0|exact Hd].
Qed.

Lemma ReadAudioFrame_go_extends (e : Audio.read_env) (m : Media)
    (s s' : Audio.AudioStream) (w w' : Mem) r :
  Audio.ReadAudioFrame e m s w = (s', w', r) ->
  go_extends w w'
  /\ forall f, r.1.1 = Some f ->
       (AudioFrameM.Data f ∉ dom (goheap w)) /\ (AudioFrameM.Data f ∈ dom (goheap w')).
Proof.
  unfold Audio.ReadAudioFrame.
  destruct (read (Audio.rd e) m (Audio.base s)) as [[b ok] err].
  destruct err.
  { intros H. injection H as <- <- <-. split; [apply go_extends_refl|discriminate]. }
  destruct (ok && _).
  { intros H. injection H as <- <- <-. split; [apply go_extends_refl|discriminate]. }
  destruct (negb ok).
  { intros H. injection H as <- <- <-. split; [apply go_extends_refl|discriminate]. }
  destruct (_ <? 0).
  { intros H. injection H as <- <- <-. split; [apply go_extends_refl|discriminate]. }
  destruct (if _ <? _ then _ else _) as [s0 w0] eqn:E0.
  assert (H0 : goheap w0 = goheap w).
  { destruct (_ <? _) in E0; injection E0 as <- <-;
      [apply c_free_goheap|reflexivity]. }
  clear E0.
  destruct (match Audio.buffer s0 with Some _ => _ | None => _ end)
    as [[s1 w1] failed] eqn:E1.
  assert (H1 : goheap w1 = goheap w).
  { rewrite <- H0. destruct (Audio.buffer s0).
    - injection E1 as <- <- <-. reflexivity.
    - pose proof (c_alloc_goheap (Audio.av_malloc_ok e)
                    (CBuffer (replicate
                       (Z.to_nat (Audio.av_samples_get_buffer_size_r e)) x00)) w0) as Ha.
      destruct (c_alloc _ _ w0) as [p wa]. simpl in Ha.
      destruct (Audio.buffer _); injection E1 as <- <- <-; exact Ha. }
  clear E1.
  destruct failed.
  { intros H. injection H as <- <- <-. split; [|discriminate].
    intros q _. rewrite H1. reflexivity. }
  set (w2 := match Audio.buffer s1 with
             | Some p0 => c_write p0 (Audio.swr_convert_out e) w1
             | None => w1
             end).
  assert (H2 : goheap w2 = goheap w).
  { rewrite <- H1. unfold w2. destruct (Audio.buffer s1); [apply c_write_goheap|reflexivity]. }
  destruct (_ <? 0).
  { intros H. injection H as <- <- <-. split; [|discriminate].
    intros q _. rewrite H2. reflexivity. }
  unfold GoBytes.
  match goal with
  | |- context [go_alloc ?bs w2] => pose proof (go_alloc_spec bs w2) as (Hf & Hh & He)
  end.
  destruct (go_alloc _ w2) as [data w3]. simpl in Hf, Hh, He.
  intros H. injection H as <- <- <-. split.
  - intros q Hq. rewrite <- H2. apply He. rewrite H2. exact Hq.
  - intros f Hfeq. simpl in Hfeq. injection Hfeq as <-. simpl. split.
    + rewrite <- H2. exact Hf.
    + apply elem_of_dom. rewrite Hh, lookup_insert_eq. eauto.
Qed.

(** The bytes of a frame just returned are a copy of the scratch buffer as
    the call leaves it. *)
Lemma ReadVideoFrame_payload (e : Video.read_env) (m : Media)
    (s s1 : Video.VideoStream) (w w1 : Mem) (f : VideoFrame) (more : bool)
    (er : option error) :
  Video.ReadVideoFrame e m s w = Done (s1, w1, (Some f, more, er)) ->
  exists buf,
    Video.rgba_data0 s w = Some buf
    /\ go_bytes w1 (VideoFrameM.Data f)
       = take (Z.to_nat (4 * Z.abs (Video.ctx_width e) * Z.abs (Video.ctx_height e)))
           (take (Z.to_nat (Video.bufSize s)) (default [] (c_bytes w1 buf)))
         ++ replicate
              (Z.to_nat (4 * Z.abs (Video.ctx_width e) * Z.abs (Video.ctx_height e))
               - length (take (Z.to_nat (Video.bufSize s)) (default [] (c_bytes w1 buf))))
              x00.
Proof.
  unfold Video.ReadVideoFrame.
  destruct (read (Video.rd e) m (Video.base s)) as [[b ok] err].
  destruct err; [discriminate|].
  destruct (ok && _); [discriminate|].
  destruct (negb ok); [discriminate|].
  change (Video.rgba_data0 (Video.set_base b s) w) with (Video.rgba_data0 s w).
  change (Video.bufSize (Video.set_base b s)) with (Video.bufSize s).
  destruct (Video.rgba_data0 s w) as [buf|]; [|discriminate].
  set (w0 := c_write buf (Video.sws_scale_out e) w).
  unfold GoBytes.
  set (src := take (Z.to_nat (Video.bufSize s)) (default [] (c_bytes w0 buf))).
  pose proof (go_alloc_spec src w0) as (_ & Hh & _).
  destruct (go_alloc src w0) as [data w2] eqn:Ea. simpl in Hh.
  assert (Hc2 : cheap w2 = cheap w0).
  { unfold go_alloc in Ea. injection Ea as _ <-. reflexivity. }
  assert (Hd : data ∈ dom (goheap w2)).
  { apply elem_of_dom. rewrite Hh, lookup_insert_eq. eauto. }
  assert (Hb : go_bytes w2 data = src).
  { unfold go_bytes. rewrite Hh, lookup_insert_eq. reflexivity. }
  destruct (newVideoFrame _ _ _ _ _ _ data w2) as [[fr w3]|] eqn:En; [|discriminate].
  destruct (newVideoFrame_bytes _ _ _ _ _ _ _ _ _ _ Hd En) as (Hc3 & Hbytes).
  intros H. injection H as <- <- <- <- <-.
  exists buf. split; [reflexivity|].
  rewrite Hbytes, Hb.
  assert (Hs : c_bytes w3 buf = c_bytes w0 buf).
  { unfold c_bytes. rewrite Hc3, Hc2. reflexivity. }
  rewrite Hs. reflexivity.
Qed.

Lemma ReadAudioFrame_payload (e : Audio.read_env) (m : Media)
    (s s1 : Audio.AudioStream) (w w1 : Mem) (f : AudioFrame) (more : bool)
    (er : option error) :
  Audio.ReadAudioFrame e m s w = (s1, w1, (Some f, more, er)) ->
  exists buf,
    Audio.buffer s1 = Some buf
    /\ go_bytes w1 (AudioFrameM.Data f)
       = take (Z.to_nat (Audio.av_samples_get_buffer_size_r e))
           (default [] (c_bytes w1 buf)).
Proof.
  unfold Audio.ReadAudioFrame.
  destruct (read (Audio.rd e) m (Audio.base s)) as [[b ok] err].
  destruct err; [discriminate|].
  destruct (ok && _); [discriminate|].
  destruct (negb ok); [discriminate|].
  destruct (_ <? 0); [discriminate|].
  destruct (if _ <? _ then _ else _) as [s0 w0].
  destruct (match Audio.buffer s0 with Some _ => _ | None => _ end)
    as [[s2 w2] failed] eqn:E1.
  assert (Hbuf : failed = false -> is_Some (Audio.buffer s2)).
  { destruct (Audio.buffer s0) eqn:Hb0.
    - injection E1 as <- <- <-. intros _. rewrite Hb0. eauto.
    - destruct (c_alloc _ _ w0) as [p wa].
      cbn [Audio.buffer Audio.set_buffer Audio.set_bufferSize] in E1.
      destruct p; injection E1 as <- <- <-; [intros _; simpl; eauto|discriminate]. }
  clear E1.
  destruct failed; [discriminate|].
  destruct (Hbuf eq_refl) as [buf Hb]. rewrite Hb.
  destruct (_ <? 0); [discriminate|].
  unfold GoBytes.
  set (w3 := c_write buf (Audio.swr_convert_out e) w2).
  set (src := take _ (default [] (c_bytes w3 buf))).
  pose proof (go_alloc_spec src w3) as (_ & Hh & _).
  destruct (go_alloc src w3) as [data w4] eqn:Ea. simpl in Hh.
  assert (Hc4 : cheap w4 = cheap w3).
  { unfold go_alloc in Ea. injection Ea as _ <-. reflexivity. }
  intros H. injection H as <- <- <- <- <-.
  exists buf. split; [exact Hb|].
  unfold go_bytes. simpl. rewrite Hh, lookup_insert_eq. simpl.
  unfold src, c_bytes. rewrite Hc4. reflexivity.
Qed.

Lemma video_reads_go_extends (es : list Video.read_env) (m : Media)
    (s s' : Video.VideoStream) (w w' : Mem) :
  Video.reads es m s w = Done (s', w') -> go_extends w w'.
Proof.
  revert s w. induction es as [|e es IH]; intros s w; simpl.
  - intros H. injection H as <- <-. apply go_extends_refl.
  - destruct (Video.ReadVideoFrame e m s w) as [[[s1 w1] r]|] eqn:E; [|discriminate].
    intros H. eapply go_extends_trans; [|eapply IH, H].
    apply (ReadVideoFrame_go_extends _ _ _ _ _ _ _ E).
Qed.

Lemma audio_reads_go_extends (es : list Audio.read_env) (m : Media)
    (s : Audio.AudioStream) (w : Mem) :
  go_extends w (Audio.reads es m s w).2.
Proof.
  revert s w. induction es as [|e es IH]; intros s w; simpl.
  - apply go_extends_refl.
  - destruct (Audio.ReadAudioFrame e m s w) as [[s1 w1] r] eqn:E.
    eapply go_extends_trans; [|apply IH].
    apply (ReadAudioFrame_go_extends _ _ _ _ _ _ _ E).
Qed.

(** C7.  A frame returned by ReadVideoFrame or ReadAudioFrame holds its
    bytes in a Go array that did not exist before the call and is no part of
    native memory.  The bytes are a copy of the stream's scratch buffer as
    the call leaves it: for audio the first bytes of the output buffer, up
    to the required size; for video the pixels of the RGBA buffer, cut or
    padded to the size of the image.  Whatever the same stream reads
    afterwards, through any number of calls that overwrite, release and
    reallocate its scratch buffers, the bytes that [Data] returns for the
    frame stay as they were when the frame was returned. *)
Theorem Frame_data_is_owned :
  (forall (e : Video.read_env) (m : Media) (s s1 : Video.VideoStream) (w w1 : Mem)
          (f : VideoFrame) (more : bool) (er : option error),
      Video.ReadVideoFrame e m s w = Done (s1, w1, (Some f, more, er)) ->
      (VideoFrameM.Data f ∉ dom (goheap w))
      /\ (exists buf,
            Video.rgba_data0 s w = Some buf
            /\ go_bytes w1 (VideoFrameM.Data f)
               = take (Z.to_nat (4 * Z.abs (Video.ctx_width e)
                                 * Z.abs (Video.ctx_height e)))
                   (take (Z.to_nat (Video.bufSize s)) (default [] (c_bytes w1 buf)))
                 ++ replicate
                      (Z.to_nat (4 * Z.abs (Video.ctx_width e)
                                 * Z.abs (Video.ctx_height e))
                       - length (take (Z.to_nat (Video.bufSize s))
                                   (default [] (c_bytes w1 buf))))
                      x00)
      /\ forall (es : list Video.read_env) (s2 : Video.VideoStream) (w2 : Mem),
           Video.reads es m s1 w1 = Done (s2, w2) ->
           go_bytes w2 (VideoFrameM.Data f) = go_bytes w1 (VideoFrameM.Data f))
  /\ (forall (e : Audio.read_env) (m : Media) (s s1 : Audio.AudioStream) (w w1 : Mem)
             (f : AudioFrame) (more : bool) (er : option error),
         Audio.ReadAudioFrame e m s w = (s1, w1, (Some f, more, er)) ->
         (AudioFrameM.Data f ∉ dom (goheap w))
         /\ (exists buf,
               Audio.buffer s1 = Some buf
               /\ go_bytes w1 (AudioFrameM.Data f)
                  = take (Z.to_nat (Audio.av_samples_get_buffer_size_r e))
                      (default [] (c_bytes w1 buf)))
         /\ forall es : list Audio.read_env,
              go_bytes (Audio.reads es m s1 w1).2 (AudioFrameM.Data f)
              = go_bytes w1 (AudioFrameM.Data f)).
Proof.
  split.
  - intros e m s s1 w w1 f more er Hread.
    destruct (ReadVideoFrame_go_extends _ _ _ _ _ _ _ Hread) as [_ Hf].
    destruct (Hf f eq_refl) as [Hfresh Hin].
    split; [exact Hfresh|].
    split; [exact (ReadVideoFrame_payload _ _ _ _ _ _ _ _ _ Hread)|].
    intros es s2 w2 Hrun. unfold go_bytes.
    rewrite (video_reads_go_extends _ _ _ _ _ _ Hrun _ Hin). reflexivity.
  - intros e m s s1 w w1 f more er Hread.
    destruct (ReadAudioFrame_go_extends _ _ _ _ _ _ _ Hread) as [_ Hf].
    destruct (Hf f eq_refl) as [Hfresh Hin].
    split; [exact Hfresh|].
    split; [exact (ReadAudioFrame_payload _ _ _ _ _ _ _ _ _ Hread)|].
    intros es. unfold go_bytes.
    rewrite (audio_reads_go_extends es m s1 w1 _ Hin). reflexivity.
Qed.

End FramesOwnBytes.

Lemma Frame_data_is_owned_witness :
  match @Video.ReadVideoFrame linux (video_env rd_frame pixels_a) sample_media
          opened_video opened_video_mem with
  | Done (_, _, (Some f, _, _)) => VideoFrameM.Data f ∉ dom (goheap opened_video_mem)
  | _ => False
  end.
Proof.
  pose proof (proj1 (@Frame_data_is_owned linux) (video_env rd_frame pixels_a)
                sample_media opened_video) as T.
  destruct (@Video.ReadVideoFrame linux (video_env rd_frame pixels_a) sample_media
              opened_video opened_video_mem)
    as [[[s1 w1] [[[f|] more] er]]|] eqn:E.
  - exact (proj1 (T s1 opened_video_mem w1 f more er E)).
  - vm_compute in E. discriminate.
  - vm_compute in E. discriminate.
Defined.

(** The bytes of a first frame are still the pixels it was made from after
    a second frame has been scaled into the same scratch buffer. *)
Example second_read_leaves_first_frame :
  match @Video.ReadVideoFrame linux (video_env rd_frame pixels_a) sample_media
          opened_video opened_video_mem with
  | Done (s1, w1, (Some f1, _, _)) =>
      match @Video.ReadVideoFrame linux (video_env rd_frame pixels_b) sample_media s1 w1 with
      | Done (_, w2, (Some f2, _, _)) =>
          go_bytes w1 (VideoFrameM.Data f1) = pixels_a
          /\ go_bytes w2 (VideoFrameM.Data f1) = pixels_a
          /\ go_bytes w2 (VideoFrameM.Data f2) = pixels_b
          /\ (Video.rgba_data0 s1 w2 ≫= c_bytes w2) = Some pixels_b
      | _ => False
      end
  | _ => False
  end.
Proof.
  vm_compute. repeat split; reflexivity.
Qed.

(** * Further properties of the code *)

(** ** Presentation offset: order and the zero denominator *)

Lemma wrap64_range (z : Z) : in_int64 (wrap64 z).
Proof.
  unfold in_int64, int64_min, int64_max, wrap64.
  pose proof (Z.mod_pos_bound (z + 2 ^ 63) (2 ^ 64)). lia.
Qed.

Lemma PresentationOffset_value (f : baseFrame) :
  den (time_base (inner (stream f))) <> 0 ->
  in_int64 (Second * num (time_base (inner (stream f))) * pts f) ->
  Frame.PresentationOffset f
  = Done ((Second * num (time_base (inner (stream f))) * pts f)
          ÷ den (time_base (inner (stream f))), None).
Proof.
  intros Hd Hfit. rewrite PresentationOffset_unfold. unfold div64.
  destruct (Z.eqb_spec (den (time_base (inner (stream f)))) 0) as [|_]; [contradiction|].
  rewrite (wrap64_id _ Hfit).
  rewrite wrap64_id; [reflexivity|].
  apply quot_in_int64; [assumption|apply Second_mul_not_min|assumption].
Qed.

(** Two frames of one stream whose time base is positive, neither of whose
    offsets leaves int64: the later pts has the later, or the same,
    presentation offset. *)
Theorem PresentationOffset_monotone (f g : baseFrame) :
  stream f = stream g ->
  0 <= num (time_base (inner (stream f))) ->
  0 < den (time_base (inner (stream f))) ->
  in_int64 (Second * num (time_base (inner (stream f))) * pts f) ->
  in_int64 (Second * num (time_base (inner (stream f))) * pts g) ->
  pts f <= pts g ->
  exists a b,
    Frame.PresentationOffset f = Done (a, None)
    /\ Frame.PresentationOffset g = Done (b, None)
    /\ a <= b.
Proof.
  intros Hs Hn Hd Hf Hg Hle.
  eexists _, _. split; [apply PresentationOffset_value; [lia|exact Hf]|].
  split; [apply PresentationOffset_value; rewrite <- Hs; [lia|exact Hg]|].
  rewrite <- Hs. apply Z.quot_le_mono; [exact Hd|].
  apply Z.mul_le_mono_nonneg_l; [|exact Hle].
  unfold Second. lia.
Qed.

Lemma PresentationOffset_monotone_witness :
  exists a b,
    Frame.PresentationOffset (sample_frame sample_tb 50) = Done (a, None)
    /\ Frame.PresentationOffset (sample_frame sample_tb 51) = Done (b, None)
    /\ a <= b.
Proof.
  apply (PresentationOffset_monotone (sample_frame sample_tb 50) (sample_frame sample_tb 51)).
  - reflexivity.
  - simpl. lia.
  - simpl. lia.
  - split; vm_compute; discriminate.
  - split; vm_compute; discriminate.
  - simpl. lia.
Defined.

(** The integer form stops the program exactly on a time base whose
    denominator is zero; whenever it returns, the error is nil and the
    offset is an int64. *)
Theorem PresentationOffset_panics_iff_zero_denominator (f : baseFrame) :
  (Frame.PresentationOffset f = Panic <-> den (time_base (inner (stream f))) = 0)
  /\ (forall d er, Frame.PresentationOffset f = Done (d, er) -> er = None /\ in_int64 d).
Proof.
  rewrite PresentationOffset_unfold. unfold div64.
  destruct (Z.eqb_spec (den (time_base (inner (stream f)))) 0) as [Hz|Hnz].
  - split; [split; auto|discriminate].
  - split; [split; [discriminate|contradiction]|].
    intros d er H. injection H as <- <-. split; [reflexivity|apply wrap64_range].
Qed.

(** ** Stream duration: the zero denominator *)

(** On a stream whose time base has denominator zero, Duration returns the
    zero duration together with an error, whatever the numerator and the
    native duration are. *)
Theorem Duration_zero_denominator (s : baseStream) :
  den (time_base (inner s)) = 0 ->
  Duration s = (0, Some invalid_duration).
Proof.
  intros Hd. unfold Duration, TimeBase. rewrite Hd.
  change (f64_of_int 0) with (S754_zero false).
  generalize (f64_of_int (if duration (inner s) <? 0 then 0 else duration (inner s))).
  generalize (f64_of_int (num (time_base (inner s)))).
  intros x y.
  destruct x as [[]|[]| |[] mx ex], y as [[]|[]| |[] my ey]; reflexivity.
Qed.

Lemma Duration_zero_denominator_witness :
  Duration (sample_stream {| num := 1; den := 0 |} 50) = (0, Some invalid_duration).
Proof.
  apply (Duration_zero_denominator (sample_stream {| num := 1; den := 0 |} 50)).
  reflexivity.
Defined.

(** ** What ReadFrame can return *)

Section ReadFrameShapes.
Context {platform : Platform}.

(** The three results of [read]: an error with the skip flag cleared, the
    try-again result with the flag set, a decoded frame with the flag
    cleared. *)
Lemma read_shapes (e : Stream.read_env) (m : Media) (s : baseStream) :
  (exists er, read e m s = (set_skip false s, false, Some er))
  \/ read e m s = (set_skip true s, true, None)
  \/ read e m s = (set_skip false s, true, None).
Proof.
  unfold read.
  destruct (_ <? 0); [left; eauto|].
  destruct (_ <? 0); [|auto].
  destruct (_ =? _); [auto|left; eauto].
Qed.

(** VideoStream.ReadFrame returns one of three things: an error, with no
    frame and [false]; a skip, with no frame, [true], a nil error and the
    stream's skip flag set, memory untouched; or a frame with [true] and a
    nil error.  It never returns [false] with a nil error, so the end of
    the stream is never reported, and the [Frame] it returns is never the
    nil interface: without a frame it is a nil [*VideoFrame] inside a
    non-nil interface. *)
Theorem Video_ReadFrame_shapes (e : Video.read_env) (m : Media)
    (s s' : Video.VideoStream) (w w' : Mem)
    (fv : FrameValue) (more : bool) (err : option error) :
  Video.ReadFrame e m s w = Done (s', w', (fv, more, err)) ->
  (exists er, err = Some er /\ more = false /\ fv = FrameVideo None
              /\ skip (Video.base s') = false /\ w' = w)
  \/ (err = None /\ more = true /\ fv = FrameVideo None
      /\ skip (Video.base s') = true /\ w' = w)
  \/ (exists f, err = None /\ more = true /\ fv = FrameVideo (Some f)
                /\ skip (Video.base s') = false).
Proof.
  unfold Video.ReadFrame, Video.ReadVideoFrame.
  destruct (read_shapes (Video.rd e) m (Video.base s)) as [[er ->]|[->| ->]];
    cbn -[GoBytes newVideoFrame Video.rgba_data0 c_write c_bytes].
  - intros H. injection H as <- <- <- <- <-. left. eauto 10.
  - intros H. injection H as <- <- <- <- <-. right. left. auto 10.
  - destruct (Video.rgba_data0 _ w) as [buf|]; [|discriminate].
    destruct (GoBytes _ _ _) as [data w2].
    destruct (newVideoFrame _ _ _ _ _ _ data w2) as [[fr w3]|] eqn:En; [|discriminate].
    intros H. injection H as <- <- <- <- <-. right. right.
    exists fr. auto 10.
Qed.

(** AudioStream.ReadFrame has the same three results; an error may leave
    the output buffer released or replaced. *)
Theorem Audio_ReadFrame_shapes (e : Audio.read_env) (m : Media)
    (s s' : Audio.AudioStream) (w w' : Mem)
    (fv : FrameValue) (more : bool) (err : option error) :
  Audio.ReadFrame e m s w = (s', w', (fv, more, err)) ->
  (exists er, err = Some er /\ more = false /\ fv = FrameAudio None
              /\ skip (Audio.base s') = false)
  \/ (err = None /\ more = true /\ fv = FrameAudio None
      /\ skip (Audio.base s') = true /\ w' = w /\ Audio.buffer s' = Audio.buffer s)
  \/ (exists f, err = None /\ more = true /\ fv = FrameAudio (Some f)
                /\ skip (Audio.base s') = false).
Proof.
  unfold Audio.ReadFrame, Audio.ReadAudioFrame.
  destruct (read_shapes (Audio.rd e) m (Audio.base s)) as [[er ->]|[->| ->]];
    cbn -[GoBytes c_alloc c_free c_write c_bytes Z.ltb].
  - intros H. injection H as <- <- <- <- <-. left. eauto 10.
  - intros H. injection H as <- <- <- <- <-. right. left. auto 10.
  - destruct (_ <? 0).
    { intros H. injection H as <- <- <- <- <-. left. eauto 10. }
    destruct (if _ <? _ then _ else _) as [s0 w0] eqn:E0.
    assert (H0 : skip (Audio.base s0) = false).
    { destruct (_ <? _) in E0; injection E0 as <- <-; reflexivity. }
    clear E0.
    destruct (match Audio.buffer s0 with Some _ => _ | None => _ end)
      as [[s1 w1] failed] eqn:E1.
    assert (H1 : skip (Audio.base s1) = false).
    { destruct (Audio.buffer s0).
      - injection E1 as <- <- <-. exact H0.
      - destruct (c_alloc _ _ w0) as [p wa].
        destruct p; injection E1 as <- <- <-; exact H0. }
    clear E1.
    destruct failed.
    { intros H. injection H as <- <- <- <- <-. left. eauto 10. }
    destruct (_ <? 0).
    { intros H. injection H as <- <- <- <- <-. left. eauto 10. }
    destruct (GoBytes _ _ _) as [data w2].
    intros H. injection H as <- <- <- <- <-. right. right. eauto 10.
Qed.

End ReadFrameShapes.

Lemma Video_ReadFrame_shapes_witness :
  match @Video.ReadFrame linux (video_env rd_frame pixels_a) sample_media
          opened_video opened_video_mem with
  | Done (s', _, (_, more, err)) =>
      (exists er, err = Some er) \/ more = true
  | Panic => False
  end.
Proof.
  pose proof (@Video_ReadFrame_shapes linux (video_env rd_frame pixels_a) sample_media
                opened_video) as T.
  destruct (@Video.ReadFrame linux (video_env rd_frame pixels_a) sample_media
              opened_video opened_video_mem) as [[[s' w'] [[fv more] err]]|] eqn:E.
  - destruct (T s' opened_video_mem w' fv more err E)
      as [(er & -> & _)|[(_ & -> & _)|(f & _ & -> & _)]]; eauto.
  - vm_compute in E. discriminate.
Defined.

Lemma Audio_ReadFrame_shapes_witness :
  (@Audio.ReadFrame linux (audio_env rd_try_again 0 true []) sample_media
     opened_audio opened_audio_mem).2.1.2 = true.
Proof.
  pose proof (@Audio_ReadFrame_shapes linux (audio_env rd_try_again 0 true [])
                sample_media opened_audio) as T.
  destruct (@Audio.ReadFrame linux (audio_env rd_try_again 0 true []) sample_media
              opened_audio opened_audio_mem) as [[s' w'] [[fv more] err]] eqn:E.
  destruct (T s' opened_audio_mem w' fv more err E)
    as [(er & Her & _)|[(_ & -> & _)|(f & _ & -> & _)]]; try reflexivity.
  vm_compute in E. congruence.
Defined.

(** ** Close *)

(** After [close] no handle is left in the base record, and the stream is
    marked closed. *)
Lemma close_fields (s : baseStream) (w : Mem) :
  let '(s', _, err) := close s w in
  err = None
  /\ codecCtx s' = None /\ frame s' = None /\ filterCtx s' = None
  /\ filterInPacket s' = None /\ filterOutPacket s' = None
  /\ opened s' = false
  /\ inner s' = inner s /\ params s' = params s /\ codec s' = codec s
  /\ filterArgs s' = filterArgs s /\ skip s' = skip s.
Proof.
  destruct s as [i pa c cc fr args fc fi fo sk op].
  unfold close. destruct fc, fi, fo; simpl; repeat split; reflexivity.
Qed.

(** [close] on a record without handles changes nothing but the open
    mark. *)
Lemma close_closed (s : baseStream) (w : Mem) :
  codecCtx s = None -> frame s = None -> filterCtx s = None ->
  filterInPacket s = None -> filterOutPacket s = None -> opened s = false ->
  close s w = (s, w, None).
Proof.
  destruct s; simpl. intros -> -> -> -> -> ->. reflexivity.
Qed.

(** Close can be repeated: on a video or an audio stream, in any state and
    with any native heap, a second Close right after the first returns nil
    and changes neither the stream nor the heap, so nothing is released
    twice. *)
Theorem Close_twice (vs : Video.VideoStream) (aus : Audio.AudioStream) (w : Mem) :
  (let '(s1, w1, e1) := Video.Close vs w in
   e1 = None
   /\ opened (Video.base s1) = false
   /\ Video.rgbaFrame s1 = None /\ Video.swsCtx s1 = None
   /\ Video.Close s1 w1 = (s1, w1, None))
  /\ (let '(s1, w1, e1) := Audio.Close aus w in
      e1 = None
      /\ opened (Audio.base s1) = false
      /\ Audio.buffer s1 = None /\ Audio.swrCtx s1 = None
      /\ Audio.Close s1 w1 = (s1, w1, None)).
Proof.
  split.
  - unfold Video.Close at 1.
    pose proof (close_fields (Video.base vs) w) as Hc.
    destruct (close (Video.base vs) w) as [[b w0] err].
    destruct Hc as (-> & Hcc & Hfr & Hfc & Hfi & Hfo & Hop & _).
    assert (Hb : close b w0 = (b, w0, None)) by (apply close_closed; assumption).
    assert (Hfin : forall s1 w1,
               Video.base s1 = b -> Video.rgbaFrame s1 = None -> Video.swsCtx s1 = None ->
               Video.Close s1 w1 = (s1, w1, None)).
    { intros s1 w1 H1 H2 H3. unfold Video.Close. rewrite H1.
      rewrite (close_closed b w1) by assumption.
      destruct s1 as [b1 sc1 rf1 bs1]. simpl in *. subst. reflexivity. }
    destruct vs as [b0 sc rf bs].
    destruct rf as [f|], sc as [c|]; cbn -[c_free Video.rgba_data0 close];
      (split; [reflexivity|]); (split; [exact Hop|]);
      (split; [reflexivity|]); (split; [reflexivity|]);
      apply Hfin; reflexivity.
  - unfold Audio.Close at 1.
    pose proof (close_fields (Audio.base aus) w) as Hc.
    destruct (close (Audio.base aus) w) as [[b w0] err].
    destruct Hc as (-> & Hcc & Hfr & Hfc & Hfi & Hfo & Hop & _).
    cbn -[c_free close].
    split; [reflexivity|]. split; [exact Hop|].
    split; [reflexivity|]. split; [reflexivity|].
    unfold Audio.Close. cbn -[c_free close].
    rewrite (close_closed b) by assumption.
    destruct aus. reflexivity.
Qed.

(** ** Filters: success, failure and the apply/remove cycle *)

Lemma fresh_lookup (h : gmap positive CObj) : h !! fresh (dom h) = None.
Proof. apply not_elem_of_dom, is_fresh. Qed.

(** ApplyFilter returns nil exactly when parsing the filter, copying the
    parameters in and out and initialising the filter all return a status
    that is not negative and the input packet is allocated; whether the
    output packet is allocated does not count.  On success the filter
    context and the input packet are set and [Filter] reports the new
    arguments; on failure [Filter] reports what it did before. *)
Theorem ApplyFilter_outcome (e : filter_env) (args : string) (s : baseStream) (w : Mem) :
  let '(s', w', err) := ApplyFilter e args s w in
  (err = None <->
   0 <= av_bsf_list_parse_str_r e /\ 0 <= par_in_copy_r e /\ 0 <= par_out_copy_r e
   /\ 0 <= av_bsf_init_r e /\ packet_in_alloc_ok e = true)
  /\ (err = None ->
      Filter s' = args
      /\ is_Some (filterCtx s') /\ is_Some (filterInPacket s')
      /\ (is_Some (filterOutPacket s') <-> packet_out_alloc_ok e = true))
  /\ (err <> None -> Filter s' = Filter s).
Proof.
  unfold ApplyFilter, c_alloc.
  destruct (Z.ltb_spec (av_bsf_list_parse_str_r e) 0) as [H1|H1].
  { split; [split; [discriminate|lia]|]. split; [discriminate|reflexivity]. }
  destruct (Z.ltb_spec (par_in_copy_r e) 0) as [H2|H2].
  { split; [split; [discriminate|lia]|]. split; [discriminate|reflexivity]. }
  destruct (Z.ltb_spec (par_out_copy_r e) 0) as [H3|H3].
  { split; [split; [discriminate|lia]|]. split; [discriminate|reflexivity]. }
  destruct (Z.ltb_spec (av_bsf_init_r e) 0) as [H4|H4].
  { split; [split; [discriminate|lia]|]. split; [discriminate|reflexivity]. }
  destruct (packet_in_alloc_ok e); simpl.
  - destruct (packet_out_alloc_ok e); simpl.
    + split; [split; auto|]. split; [|congruence].
      intros _. repeat split; eauto.
    + split; [split; auto|]. split; [|congruence].
      intros _. split; [reflexivity|]. split; [eauto|]. split; [eauto|].
      split; [intros [x Hx]; discriminate|discriminate].
  - split; [split; [discriminate|intros (_ & _ & _ & _ & ?); discriminate]|].
    split; [discriminate|reflexivity].
Qed.

(** On a stream without a filter, ApplyFilter either fails before a filter
    context exists, and then leaves the native heap as it was, or leaves a
    filter context, whether it returns an error or not; RemoveFilter then
    succeeds and the native heap is again what it was before ApplyFilter,
    with no filter context and no filter packet left in the stream. *)
Theorem ApplyFilter_RemoveFilter_cycle (e : filter_env) (args : string)
    (s : baseStream) (w : Mem) :
  filterCtx s = None -> filterInPacket s = None -> filterOutPacket s = None ->
  let '(s1, w1, _) := ApplyFilter e args s w in
  (filterCtx s1 = None /\ w1 = w)
  \/ (is_Some (filterCtx s1)
      /\ let '(s2, w2, e2) := RemoveFilter s1 w1 in
         e2 = None
         /\ filterCtx s2 = None /\ filterInPacket s2 = None /\ filterOutPacket s2 = None
         /\ cheap w2 = cheap w /\ goheap w2 = goheap w).
Proof.
  intros Hc Hi Ho. destruct s as [i pa c cc fr fa fc fi fo sk op]. simpl in *. subst.
  destruct w as [h g].
  unfold ApplyFilter, c_alloc. cbn [cheap goheap set_cheap].
  destruct (av_bsf_list_parse_str_r e <? 0); [left; auto|].
  pose proof (fresh_lookup h) as Hk1.
  set (k1 := fresh (dom h)) in *.
  destruct (par_in_copy_r e <? 0);
    [|destruct (par_out_copy_r e <? 0); [|destruct (av_bsf_init_r e <? 0)]];
    try (right; split; [simpl; eauto|];
         unfold RemoveFilter; simpl; repeat split; heap_eq).
  destruct (packet_in_alloc_ok e); cbn [cheap goheap set_cheap].
  - pose proof (fresh_lookup (<[k1:=CBSFCtx]> h)) as Hk2.
    set (k2 := fresh (dom (<[k1:=CBSFCtx]> h))) in *.
    fresh_facts Hk2.
    cbn [filterInPacket set_filterInPacket set_filterCtx].
    destruct (packet_out_alloc_ok e); cbn [cheap goheap set_cheap].
    + pose proof (fresh_lookup (<[k2:=CPacket]> (<[k1:=CBSFCtx]> h))) as Hk3.
      set (k3 := fresh (dom (<[k2:=CPacket]> (<[k1:=CBSFCtx]> h)))) in *.
      fresh_facts Hk3.
      right. split; [simpl; eauto|].
      unfold RemoveFilter; simpl; repeat split; heap_eq.
    + right. split; [simpl; eauto|].
      unfold RemoveFilter; simpl; repeat split; heap_eq.
  - right. split; [simpl; eauto|].
    unfold RemoveFilter; simpl; repeat split; heap_eq.
Qed.

Lemma ApplyFilter_RemoveFilter_cycle_witness :
  cheap (RemoveFilter
           (ApplyFilter filter_ok "h264_mp4toannexb" (sample_stream sample_tb 100)
              empty_mem).1.1
           (ApplyFilter filter_ok "h264_mp4toannexb" (sample_stream sample_tb 100)
              empty_mem).1.2).1.2
  = cheap empty_mem.
Proof.
  pose proof (ApplyFilter_RemoveFilter_cycle filter_ok "h264_mp4toannexb"
                (sample_stream sample_tb 100) empty_mem eq_refl eq_refl eq_refl) as T.
  destruct (ApplyFilter filter_ok "h264_mp4toannexb" (sample_stream sample_tb 100)
              empty_mem) as [[s1 w1] e1] eqn:E.
  destruct T as [[Hn _]|[_ T]].
  - vm_compute in E. injection E as <- _ _. discriminate.
  - simpl. destruct (RemoveFilter s1 w1) as [[s2 w2] e2]. simpl. apply T.
Defined.

(** ** The life of a video stream: no panic, nothing leaked *)

Lemma OpenDecode_video_opened (e : Video.open_env) (wd ht alg : Z)
    (s s1 : Video.VideoStream) (w w1 : Mem) :
  filterCtx (Video.base s) = None -> filterInPacket (Video.base s) = None ->
  filterOutPacket (Video.base s) = None ->
  Video.OpenDecode e wd ht alg s w = (s1, w1, None) ->
  video_opened w s1 w1 /\ opened (Video.base s1) = true /\ goheap w1 = goheap w.
Proof.
  intros Hfc Hfi Hfo.
  destruct s as [b sws0 rf0 bsz]. destruct b as [i pa c cc0 fr0 fa fc fi fo sk op].
  simpl in Hfc, Hfi, Hfo. subst fc fi fo. destruct w as [h g].
  unfold Video.OpenDecode, open, Video.free_rgbaFrame, c_alloc.
  cbn [Video.base Video.set_base cheap goheap set_cheap].
  destruct (avcodec_alloc_context3_ok (Video.base_open e)); [|discriminate].
  cbn [codecCtx set_codecCtx cheap goheap set_cheap].
  destruct (avcodec_parameters_to_context_r (Video.base_open e) <? 0); [discriminate|].
  destruct (avcodec_open2_r (Video.base_open e) <? 0); [discriminate|].
  destruct (av_frame_alloc_ok (Video.base_open e)); [|discriminate].
  cbn [frame set_frame set_codecCtx cheap goheap set_cheap].
  destruct (Video.rgba_frame_alloc_ok e); [|discriminate].
  cbn [Video.rgbaFrame Video.set_rgbaFrame Video.set_base Video.bufSize Video.set_bufSize
       cheap goheap set_cheap].
  destruct (Video.av_image_get_buffer_size_r e <? 0); [discriminate|].
  destruct (Video.av_malloc_ok e); [|discriminate].
  cbn [cheap goheap set_cheap c_free].
  destruct (Video.av_image_fill_arrays_r e <? 0); [discriminate|].
  destruct (Video.sws_getContext_ok e); [|discriminate].
  cbn [Video.swsCtx Video.set_swsCtx cheap goheap set_cheap].
  pose proof (fresh_lookup h) as H1.
  set (k1 := fresh (dom h)) in *. set (h1 := <[k1:=CCodecCtx]> h) in *.
  pose proof (fresh_lookup h1) as H2.
  set (k2 := fresh (dom h1)) in *. set (h2 := <[k2:=CFrame None]> h1) in *.
  pose proof (fresh_lookup h2) as H3.
  set (k3 := fresh (dom h2)) in *. set (h3 := <[k3:=CFrame None]> h2) in *.
  pose proof (fresh_lookup h3) as H4.
  set (k4 := fresh (dom h3)) in *. set (h4 := <[k4:=CBuffer _]> h3) in *.
  set (h5 := <[k3:=CFrame (Some k4)]> h4) in *.
  pose proof (fresh_lookup h5) as H5.
  set (k5 := fresh (dom h5)) in *.
  unfold h5, h4, h3, h2, h1 in *.
  fresh_facts H2. fresh_facts H3. fresh_facts H4. fresh_facts H5.
  intros H. injection H as <- <-.
  split; [|split; reflexivity].
  exists k1, k2, k3, k4, k5, (replicate (Z.to_nat (Video.av_image_get_buffer_size_r e)) x00).
  cbn [Video.base codecCtx frame Video.rgbaFrame Video.swsCtx filterCtx filterInPacket
       filterOutPacket set_opened cheap set_cheap goheap].
  split; [repeat split; reflexivity|].
  split.
  { repeat split; rewrite ?lookup_insert; repeat case_decide;
      subst; try congruence; reflexivity. }
  split; [repeat split; assumption|].
  intros k Hk1 Hk2 Hk3 Hk4 Hk5.
  rewrite ?lookup_insert. repeat case_decide; subst; try congruence; reflexivity.
Qed.

Lemma newVideoFrame_cheap (st : baseStream) (p ic id wd ht : Z) (pix : positive)
    (w w' : Mem) (f : VideoFrame) :
  newVideoFrame st p ic id wd ht pix w = Done (f, w') -> cheap w' = cheap w.
Proof.
  intros Hn. apply newVideoFrame_Done in Hn. destruct Hn as [_ Hn].
  injection Hn as _ ->. reflexivity.
Qed.

Lemma newVideoFrame_Panic (st : baseStream) (p ic id wd ht : Z) (pix : positive) (w : Mem) :
  newVideoFrame st p ic id wd ht pix w = Panic <->
  pixelBufferLength 4 (Z.abs wd) (Z.abs ht) = Panic.
Proof.
  unfold newVideoFrame.
  destruct (pixelBufferLength 4 (Z.abs wd) (Z.abs ht)) as [n|].
  - destruct (go_alloc _ w). split; discriminate.
  - split; reflexivity.
Qed.

Section VideoLife.
Context {platform : Platform}.


(** A read on an open video stream either returns, and leaves the stream
    open with the same native objects, or stops the program in
    [image.NewRGBA] after a frame was decoded. *)
Lemma ReadVideoFrame_video_opened_cases (e : Video.read_env) (m : Media) (w0 : Mem)
    (s : Video.VideoStream) (w : Mem) :
  video_opened w0 s w ->
  (exists s' w' r,
     Video.ReadVideoFrame e m s w = Done (s', w', r)
     /\ video_opened w0 s' w'
     /\ dom (cheap w') = dom (cheap w))
  \/ (Video.ReadVideoFrame e m s w = Panic
      /\ read (Video.rd e) m (Video.base s) = (set_skip false (Video.base s), true, None)
      /\ pixelBufferLength 4 (Z.abs (Video.ctx_width e)) (Z.abs (Video.ctx_height e))
         = Panic).
Proof.
  intros (cc & fr & f & buf & sc & bs & Hfields & Hlive & Hnew & Hframe).
  destruct Hfields as (Hcc & Hfr & Hrf & Hsc & Hfc & Hfi & Hfo).
  destruct Hlive as (Lcc & Lfr & Lf & Lbuf & Lsc).
  assert (Hkeep : forall x,
            video_opened w0 (Video.set_base (set_skip x (Video.base s)) s) w).
  { intros x. exists cc, fr, f, buf, sc, bs.
    destruct s as [b sws0 rf0 bsz]. destruct b. simpl in *.
    split; [repeat split; assumption|]. split; [repeat split; assumption|].
    split; [exact Hnew|exact Hframe]. }
  unfold Video.ReadVideoFrame.
  destruct (read_shapes (Video.rd e) m (Video.base s)) as [[er ->]|[->| ->]];
    cbn -[GoBytes newVideoFrame Video.rgba_data0 c_write c_bytes].
  - left. eexists _, _, _. split; [reflexivity|]. split; [apply Hkeep|reflexivity].
  - left. eexists _, _, _. split; [reflexivity|]. split; [apply Hkeep|reflexivity].
  - assert (Hd : Video.rgba_data0 (Video.set_base (set_skip false (Video.base s)) s) w
                 = Some buf).
    { unfold Video.rgba_data0. cbn [Video.rgbaFrame Video.set_base]. rewrite Hrf, Lf.
      reflexivity. }
    rewrite Hd.
    set (w1 := c_write buf (Video.sws_scale_out e) w).
    assert (Hw1 : exists bs', cheap w1 = <[buf := CBuffer bs']> (cheap w)).
    { unfold w1, c_write, c_bytes. rewrite Lbuf. eexists. reflexivity. }
    destruct Hw1 as [bs' Hw1].
    unfold GoBytes.
    destruct (go_alloc _ w1) as [data w2] eqn:Ea.
    assert (Hw2 : cheap w2 = cheap w1).
    { unfold go_alloc in Ea. injection Ea as _ <-. reflexivity. }
    destruct (newVideoFrame _ _ _ _ _ _ data w2) as [[fra w3]|] eqn:En.
    2: { right. split; [reflexivity|]. split; [reflexivity|].
         apply newVideoFrame_Panic in En. exact En. }
    pose proof (newVideoFrame_cheap _ _ _ _ _ _ _ _ _ _ En) as Hw3.
    left. eexists _, _, _. split; [reflexivity|].
    assert (Hc : cheap w3 = <[buf := CBuffer bs']> (cheap w)) by congruence.
    split.
    + exists cc, fr, f, buf, sc, bs'.
      split.
      { destruct s as [b sws0 rf0 bsz]. destruct b. simpl in *.
        repeat split; assumption. }
      split.
      { rewrite Hc. repeat split; rewrite lookup_insert; case_decide; subst;
          congruence. }
      split; [exact Hnew|].
      intros k H1 H2 H3 H4 H5. rewrite Hc, lookup_insert_ne by congruence.
      apply Hframe; assumption.
    + rewrite Hc, dom_insert_L.
      apply subseteq_union_1_L, singleton_subseteq_l, elem_of_dom. eauto.
Qed.

(** A read that returns leaves an open video stream open, with the same
    native objects. *)
Lemma ReadVideoFrame_video_opened (e : Video.read_env) (m : Media) (w0 : Mem)
    (s s' : Video.VideoStream) (w w' : Mem) r :
  video_opened w0 s w ->
  Video.ReadVideoFrame e m s w = Done (s', w', r) ->
  video_opened w0 s' w' /\ dom (cheap w') = dom (cheap w).
Proof.
  intros Hinv Hr.
  destruct (ReadVideoFrame_video_opened_cases e m w0 s w Hinv)
    as [(s1 & w1 & r1 & Hr1 & H1 & Hd1)|(Hp & _)]; [|congruence].
  rewrite Hr in Hr1. injection Hr1 as <- <- _. auto.
Qed.


Lemma video_reads_video_opened (es : list Video.read_env) (m : Media) (w0 : Mem)
    (s s' : Video.VideoStream) (w w' : Mem) :
  video_opened w0 s w ->
  Video.reads es m s w = Done (s', w') ->
  video_opened w0 s' w' /\ dom (cheap w') = dom (cheap w).
Proof.
  revert s w. induction es as [|e es IH]; intros s w Hinv.
  - cbn [Video.reads]. intros H. injection H as <- <-. auto.
  - cbn [Video.reads].
    destruct (Video.ReadVideoFrame e m s w) as [[[s1 w1] r]|] eqn:Hr; [|discriminate].
    destruct (ReadVideoFrame_video_opened e m w0 s s1 w w1 r Hinv Hr) as (H1 & Hd1).
    intros Hrun. destruct (IH s1 w1 H1 Hrun) as (H2 & Hd2).
    split; [exact H2|congruence].
Qed.


End VideoLife.

(** Close on an open video stream releases all that it holds. *)
Lemma Close_video_opened (w0 : Mem) (s : Video.VideoStream) (w : Mem) :
  video_opened w0 s w ->
  exists s' w', Video.Close s w = (s', w', None) /\ cheap w' = cheap w0
                /\ goheap w' = goheap w.
Proof.
  intros (cc & fr & f & buf & sc & bs & Hfields & Hlive & Hnew & Hframe).
  destruct Hfields as (Hcc & Hfr & Hrf & Hsc & Hfc & Hfi & Hfo).
  destruct Hlive as (Lcc & Lfr & Lf & Lbuf & Lsc).
  destruct Hnew as (Ncc & Nfr & Nf & Nbuf & Nsc).
  destruct s as [b sws0 rf0 bsz]. destruct b as [i pa c cc0 fr0 fa fc fi fo sk op].
  simpl in *. subst. destruct w as [h g]. simpl in *.
  assert (f <> fr) by congruence. assert (f <> cc) by congruence.
  unfold Video.Close, close, Video.rgba_data0.
  cbn [Video.base Video.set_base frame codecCtx filterCtx filterInPacket filterOutPacket
       set_frame set_codecCtx set_opened Video.rgbaFrame Video.swsCtx
       Video.set_rgbaFrame Video.set_swsCtx c_free cheap set_cheap goheap].
  rewrite !lookup_delete_ne by congruence. rewrite Lf.
  cbn [c_free cheap set_cheap goheap Video.swsCtx Video.set_rgbaFrame].
  eexists _, _. split; [reflexivity|]. split; [|reflexivity].
  cbn [cheap set_cheap goheap].
  apply map_eq. intros k. rewrite ?lookup_delete.
  repeat case_decide; subst; try congruence.
  apply Hframe; congruence.
Qed.

Section VideoLifeTheorems.
Context {platform : Platform}.


(** Open, read, close: after OpenDecode succeeds on a video stream without
    a filter, any run of reads followed by Close leaves the native heap
    exactly as it was before OpenDecode. *)
Theorem Video_lifecycle_restores_heap (e : Video.open_env) (wd ht alg : Z) (m : Media)
    (s s1 s2 : Video.VideoStream) (w w1 w2 : Mem) (es : list Video.read_env) :
  filterCtx (Video.base s) = None -> filterInPacket (Video.base s) = None ->
  filterOutPacket (Video.base s) = None ->
  Video.OpenDecode e wd ht alg s w = (s1, w1, None) ->
  Video.reads es m s1 w1 = Done (s2, w2) ->
  exists s3 w3,
    Video.Close s2 w2 = (s3, w3, None) /\ cheap w3 = cheap w.
Proof.
  intros Hfc Hfi Hfo Hopen Hrun.
  destruct (OpenDecode_video_opened _ _ _ _ _ _ _ _ Hfc Hfi Hfo Hopen) as (Hinv & _ & _).
  destruct (video_reads_video_opened es m w s1 s2 w1 w2 Hinv Hrun) as (Hinv2 & _).
  destruct (Close_video_opened w s2 w2 Hinv2) as (s3 & w3 & Hc & Hh & _).
  exists s3, w3. auto.
Qed.

(** The pixels of a frame that ReadVideoFrame returns are always
    [4 * width * height] bytes, the size of the codec context's picture,
    whatever the size of the RGBA buffer the stream was opened with. *)
Theorem VideoFrame_data_length (e : Video.read_env) (m : Media)
    (s s1 : Video.VideoStream) (w w1 : Mem) (f : VideoFrame) (more : bool)
    (er : option error) :
  Video.ReadVideoFrame e m s w = Done (s1, w1, (Some f, more, er)) ->
  length (go_bytes w1 (VideoFrameM.Data f))
  = Z.to_nat (4 * Z.abs (Video.ctx_width e) * Z.abs (Video.ctx_height e))
  /\ Dx (img f) = Z.abs (Video.ctx_width e) /\ Dy (img f) = Z.abs (Video.ctx_height e)
  /\ pts (vbase f) = Video.frame_pts e.
Proof.
  intros Hread.
  destruct (ReadVideoFrame_payload _ _ _ _ _ _ _ _ _ Hread) as (buf & _ & Hb).
  split.
  { rewrite Hb, length_app, length_take, length_replicate. lia. }
  revert Hread. unfold Video.ReadVideoFrame.
  destruct (read (Video.rd e) m (Video.base s)) as [[b ok] err].
  destruct err; [discriminate|].
  destruct (ok && _); [discriminate|].
  destruct (negb ok); [discriminate|].
  destruct (Video.rgba_data0 _ w); [|discriminate].
  destruct (GoBytes _ _ _) as [data w2].
  destruct (newVideoFrame _ _ _ _ _ _ data w2) as [[fr w3]|] eqn:En; [|discriminate].
  apply newVideoFrame_Done in En. destruct En as [_ En].
  destruct (go_alloc _ w2) as [px w4]. injection En as -> _.
  intros H. injection H as <- <- <- <- <-. repeat split; reflexivity.
Qed.

End VideoLifeTheorems.


Lemma Video_lifecycle_restores_heap_witness :
  exists s3 w3,
    Video.Close opened_video opened_video_mem = (s3, w3, None)
    /\ cheap w3 = cheap empty_mem.
Proof.
  apply (@Video_lifecycle_restores_heap linux (video_open_env open_ok true) 2 1 4
           sample_media sample_video opened_video opened_video empty_mem opened_video_mem
           opened_video_mem [] eq_refl eq_refl eq_refl).
  - vm_compute. reflexivity.
  - reflexivity.
Defined.

Lemma VideoFrame_data_length_witness :
  match @Video.ReadVideoFrame linux (video_env rd_frame pixels_a) sample_media
          opened_video opened_video_mem with
  | Done (_, w1, (Some f, _, _)) => length (go_bytes w1 (VideoFrameM.Data f)) = 8%nat
  | _ => False
  end.
Proof.
  pose proof (@VideoFrame_data_length linux (video_env rd_frame pixels_a) sample_media
                opened_video) as T.
  destruct (@Video.ReadVideoFrame linux (video_env rd_frame pixels_a) sample_media
              opened_video opened_video_mem)
    as [[[s1 w1] [[[f|] more] er]]|] eqn:E.
  - exact (proj1 (T s1 opened_video_mem w1 f more er E)).
  - vm_compute in E. discriminate.
  - vm_compute in E. discriminate.
Defined.

(** ** The life of an audio stream: nothing leaked *)

Lemma audio_opened_cheap (w0 : Mem) (s : Audio.AudioStream) (w w' : Mem) :
  cheap w' = cheap w -> audio_opened w0 s w -> audio_opened w0 s w'.
Proof.
  intros Hc. unfold audio_opened. rewrite Hc. auto.
Qed.

Lemma audio_opened_skip (w0 : Mem) (s : Audio.AudioStream) (w : Mem) (x : bool) :
  audio_opened w0 s w ->
  audio_opened w0 (Audio.set_base (set_skip x (Audio.base s)) s) w.
Proof.
  destruct s as [b sw0 bf bsz]. destruct b. exact (fun H => H).
Qed.

(** Releasing the output buffer. *)
Lemma audio_opened_free (w0 : Mem) (s : Audio.AudioStream) (w : Mem) :
  audio_opened w0 s w ->
  audio_opened w0 (Audio.set_buffer None s) (c_free (Audio.buffer s) w).
Proof.
  intros (cc & fr & sw & Hfields & Hlive & Hnew & Hbuf).
  destruct Hlive as (Lcc & Lfr & Lsw).
  exists cc, fr, sw.
  destruct s as [b sw0 [bf|] bsz]; cbn [Audio.buffer Audio.set_buffer c_free] in *.
  - destruct Hbuf as ((bs & Lb & _) & Nb & Hframe).
    split; [exact Hfields|]. cbn [cheap set_cheap].
    split; [repeat split; rewrite lookup_delete_ne by congruence; assumption|].
    split; [exact Hnew|].
    intros k H1 H2 H3. rewrite lookup_delete. case_decide; [subst; congruence|].
    apply Hframe; congruence.
  - split; [exact Hfields|]. split; [repeat split; assumption|].
    split; [exact Hnew|exact Hbuf].
Qed.

(** Allocating the output buffer when there is none. *)
Lemma audio_opened_alloc (w0 : Mem) (s : Audio.AudioStream) (w : Mem)
    (ok : bool) (n : Z) (bs0 : list byte) :
  audio_opened w0 s w ->
  Audio.buffer s = None ->
  n <= Z.of_nat (length bs0) ->
  audio_opened w0
    (Audio.set_bufferSize n (Audio.set_buffer (c_alloc ok (CBuffer bs0) w).1 s))
    (c_alloc ok (CBuffer bs0) w).2.
Proof.
  intros (cc & fr & sw & Hfields & Hlive & Hnew & Hbuf) Hnone Hn.
  destruct Hlive as (Lcc & Lfr & Lsw).
  rewrite Hnone in Hbuf.
  exists cc, fr, sw.
  destruct s as [b sw0 bf bsz]. cbn [Audio.buffer] in Hnone. subst bf.
  unfold c_alloc. destruct ok; cbn [fst snd Audio.buffer Audio.set_buffer
    Audio.set_bufferSize Audio.bufferSize Audio.base Audio.swrCtx cheap set_cheap] in *.
  - pose proof (fresh_lookup (cheap w)) as Hk.
    set (k := fresh (dom (cheap w))) in *.
    split; [exact Hfields|].
    split; [repeat split; rewrite lookup_insert_ne by congruence; assumption|].
    split; [exact Hnew|].
    split; [exists bs0; split; [apply lookup_insert_eq|exact Hn]|].
    split.
    + destruct (decide (k = cc)) as [->|]; [congruence|].
      destruct (decide (k = fr)) as [->|]; [congruence|].
      destruct (decide (k = sw)) as [->|]; [congruence|].
      rewrite <- Hbuf by assumption. exact Hk.
    + intros j H1 H2 H3 H4. rewrite lookup_insert_ne by congruence.
      apply Hbuf; assumption.
  - split; [exact Hfields|]. split; [repeat split; assumption|].
    split; [exact Hnew|exact Hbuf].
Qed.

(** Writing into the output buffer. *)
Lemma audio_opened_write (w0 : Mem) (s : Audio.AudioStream) (w : Mem)
    (b : positive) (out : list byte) :
  audio_opened w0 s w ->
  Audio.buffer s = Some b ->
  audio_opened w0 s (c_write b out w)
  /\ exists bs, c_bytes (c_write b out w) b = Some bs
                /\ Audio.bufferSize s <= Z.of_nat (length bs).
Proof.
  intros (cc & fr & sw & Hfields & Hlive & Hnew & Hbuf) Hb.
  destruct Hlive as (Lcc & Lfr & Lsw).
  rewrite Hb in Hbuf. destruct Hbuf as ((bs & Lb & Hlen) & Nb & Hframe).
  assert (Hc : c_bytes w b = Some bs) by (unfold c_bytes; rewrite Lb; reflexivity).
  destruct (c_write_length b out w bs Hc) as (bs' & Hc' & Hl').
  assert (Hh : cheap (c_write b out w) !! b = Some (CBuffer bs')).
  { revert Hc'. unfold c_bytes. destruct (cheap (c_write b out w) !! b) as [[]|];
      congruence. }
  assert (Hother : forall k, k <> b -> cheap (c_write b out w) !! k = cheap w !! k).
  { intros k Hk. unfold c_write. rewrite Hc. simpl. apply lookup_insert_ne. congruence. }
  split; [|exists bs'; split; [exact Hc'|lia]].
  exists cc, fr, sw. split; [exact Hfields|].
  split; [repeat split; rewrite Hother by congruence; assumption|].
  split; [exact Hnew|]. rewrite Hb.
  split; [exists bs'; split; [exact Hh|lia]|].
  split; [exact Nb|].
  intros k H1 H2 H3 H4. rewrite Hother by assumption. apply Hframe; assumption.
Qed.

Section AudioLife.
Context {platform : Platform}.

(** A read on an open audio stream leaves it open, holding what it held or
    a new output buffer in place of the old; when it returns a frame, the
    buffer is at least as large as the frame required. *)
Lemma ReadAudioFrame_audio_opened (e : Audio.read_env) (m : Media) (w0 : Mem)
    (s : Audio.AudioStream) (w : Mem) :
  audio_opened w0 s w ->
  let '(s', w', r) := Audio.ReadAudioFrame e m s w in
  audio_opened w0 s' w'
  /\ (is_Some r.1.1 -> Audio.av_samples_get_buffer_size_r e <= Audio.bufferSize s').
Proof.
  intros Hinv. unfold Audio.ReadAudioFrame.
  destruct (read_shapes (Audio.rd e) m (Audio.base s)) as [[er ->]|[->| ->]];
    cbn -[GoBytes c_alloc c_free c_write c_bytes Z.ltb].
  - split; [apply audio_opened_skip, Hinv|intros [x Hx]; discriminate].
  - split; [apply audio_opened_skip, Hinv|intros [x Hx]; discriminate].
  - set (mx := Audio.av_samples_get_buffer_size_r e).
    pose proof (audio_opened_skip w0 s w false Hinv) as H0.
    set (s0 := Audio.set_base (set_skip false (Audio.base s)) s) in *.
    destruct (Z.ltb_spec mx 0) as [|Hmx];
      [split; [exact H0|intros [x Hx]; discriminate]|].
    (* the buffer is released when it is too small *)
    destruct (if Audio.bufferSize s0 <? mx then _ else _) as [s1 w1] eqn:E1.
    assert (H1 : audio_opened w0 s1 w1
                 /\ (is_Some (Audio.buffer s1) -> mx <= Audio.bufferSize s1)).
    { destruct (Z.ltb_spec (Audio.bufferSize s0) mx) as [Hlt|Hge];
        injection E1 as <- <-.
      - split; [exact (audio_opened_free w0 s0 w H0)|].
        destruct s0; simpl. intros [x Hx]; discriminate.
      - split; [exact H0|intros _; exact Hge]. }
    clear E1. destruct H1 as [H1 Hsz1].
    (* and allocated when there is none *)
    destruct (match Audio.buffer s1 with Some _ => _ | None => _ end)
      as [[s2 w2] failed] eqn:E2.
    assert (H2 : audio_opened w0 s2 w2
                 /\ (failed = false ->
                     is_Some (Audio.buffer s2) /\ mx <= Audio.bufferSize s2)).
    { destruct (Audio.buffer s1) as [b|] eqn:Hb1.
      - injection E2 as <- <- <-. split; [exact H1|].
        intros _. split; [rewrite Hb1; eauto|apply Hsz1; eauto].
      - pose proof (audio_opened_alloc w0 s1 w1 (Audio.av_malloc_ok e) mx
                      (replicate (Z.to_nat mx) x00) H1 Hb1) as HA.
        rewrite length_replicate in HA. specialize (HA ltac:(lia)).
        destruct (c_alloc _ _ w1) as [p wa]. cbn [fst snd] in HA.
        destruct s1 as [b1 sw1 bf1 bsz1].
        cbn [Audio.buffer Audio.set_buffer Audio.set_bufferSize] in E2.
        destruct p; injection E2 as <- <- <-;
          (split; [exact HA|]); [|discriminate].
        intros _. simpl. split; [eauto|lia]. }
    clear E2. destruct H2 as [H2 Hsz2].
    destruct failed; [split; [exact H2|intros [x Hx]; discriminate]|].
    destruct (Hsz2 eq_refl) as [[b Hb] Hle].
    rewrite Hb.
    destruct (audio_opened_write w0 s2 w2 b (Audio.swr_convert_out e) H2 Hb) as [H3 _].
    destruct (Audio.swr_convert_r e <? 0);
      [split; [exact H3|intros [x Hx]; discriminate]|].
    unfold GoBytes.
    destruct (go_alloc _ (c_write b (Audio.swr_convert_out e) w2)) as [data w4] eqn:Ea.
    assert (Hc4 : cheap w4 = cheap (c_write b (Audio.swr_convert_out e) w2)).
    { unfold go_alloc in Ea. injection Ea as _ <-. reflexivity. }
    split; [exact (audio_opened_cheap w0 s2 _ w4 Hc4 H3)|intros _; exact Hle].
Qed.

Lemma audio_reads_audio_opened (es : list Audio.read_env) (m : Media) (w0 : Mem)
    (s : Audio.AudioStream) (w : Mem) :
  audio_opened w0 s w ->
  audio_opened w0 (Audio.reads es m s w).1 (Audio.reads es m s w).2.
Proof.
  revert s w. induction es as [|e es IH]; intros s w Hinv; [exact Hinv|].
  cbn [Audio.reads].
  pose proof (ReadAudioFrame_audio_opened e m w0 s w Hinv) as Hstep.
  destruct (Audio.ReadAudioFrame e m s w) as [[s1 w1] r].
  apply IH, Hstep.
Qed.

End AudioLife.

Lemma Open_audio_opened (e : Audio.open_env) (s s1 : Audio.AudioStream) (w w1 : Mem) :
  filterCtx (Audio.base s) = None -> filterInPacket (Audio.base s) = None ->
  filterOutPacket (Audio.base s) = None -> Audio.swrCtx s = None ->
  Audio.Open e s w = (s1, w1, None) ->
  audio_opened w s1 w1 /\ opened (Audio.base s1) = true.
Proof.
  intros Hfc Hfi Hfo Hsw.
  destruct s as [b sw0 bf bsz]. destruct b as [i pa c cc0 fr0 fa fc fi fo sk op].
  simpl in Hfc, Hfi, Hfo, Hsw. subst fc fi fo sw0. destruct w as [h g].
  unfold Audio.Open, open, Audio.swr_alloc_set_opts2, c_alloc.
  cbn [Audio.base Audio.set_base cheap goheap set_cheap].
  destruct (avcodec_alloc_context3_ok (Audio.base_open e)); [|discriminate].
  cbn [codecCtx set_codecCtx cheap goheap set_cheap].
  destruct (avcodec_parameters_to_context_r (Audio.base_open e) <? 0); [discriminate|].
  destruct (avcodec_open2_r (Audio.base_open e) <? 0); [discriminate|].
  destruct (av_frame_alloc_ok (Audio.base_open e)); [|discriminate].
  cbn [frame set_frame set_codecCtx cheap goheap set_cheap].
  destruct (Audio.swr_alloc_set_opts2_ok e);
    cbn [Audio.swrCtx Audio.set_swrCtx Audio.set_base cheap goheap set_cheap c_free];
    [|discriminate].
  destruct (Audio.swr_init_r e <? 0); [discriminate|].
  pose proof (fresh_lookup h) as H1.
  set (k1 := fresh (dom h)) in *.
  pose proof (fresh_lookup (<[k1:=CCodecCtx]> h)) as H2.
  set (k2 := fresh (dom (<[k1:=CCodecCtx]> h))) in *.
  pose proof (fresh_lookup (<[k2:=CFrame None]> (<[k1:=CCodecCtx]> h))) as H3.
  set (k3 := fresh (dom (<[k2:=CFrame None]> (<[k1:=CCodecCtx]> h)))) in *.
  fresh_facts H2. fresh_facts H3.
  intros H. injection H as <- <-. split; [|reflexivity].
  exists k1, k2, k3.
  cbn [Audio.base Audio.set_buffer Audio.buffer Audio.swrCtx codecCtx frame filterCtx
       filterInPacket filterOutPacket set_opened cheap set_cheap goheap].
  split; [repeat split; reflexivity|].
  split.
  { repeat split; rewrite ?lookup_insert; repeat case_decide; subst; try congruence;
      reflexivity. }
  split; [repeat split; assumption|].
  intros k Hk1 Hk2 Hk3.
  rewrite ?lookup_insert. repeat case_decide; subst; try congruence; reflexivity.
Qed.

(** Close on an open audio stream releases all that it holds. *)
Lemma Close_audio_opened (w0 : Mem) (s : Audio.AudioStream) (w : Mem) :
  audio_opened w0 s w ->
  exists s' w', Audio.Close s w = (s', w', None) /\ cheap w' = cheap w0.
Proof.
  intros (cc & fr & sw & Hfields & Hlive & Hnew & Hbuf).
  destruct Hfields as (Hcc & Hfr & Hsw & Hfc & Hfi & Hfo).
  destruct Hlive as (Lcc & Lfr & Lsw).
  destruct Hnew as (Ncc & Nfr & Nsw).
  destruct s as [b sw0 bf bsz]. destruct b as [i pa c cc0 fr0 fa fc fi fo sk op].
  simpl in *. subst. destruct w as [h g]. simpl in *.
  unfold Audio.Close, close.
  cbn [Audio.base Audio.set_base frame codecCtx filterCtx filterInPacket filterOutPacket
       set_frame set_codecCtx set_opened Audio.buffer Audio.swrCtx
       Audio.set_buffer Audio.set_swrCtx c_free cheap set_cheap goheap].
  eexists _, _. split; [reflexivity|].
  destruct bf as [bb|]; cbn [c_free cheap set_cheap goheap].
  - destruct Hbuf as ((bs & Lb & _) & Nb & Hframe).
    apply map_eq. intros k. rewrite ?lookup_delete.
    repeat case_decide; subst; try congruence.
    apply Hframe; congruence.
  - apply map_eq. intros k. rewrite ?lookup_delete.
    repeat case_decide; subst; try congruence.
    apply Hbuf; congruence.
Qed.

Section AudioLifeTheorems.
Context {platform : Platform}.

(** Open, read, close: after Open succeeds on an audio stream that has no
    filter and no resampler yet, any run of ReadAudioFrame calls, with
    whatever buffer growth and whatever failures, followed by Close leaves
    the native heap exactly as it was before Open. *)
Theorem Audio_lifecycle_restores_heap (e : Audio.open_env) (m : Media)
    (s s1 : Audio.AudioStream) (w w1 : Mem) (es : list Audio.read_env) :
  filterCtx (Audio.base s) = None -> filterInPacket (Audio.base s) = None ->
  filterOutPacket (Audio.base s) = None -> Audio.swrCtx s = None ->
  Audio.Open e s w = (s1, w1, None) ->
  exists s3 w3,
    Audio.Close (Audio.reads es m s1 w1).1 (Audio.reads es m s1 w1).2 = (s3, w3, None)
    /\ cheap w3 = cheap w.
Proof.
  intros Hfc Hfi Hfo Hsw Hopen.
  destruct (Open_audio_opened _ _ _ _ _ Hfc Hfi Hfo Hsw Hopen) as [Hinv _].
  apply Close_audio_opened, audio_reads_audio_opened, Hinv.
Qed.

(** In a session opened in that way, every frame that ReadAudioFrame
    returns holds exactly as many bytes as the frame required. *)
Theorem AudioFrame_data_length (eo : Audio.open_env) (m : Media)
    (s s1 s' : Audio.AudioStream) (w w1 w' : Mem) (es : list Audio.read_env)
    (e : Audio.read_env) (f : AudioFrame) (more : bool) (er : option error) :
  filterCtx (Audio.base s) = None -> filterInPacket (Audio.base s) = None ->
  filterOutPacket (Audio.base s) = None -> Audio.swrCtx s = None ->
  Audio.Open eo s w = (s1, w1, None) ->
  Audio.ReadAudioFrame e m (Audio.reads es m s1 w1).1 (Audio.reads es m s1 w1).2
  = (s', w', (Some f, more, er)) ->
  length (go_bytes w' (AudioFrameM.Data f))
  = Z.to_nat (Audio.av_samples_get_buffer_size_r e).
Proof.
  intros Hfc Hfi Hfo Hsw Hopen Hread.
  destruct (Open_audio_opened _ _ _ _ _ Hfc Hfi Hfo Hsw Hopen) as [Hinv _].
  pose proof (audio_reads_audio_opened es m w s1 w1 Hinv) as Hinv2.
  pose proof (ReadAudioFrame_audio_opened e m w _ _ Hinv2) as Hstep.
  rewrite Hread in Hstep. destruct Hstep as [Hinv3 Hle].
  specialize (Hle ltac:(simpl; eauto)).
  destruct (ReadAudioFrame_payload _ _ _ _ _ _ _ _ _ Hread) as (buf & Hb & Hbytes).
  destruct Hinv3 as (cc & fr & sw & _ & _ & _ & Hbuf).
  rewrite Hb in Hbuf. destruct Hbuf as ((bs & Lb & Hlen) & _).
  rewrite Hbytes. unfold c_bytes. rewrite Lb. simpl.
  rewrite length_take. lia.
Qed.

End AudioLifeTheorems.

Lemma Audio_lifecycle_restores_heap_witness :
  exists s3 w3,
    Audio.Close (@Audio.reads linux shrinking_session sample_media opened_audio
                   opened_audio_mem).1
                (@Audio.reads linux shrinking_session sample_media opened_audio
                   opened_audio_mem).2 = (s3, w3, None)
    /\ cheap w3 = cheap empty_mem.
Proof.
  apply (@Audio_lifecycle_restores_heap linux (audio_open_env open_ok 0) sample_media
           sample_audio opened_audio empty_mem opened_audio_mem shrinking_session
           eq_refl eq_refl eq_refl eq_refl).
  vm_compute. reflexivity.
Defined.

Lemma AudioFrame_data_length_witness :
  match @Audio.ReadAudioFrame linux (audio_env rd_frame 200 true []) sample_media
          opened_audio opened_audio_mem with
  | (_, w', (Some f, _, _)) => length (go_bytes w' (AudioFrameM.Data f)) = 200%nat
  | _ => False
  end.
Proof.
  pose proof (@AudioFrame_data_length linux (audio_open_env open_ok 0) sample_media
                sample_audio opened_audio) as T.
  destruct (@Audio.ReadAudioFrame linux (audio_env rd_frame 200 true []) sample_media
              opened_audio opened_audio_mem) as [[s' w'] [[[f|] more] er]] eqn:E.
  - exact (T s' empty_mem opened_audio_mem w' [] (audio_env rd_frame 200 true []) f more er
             eq_refl eq_refl eq_refl eq_refl eq_refl E).
  - vm_compute in E. discriminate.
Defined.

(** ** Stream discovery: what the list of streams is like *)

(** The pointers the loop appends are new and all different. *)
Lemma find_loop_nodup (dec : Z -> option AVCodec) (inners : list AVStream)
    (acc : list (option positive)) (st : MediaM.GoStore) :
  exists ps,
    (MediaM.find_loop dec inners acc st).1 = acc ++ (Some <$> ps)
    /\ NoDup ps
    /\ forall p, p ∈ ps -> p ∉ dom (MediaM.objects st).
Proof.
  revert acc st. induction inners as [|x rest IH]; intros acc st.
  - exists []. simpl. rewrite app_nil_r. split; [reflexivity|].
    split; [constructor|]. intros p Hp. inversion Hp.
  - cbn [MediaM.find_loop]. unfold MediaM.new_object.
    set (p := fresh (dom (MediaM.objects st))).
    assert (Hp : p ∉ dom (MediaM.objects st)) by apply is_fresh.
    set (st1 := MediaM.set_objects _ st).
    destruct (IH (acc ++ [Some p]) st1) as (ps & Hptrs & Hnd & Hfresh).
    exists (p :: ps). split; [|split].
    + rewrite Hptrs, <- app_assoc. reflexivity.
    + constructor; [|exact Hnd]. intros Hin. apply (Hfresh p Hin).
      unfold st1. simpl. rewrite dom_insert_L. set_solver.
    + intros q Hq. apply elem_of_cons in Hq. destruct Hq as [->|Hq]; [exact Hp|].
      intros Hd. apply (Hfresh q Hq). unfold st1. simpl. rewrite dom_insert_L.
      set_solver.
Qed.

(** What a successful [findStreams] leaves: the media with a new list,
    the pointers of the list, and the objects behind them. *)
Lemma findStreams_spec (e : MediaM.find_env) (m m' : Media) (st st' : MediaM.GoStore) :
  MediaM.findStreams e m st = (m', st', None) ->
  exists ps a,
    m' = set_streams (Some {| arr := a; len := length ps |}) m
    /\ (a ∉ dom (MediaM.arrays st))
    /\ MediaM.arrays st' = <[a := Some <$> ps]> (MediaM.arrays st)
    /\ length ps = length (MediaM.ctx_streams e)
    /\ NoDup ps
    /\ (forall q, q ∈ dom (MediaM.objects st) ->
          MediaM.objects st' !! q = MediaM.objects st !! q)
    /\ (forall i innerStream,
          MediaM.ctx_streams e !! i = Some innerStream ->
          exists p, ps !! i = Some p
                    /\ (p ∉ dom (MediaM.objects st))
                    /\ MediaM.objects st' !! p
                       = Some (MediaM.classify (MediaM.avcodec_find_decoder e) innerStream)).
Proof.
  unfold MediaM.findStreams.
  destruct (MediaM.avformat_find_stream_info_r e <? 0); [discriminate|].
  pose proof (find_loop_spec (MediaM.avcodec_find_decoder e) (MediaM.ctx_streams e) [] st)
    as Hloop.
  destruct (find_loop_nodup (MediaM.avcodec_find_decoder e) (MediaM.ctx_streams e) [] st)
    as (ps' & Hps' & Hnd & _).
  destruct (MediaM.find_loop _ _ [] st) as [ptrs st1].
  destruct Hloop as (Harr & Hold & ps & Hptrs & Hlen & Hall).
  simpl in Hptrs, Hps'.
  assert (ps' = ps).
  { apply (inj (fmap Some)). congruence. }
  subst ps'.
  intros H. injection H as <- <-.
  exists ps, (fresh (dom (MediaM.arrays st1))).
  rewrite Hptrs, length_fmap. split; [reflexivity|].
  split; [rewrite <- Harr; apply is_fresh|].
  split; [simpl; rewrite Harr; reflexivity|].
  split; [exact Hlen|]. split; [exact Hnd|]. split; [exact Hold|exact Hall].
Qed.

Lemma findStreams_elems (e : MediaM.find_env) (m m' : Media) (st st' : MediaM.GoStore)
    (ps : list positive) (a : positive) :
  m' = set_streams (Some {| arr := a; len := length ps |}) m ->
  MediaM.arrays st' = <[a := Some <$> ps]> (MediaM.arrays st) ->
  MediaM.elems st' (streams m') = Some <$> ps.
Proof.
  intros -> Ha. unfold MediaM.elems. simpl. rewrite Ha, lookup_insert_eq. simpl.
  apply take_ge. rewrite length_fmap. lia.
Qed.

(** After a successful discovery the media's list of streams is a live
    slice with one pointer per native sub-stream; the pointers are all
    different and none is nil, so each sub-stream has a stream object of
    its own; what was in the store before is untouched, and so are the
    other fields of the media. *)
Theorem findStreams_list (e : MediaM.find_env) (m m' : Media) (st st' : MediaM.GoStore) :
  MediaM.findStreams e m st = (m', st', None) ->
  MediaM.slice_valid st' (streams m')
  /\ (exists ps, MediaM.elems st' (streams m') = Some <$> ps
                 /\ NoDup ps
                 /\ length ps = length (MediaM.ctx_streams e)
                 /\ forall p, p ∈ ps -> is_Some (MediaM.objects st' !! p)
                                        /\ MediaM.objects st !! p = None)
  /\ (forall q, q ∈ dom (MediaM.objects st) ->
        MediaM.objects st' !! q = MediaM.objects st !! q)
  /\ (forall b, b ∈ dom (MediaM.arrays st) ->
        MediaM.arrays st' !! b = MediaM.arrays st !! b)
  /\ ctx m' = ctx m /\ packet m' = packet m /\ opts m' = opts m.
Proof.
  intros Hfind.
  destruct (findStreams_spec e m m' st st' Hfind)
    as (ps & a & Hm & Ha & Harr & Hlen & Hnd & Hold & Hall).
  split.
  { rewrite Hm. simpl. exists (Some <$> ps). rewrite Harr, lookup_insert_eq.
    split; [reflexivity|]. rewrite length_fmap. lia. }
  split.
  { exists ps. split; [exact (findStreams_elems e m m' st st' ps a Hm Harr)|].
    split; [exact Hnd|]. split; [exact Hlen|].
    intros p Hp. apply list_elem_of_lookup in Hp. destruct Hp as [i Hi].
    assert (Hlt : (i < length (MediaM.ctx_streams e))%nat).
    { rewrite <- Hlen. eapply lookup_lt_Some, Hi. }
    destruct (lookup_lt_is_Some_2 _ _ Hlt) as [x Hx].
    destruct (Hall i x Hx) as (p' & Hp' & Hfresh & Hobj).
    assert (p' = p) by congruence. subst p'.
    split; [eauto|]. apply not_elem_of_dom, Hfresh. }
  split; [exact Hold|].
  split.
  { intros b Hb. rewrite Harr. apply lookup_insert_ne. intros <-. contradiction. }
  rewrite Hm. auto.
Qed.

Lemma findStreams_list_witness :
  MediaM.slice_valid found_store (streams found_media).
Proof.
  refine (proj1 (findStreams_list (find_env_ok two_streams) sample_media found_media
                   empty_store found_store _)).
  vm_compute. reflexivity.
Defined.

(** Every stream object that discovery makes: its type, its codec. *)
Lemma classify_type_codec (dec : Z -> option AVCodec) (i : AVStream) :
  (kind_of (MediaM.classify dec i) = KVideo ->
   Type_ (base_of (MediaM.classify dec i)) = StreamVideo)
  /\ (kind_of (MediaM.classify dec i) = KAudio ->
      Type_ (base_of (MediaM.classify dec i)) = StreamAudio)
  /\ (kind_of (MediaM.classify dec i) <> KUnknown ->
      is_Some (dec (codec_id (codecpar i))))
  /\ filterCtx (base_of (MediaM.classify dec i)) = None
  /\ opened (base_of (MediaM.classify dec i)) = false.
Proof.
  unfold MediaM.classify, Type_, StreamVideo, StreamAudio,
    AVMEDIA_TYPE_VIDEO, AVMEDIA_TYPE_AUDIO.
  destruct (dec (codec_id (codecpar i))) as [c|].
  - destruct (Z.eqb_spec (codec_type (codecpar i)) 0) as [Hv|Hv].
    + simpl. repeat split; try discriminate; eauto.
    + destruct (Z.eqb_spec (codec_type (codecpar i)) 1) as [Ha|Ha];
        simpl; repeat split; try discriminate; try congruence; eauto.
  - simpl. repeat split; try discriminate; congruence.
Qed.

(** For every stream in the list that discovery leaves: a VideoStream has
    type StreamVideo, printed "video", and an AudioStream has type
    StreamAudio, printed "audio"; CodecName and CodecLongName return on
    every VideoStream and AudioStream, and stop the program exactly on the
    streams for whose codec id no decoder was found. *)
Theorem findStreams_types_and_codecs (e : MediaM.find_env) (m m' : Media)
    (st st' : MediaM.GoStore) (i : nat) (p : positive) :
  MediaM.findStreams e m st = (m', st', None) ->
  MediaM.elems st' (streams m') !! i = Some (Some p) ->
  exists obj innerStream,
    MediaM.objects st' !! p = Some obj
    /\ MediaM.ctx_streams e !! i = Some innerStream
    /\ (kind_of obj = KVideo ->
        Type_ (base_of obj) = StreamVideo
        /\ StreamType_String (Type_ (base_of obj)) = "video"%string)
    /\ (kind_of obj = KAudio ->
        Type_ (base_of obj) = StreamAudio
        /\ StreamType_String (Type_ (base_of obj)) = "audio"%string)
    /\ (kind_of obj <> KUnknown ->
        exists n l, CodecName (base_of obj) = Done n
                    /\ CodecLongName (base_of obj) = Done l)
    /\ (CodecName (base_of obj) = Panic <->
        MediaM.avcodec_find_decoder e (codec_id (codecpar innerStream)) = None)
    /\ (CodecLongName (base_of obj) = Panic <->
        MediaM.avcodec_find_decoder e (codec_id (codecpar innerStream)) = None).
Proof.
  intros Hfind Hi.
  destruct (findStreams_spec e m m' st st' Hfind)
    as (ps & a & Hm & Ha & Harr & Hlen & Hnd & Hold & Hall).
  rewrite (findStreams_elems e m m' st st' ps a Hm Harr) in Hi.
  rewrite list_lookup_fmap in Hi.
  destruct (ps !! i) as [p'|] eqn:Hp; [|discriminate]. injection Hi as ->.
  assert (Hlt : (i < length (MediaM.ctx_streams e))%nat).
  { rewrite <- Hlen. eapply lookup_lt_Some, Hp. }
  destruct (lookup_lt_is_Some_2 _ _ Hlt) as [x Hx].
  destruct (Hall i x Hx) as (p' & Hp' & _ & Hobj).
  assert (p' = p) by congruence. subst p'.
  exists (MediaM.classify (MediaM.avcodec_find_decoder e) x), x.
  split; [exact Hobj|]. split; [exact Hx|].
  destruct (classify_type_codec (MediaM.avcodec_find_decoder e) x)
    as (Hv & Hau & Hsome & _ & _).
  destruct (classify_base (MediaM.avcodec_find_decoder e) x) as (_ & _ & Hc).
  unfold CodecName, CodecLongName. rewrite Hc.
  split; [intros Hk; rewrite (Hv Hk); split; reflexivity|].
  split; [intros Hk; rewrite (Hau Hk); split; reflexivity|].
  split.
  { intros Hk. destruct (Hsome Hk) as [c ->]. eauto. }
  destruct (MediaM.avcodec_find_decoder e (codec_id (codecpar x)));
    split; split; congruence.
Qed.

Lemma findStreams_types_and_codecs_witness :
  exists obj innerStream,
    MediaM.objects found_store !! 1%positive = Some obj
    /\ MediaM.ctx_streams (find_env_ok two_streams) !! 0%nat = Some innerStream.
Proof.
  destruct (findStreams_types_and_codecs (find_env_ok two_streams) sample_media
              found_media empty_store found_store 0 1) as (obj & x & H1 & H2 & _).
  - vm_compute. reflexivity.
  - vm_compute. reflexivity.
  - exists obj, x. auto.
Defined.

(** ** VideoStreams and AudioStreams *)

Lemma video_loop_spec (st : MediaM.GoStore) (xs : list (option positive))
    (acc : list positive) :
  exists l,
    MediaM.video_loop st xs acc = acc ++ l
    /\ sublist (Some <$> l) xs
    /\ forall p, p ∈ l <->
         Some p ∈ xs /\ exists v, MediaM.objects st !! p = Some (SVideo v).
Proof.
  revert acc. induction xs as [|x rest IH]; intros acc.
  - exists []. simpl. rewrite app_nil_r. split; [reflexivity|].
    split; [constructor|]. intros p. split; [intros H; inversion H|].
    intros [H _]. inversion H.
  - cbn [MediaM.video_loop].
    assert (Hskip : (forall v, x ≫= (fun p => MediaM.objects st !! p) <> Some (SVideo v)) ->
              exists l, MediaM.video_loop st rest acc = acc ++ l
                /\ sublist (Some <$> l) (x :: rest)
                /\ forall p, p ∈ l <->
                     Some p ∈ x :: rest
                     /\ exists v, MediaM.objects st !! p = Some (SVideo v)).
    { intros Hx. destruct (IH acc) as (l & Hl & Hsub & Hin).
      exists l. split; [exact Hl|]. split; [constructor; exact Hsub|].
      intros p. rewrite Hin, elem_of_cons. split; [intros [H1 H2]; auto|].
      intros [[Hp|Hp] [v Hv]]; [|eauto].
      exfalso. apply (Hx v). rewrite <- Hp. exact Hv. }
    destruct x as [q|]; [|apply Hskip; discriminate].
    destruct (MediaM.objects st !! q) as [[v|au|u]|] eqn:Hq;
      try (apply Hskip; simpl; rewrite Hq; congruence).
    destruct (IH (acc ++ [q])) as (l & Hl & Hsub & Hin).
    exists (q :: l). split; [rewrite Hl, <- app_assoc; reflexivity|].
    split; [simpl; constructor; exact Hsub|].
    intros p. rewrite !elem_of_cons, Hin. split.
    + intros [->|[H1 H2]]; [eauto|auto].
    + intros [[Hp|Hp] Hv]; [left; congruence|auto].
Qed.

Lemma audio_loop_spec (st : MediaM.GoStore) (xs : list (option positive))
    (acc : list positive) :
  exists l,
    MediaM.audio_loop st xs acc = acc ++ l
    /\ sublist (Some <$> l) xs
    /\ forall p, p ∈ l <->
         Some p ∈ xs /\ exists v, MediaM.objects st !! p = Some (SAudio v).
Proof.
  revert acc. induction xs as [|x rest IH]; intros acc.
  - exists []. simpl. rewrite app_nil_r. split; [reflexivity|].
    split; [constructor|]. intros p. split; [intros H; inversion H|].
    intros [H _]. inversion H.
  - cbn [MediaM.audio_loop].
    assert (Hskip : (forall v, x ≫= (fun p => MediaM.objects st !! p) <> Some (SAudio v)) ->
              exists l, MediaM.audio_loop st rest acc = acc ++ l
                /\ sublist (Some <$> l) (x :: rest)
                /\ forall p, p ∈ l <->
                     Some p ∈ x :: rest
                     /\ exists v, MediaM.objects st !! p = Some (SAudio v)).
    { intros Hx. destruct (IH acc) as (l & Hl & Hsub & Hin).
      exists l. split; [exact Hl|]. split; [constructor; exact Hsub|].
      intros p. rewrite Hin, elem_of_cons. split; [intros [H1 H2]; auto|].
      intros [[Hp|Hp] [v Hv]]; [|eauto].
      exfalso. apply (Hx v). rewrite <- Hp. exact Hv. }
    destruct x as [q|]; [|apply Hskip; discriminate].
    destruct (MediaM.objects st !! q) as [[v|au|u]|] eqn:Hq;
      try (apply Hskip; simpl; rewrite Hq; congruence).
    destruct (IH (acc ++ [q])) as (l & Hl & Hsub & Hin).
    exists (q :: l). split; [rewrite Hl, <- app_assoc; reflexivity|].
    split; [simpl; constructor; exact Hsub|].
    intros p. rewrite !elem_of_cons, Hin. split.
    + intros [->|[H1 H2]]; [eauto|auto].
    + intros [[Hp|Hp] Hv]; [left; congruence|auto].
Qed.

(** VideoStreams returns the pointers of the media's list whose object is a
    VideoStream, and AudioStreams those whose object is an AudioStream: each
    is a sub-list of the list of streams, in the same order, and no stream
    is in both. *)
Theorem VideoStreams_AudioStreams (m : Media) (st : MediaM.GoStore) :
  sublist (Some <$> MediaM.VideoStreams m st) (MediaM.elems st (streams m))
  /\ sublist (Some <$> MediaM.AudioStreams m st) (MediaM.elems st (streams m))
  /\ (forall p, p ∈ MediaM.VideoStreams m st <->
        Some p ∈ MediaM.elems st (streams m)
        /\ exists v, MediaM.objects st !! p = Some (SVideo v))
  /\ (forall p, p ∈ MediaM.AudioStreams m st <->
        Some p ∈ MediaM.elems st (streams m)
        /\ exists a, MediaM.objects st !! p = Some (SAudio a))
  /\ (forall p, p ∈ MediaM.VideoStreams m st -> p ∉ MediaM.AudioStreams m st).
Proof.
  unfold MediaM.VideoStreams, MediaM.AudioStreams.
  destruct (video_loop_spec st (MediaM.elems st (streams m)) []) as (lv & Hv & Hsv & Hiv).
  destruct (audio_loop_spec st (MediaM.elems st (streams m)) []) as (la & Ha & Hsa & Hia).
  rewrite Hv, Ha. simpl.
  split; [exact Hsv|]. split; [exact Hsa|]. split; [exact Hiv|]. split; [exact Hia|].
  intros p Hp Hq. apply Hiv in Hp. apply Hia in Hq.
  destruct Hp as [_ [v Hv']]. destruct Hq as [_ [a Ha']]. congruence.
Qed.

(** ** Packets of a discovered media *)

Lemma findStreams_lookup (e : MediaM.find_env) (m m' : Media) (st st' : MediaM.GoStore)
    (i : nat) (x : AVStream) :
  MediaM.findStreams e m st = (m', st', None) ->
  MediaM.ctx_streams e !! i = Some x ->
  MediaM.slice_valid st' (streams m')
  /\ length (MediaM.elems st' (streams m')) = length (MediaM.ctx_streams e)
  /\ exists p, MediaM.elems st' (streams m') !! i = Some (Some p)
               /\ MediaM.objects st' !! p
                  = Some (MediaM.classify (MediaM.avcodec_find_decoder e) x).
Proof.
  intros Hfind Hx.
  destruct (findStreams_spec e m m' st st' Hfind)
    as (ps & a & Hm & Ha & Harr & Hlen & Hnd & Hold & Hall).
  rewrite (findStreams_elems e m m' st st' ps a Hm Harr).
  split.
  { rewrite Hm. simpl. exists (Some <$> ps). rewrite Harr, lookup_insert_eq.
    split; [reflexivity|]. rewrite length_fmap. lia. }
  split; [rewrite length_fmap; exact Hlen|].
  destruct (Hall i x Hx) as (p & Hp & _ & Hobj).
  exists p. rewrite list_lookup_fmap, Hp. split; [reflexivity|exact Hobj].
Qed.

Section ReadPacketDiscovered.
Context {platform : Platform}.

(** On a media as stream discovery leaves it, after a native read that
    succeeds: if the media has no packet, because OpenDecode was not called,
    ReadPacket stops the program on the nil packet.  If it has one and the
    packet's stream index is the index of a discovered stream, ReadPacket
    returns the packet the native read produced, with [true] and no error:
    no stream has a filter then, and what the filter calls would return is
    not looked at.  When the index is negative or not below the number of
    discovered streams, ReadPacket stops the program with an index out of
    range. *)
Theorem ReadPacket_on_discovered_media (e : MediaM.find_env) (re : MediaM.read_env)
    (m m' : Media) (st st' : MediaM.GoStore) :
  MediaM.findStreams e m st = (m', st', None) ->
  0 <= MediaM.av_read_frame_r re ->
  (is_Some (packet m') ->
   0 <= stream_index (MediaM.read_pkt re) < Z.of_nat (length (MediaM.ctx_streams e)) ->
   MediaM.ReadPacket re m' st'
   = Done (Some (newPacket (MediaM.read_pkt re)), true, None))
  /\ (packet m' = None -> MediaM.ReadPacket re m' st' = Panic)
  /\ (~ 0 <= stream_index (MediaM.read_pkt re)
          < Z.of_nat (length (MediaM.ctx_streams e)) ->
      MediaM.ReadPacket re m' st' = Panic).
Proof.
  intros Hfind Hread. unfold MediaM.ReadPacket, MediaM.slice_get.
  destruct (Z.ltb_spec (MediaM.av_read_frame_r re) 0) as [|_]; [lia|].
  split; [|split].
  - intros [pk Hpk] [Hlo Hhi]. rewrite Hpk.
    destruct (Z.ltb_spec (stream_index (MediaM.read_pkt re)) 0) as [|_]; [lia|].
    assert (Hlt : (Z.to_nat (stream_index (MediaM.read_pkt re))
                   < length (MediaM.ctx_streams e))%nat) by lia.
    destruct (lookup_lt_is_Some_2 _ _ Hlt) as [x Hx].
    destruct (findStreams_lookup e m m' st st' _ x Hfind Hx)
      as (_ & _ & p & -> & ->).
    destruct (classify_type_codec (MediaM.avcodec_find_decoder e) x)
      as (_ & _ & _ & -> & _).
    reflexivity.
  - intros ->. reflexivity.
  - intros Hout. destruct (packet m') as [pk|]; [|reflexivity].
    destruct (Z.ltb_spec (stream_index (MediaM.read_pkt re)) 0) as [|Hlo];
      [reflexivity|].
    assert (Hge : (length (MediaM.ctx_streams e)
                   <= Z.to_nat (stream_index (MediaM.read_pkt re)))%nat) by lia.
    destruct (MediaM.elems st' (streams m') !! _) as [y|] eqn:Hy; [|reflexivity].
    apply lookup_lt_Some in Hy.
    destruct (MediaM.ctx_streams e) as [|x0 rest] eqn:Hss.
    + destruct (findStreams_spec e m m' st st' Hfind)
        as (ps & a & Hm & Ha & Harr & Hlen & _).
      rewrite (findStreams_elems e m m' st st' ps a Hm Harr), length_fmap, Hlen, Hss in Hy.
      simpl in Hy. lia.
    + assert (Hx0 : MediaM.ctx_streams e !! 0%nat = Some x0) by (rewrite Hss; reflexivity).
      destruct (findStreams_lookup e m m' st st' _ x0 Hfind Hx0) as (_ & Hl & _).
      rewrite Hl, Hss in Hy. lia.
Qed.

End ReadPacketDiscovered.

Lemma ReadPacket_on_discovered_media_witness :
  @MediaM.ReadPacket linux (packet_env 0) found_media found_store
  = Done (Some (newPacket sample_packet), true, None).
Proof.
  refine (proj1 (@ReadPacket_on_discovered_media linux (find_env_ok two_streams)
            (packet_env 0) sample_media found_media empty_store found_store _ _) _ _).
  - vm_compute. reflexivity.
  - simpl. lia.
  - vm_compute. eauto.
  - simpl. lia.
Defined.

(** The type of a packet is the native codec type of the discovered stream
    its stream index names, whatever stream object was made for it; asking
    for it leaves every stream object and the media's own list as they are,
    and stops the program when the index names no stream. *)
Theorem Packet_Type_on_discovered_media (e : MediaM.find_env) (p : Packet)
    (m m' : Media) (st st' : MediaM.GoStore) :
  MediaM.findStreams e m st = (m', st', None) ->
  (forall i x,
     MediaM.Packet_StreamIndex p = Z.of_nat i ->
     MediaM.ctx_streams e !! i = Some x ->
     exists st'',
       MediaM.Packet_Type p m' st' = Done (codec_type (codecpar x), st'')
       /\ MediaM.objects st'' = MediaM.objects st'
       /\ MediaM.elems st'' (streams m') = MediaM.elems st' (streams m'))
  /\ (~ 0 <= MediaM.Packet_StreamIndex p < Z.of_nat (length (MediaM.ctx_streams e)) ->
      MediaM.Packet_Type p m' st' = Panic).
Proof.
  intros Hfind.
  assert (Hvalid : MediaM.slice_valid st' (streams m')).
  { destruct (findStreams_spec e m m' st st' Hfind)
      as (ps & a & Hm & Ha & Harr & Hlen & _).
    rewrite Hm. simpl. exists (Some <$> ps). rewrite Harr, lookup_insert_eq.
    split; [reflexivity|]. rewrite length_fmap. lia. }
  assert (Hlen : length (MediaM.elems st' (streams m')) = length (MediaM.ctx_streams e)).
  { destruct (findStreams_spec e m m' st st' Hfind)
      as (ps & a & Hm & Ha & Harr & Hl & _).
    rewrite (findStreams_elems e m m' st st' ps a Hm Harr), length_fmap. exact Hl. }
  pose proof (Streams_spec m' st' Hvalid) as Hs.
  pose proof (elems_length st' (streams m') Hvalid) as Hel.
  unfold MediaM.Packet_Type, MediaM.Packet_StreamIndex.
  destruct (MediaM.Streams m' st') as [s1 st1].
  destruct Hs as (Hfresh & Hl1 & Harr1 & Hobj1).
  assert (He1 : MediaM.elems st1 (Some s1) = MediaM.elems st' (streams m')).
  { rewrite (elems_valid st1 s1 (MediaM.elems st' (streams m'))).
    - apply take_ge. rewrite Hl1, Hel. lia.
    - rewrite Harr1, lookup_insert_eq. reflexivity. }
  unfold MediaM.slice_get. rewrite He1. split.
  - intros i x Hi Hx. rewrite Hi.
    destruct (Z.ltb_spec (Z.of_nat i) 0) as [|_]; [lia|].
    rewrite Nat2Z.id.
    destruct (findStreams_lookup e m m' st st' i x Hfind Hx) as (_ & _ & q & -> & Hq).
    rewrite Hobj1, Hq. exists st1.
    destruct (classify_base (MediaM.avcodec_find_decoder e) x) as (_ & Hp & _).
    unfold Type_. rewrite Hp.
    split; [reflexivity|]. split; [exact Hobj1|].
    apply elems_agree. intros sl Hsl. rewrite Harr1.
    apply lookup_insert_ne. intros Heq.
    apply Hfresh. rewrite Heq. apply elem_of_dom.
    rewrite Hsl in Hvalid. destruct Hvalid as (xs & Hxs & _). eauto.
  - intros Hout.
    destruct (Z.ltb_spec (streamIndex p) 0) as [|Hlo]; [reflexivity|].
    destruct (MediaM.elems st' (streams m') !! _) as [y|] eqn:Hy; [|reflexivity].
    apply lookup_lt_Some in Hy. lia.
Qed.

Lemma Packet_Type_on_discovered_media_witness :
  exists st'',
    MediaM.Packet_Type (newPacket sample_packet) found_media found_store
    = Done (AVMEDIA_TYPE_VIDEO, st'').
Proof.
  destruct (proj1 (Packet_Type_on_discovered_media (find_env_ok two_streams)
              (newPacket sample_packet) sample_media found_media empty_store
              found_store ltac:(vm_compute; reflexivity))
              0%nat (sample_inner sample_tb 100) ltac:(reflexivity) ltac:(reflexivity))
    as (st'' & H & _).
  exists st''. exact H.
Defined.

(** ** Opening and closing the media for decoding *)

(** OpenDecode of a media fails exactly when the native packet cannot be
    allocated, and then leaves the media without a packet and the native
    heap as it was.  Whatever it returned, CloseDecode after it returns nil,
    leaves the media without a packet and every other field as before
    OpenDecode, and restores the native heap; a second CloseDecode changes
    nothing. *)
Theorem Media_OpenDecode_CloseDecode (ok : bool) (m : Media) (w : Mem) :
  let '(m1, w1, err1) := MediaM.OpenDecode ok m w in
  let '(m2, w2, err2) := MediaM.CloseDecode m1 w1 in
  (err1 = None <-> ok = true)
  /\ (ok = true ->
      exists p, packet m1 = Some p /\ cheap w !! p = None
                /\ cheap w1 = <[p := CPacket]> (cheap w))
  /\ (ok = false -> packet m1 = None /\ w1 = w)
  /\ err2 = None
  /\ m2 = set_packet None m
  /\ w2 = w
  /\ MediaM.CloseDecode m2 w2 = (m2, w2, None).
Proof.
  unfold MediaM.OpenDecode, MediaM.CloseDecode, c_alloc.
  destruct ok; cbn [packet set_packet c_free].
  - split; [split; auto|].
    split; [intros _; eexists; split; [reflexivity|]; split;
              [apply fresh_lookup|reflexivity]|].
    split; [discriminate|]. split; [reflexivity|]. split; [reflexivity|].
    split; [|reflexivity].
    destruct w as [h g]. unfold set_cheap. cbn [cheap goheap]. f_equal.
    apply delete_insert_id, fresh_lookup.
  - split; [split; discriminate|]. split; [discriminate|].
    split; [auto|]. auto.
Qed.

(** A media that already holds a packet loses track of it when OpenDecode
    is called again: after the second OpenDecode and one CloseDecode the
    first packet is still allocated, and the media no longer points to
    it. *)
Theorem Media_OpenDecode_twice_leaks (m : Media) (w : Mem) (p0 : positive) :
  packet m = Some p0 ->
  cheap w !! p0 = Some CPacket ->
  let '(m1, w1, _) := MediaM.OpenDecode true m w in
  let '(m2, w2, _) := MediaM.CloseDecode m1 w1 in
  packet m1 <> Some p0
  /\ cheap w1 !! p0 = Some CPacket
  /\ cheap w2 !! p0 = Some CPacket
  /\ packet m2 = None.
Proof.
  intros Hp Hlive.
  unfold MediaM.OpenDecode, MediaM.CloseDecode, c_alloc.
  cbn [packet set_packet c_free set_cheap cheap].
  assert (Hne : fresh (dom (cheap w)) <> p0).
  { intros Heq. pose proof (fresh_lookup (cheap w)) as Hf.
    rewrite Heq in Hf. congruence. }
  split; [congruence|].
  split; [rewrite lookup_insert_ne by exact Hne; exact Hlive|].
  split; [|reflexivity].
  rewrite lookup_delete_ne by exact Hne.
  rewrite lookup_insert_ne by exact Hne. exact Hlive.
Qed.

Lemma Media_OpenDecode_twice_leaks_witness :
  cheap (MediaM.CloseDecode
           (MediaM.OpenDecode true decoding_media decoding_mem).1.1
           (MediaM.OpenDecode true decoding_media decoding_mem).1.2).1.2 !! 1%positive
  = Some CPacket.
Proof.
  pose proof (Media_OpenDecode_twice_leaks decoding_media decoding_mem 1%positive
                ltac:(vm_compute; reflexivity) ltac:(vm_compute; reflexivity)) as H.
  vm_compute in H. vm_compute. exact (proj1 (proj2 (proj2 H))).
Defined.

(** ** The duration of the media *)

Lemma binary_round_aux_nonpos (m e : Z) (l : location) :
  f64_nonpos (binary_round_aux f64_prec f64_emax true m e l) = true.
Proof.
  unfold binary_round_aux.
  destruct (shr_fexp f64_prec f64_emax m e l) as [mrs' e'].
  destruct (shr_fexp f64_prec f64_emax _ e' loc_Exact) as [mrs'' e''].
  destruct (shr_m mrs''); [reflexivity| |reflexivity].
  destruct (e'' <=? f64_emax - f64_prec); reflexivity.
Qed.

Lemma f64_of_int_nonpos (z : Z) : z < 0 -> f64_nonpos (f64_of_int z) = true.
Proof.
  intros Hz. unfold f64_of_int, binary_normalize.
  destruct z as [|p|p]; [lia|lia|].
  unfold binary_round.
  destruct (shl_align p 0 _) as [mz ez].
  apply binary_round_aux_nonpos.
Qed.

Lemma f64_div_nonpos (x y : float64) :
  f64_nonpos x = true -> f64_nonneg y = true -> f64_nonpos (f64_div x y) = true.
Proof.
  unfold f64_div.
  destruct x as [[]|[]| |[] mx ex], y as [[]|[]| |[] my ey];
    simpl; intros Hx Hy; try discriminate; try reflexivity.
  destruct (SFdiv_core_binary f64_prec f64_emax (Z.pos mx) ex (Z.pos my) ey) as [[mz ez] lz].
  apply binary_round_aux_nonpos.
Qed.

Lemma ParseDuration_fs_nonpos (tm : float64) :
  f64_nonpos tm = true -> fst (ParseDuration_fs tm) <= 0.
Proof.
  destruct tm as [s|s| |s m e]; simpl; try (intros _; lia).
  intros Hs. destruct s; [clear Hs|discriminate].
  pose proof (micros_nonneg m e) as Hu.
  destruct (_ <? micros m e / 10 ^ 6); [simpl; lia|].
  destruct (Z.ltb_spec (2 ^ 63) (micros m e / 10 ^ 6 * Second + micros m e mod 10 ^ 6 * 1000))
    as [|Hd]; [simpl; lia|].
  cbn [fst].
  assert (0 <= micros m e / 10 ^ 6) by (apply Z.div_pos; lia).
  assert (0 <= micros m e mod 10 ^ 6) by (apply Z.mod_pos_bound; lia).
  rewrite wrap64_id; [unfold Second; lia|].
  unfold in_int64, int64_min, int64_max, Second in *. lia.
Qed.

(** The duration of the media has the sign of the native duration: it is
    not negative when the native duration is not, and it is not positive
    when the native duration is negative.  A negative native duration is
    not replaced by zero, as it is for a stream. *)
Theorem Media_Duration_sign (TimeBase dur : Z) :
  0 <= TimeBase ->
  (0 <= dur -> 0 <= fst (MediaM.Duration TimeBase dur))
  /\ (dur < 0 -> fst (MediaM.Duration TimeBase dur) <= 0).
Proof.
  intros Htb. unfold MediaM.Duration. split; intros Hd.
  - apply ParseDuration_fs_nonneg, f64_div_nonneg; apply f64_of_int_nonneg; lia.
  - apply ParseDuration_fs_nonpos, f64_div_nonpos;
      [apply f64_of_int_nonpos|apply f64_of_int_nonneg]; lia.
Qed.

Lemma Media_Duration_sign_witness :
  MediaM.Duration 1000000 (-1500000) = (-1500000000, None)
  /\ fst (MediaM.Duration 1000000 (-1500000)) <= 0.
Proof.
  split; [vm_compute; reflexivity|].
  apply (Media_Duration_sign 1000000 (-1500000)); lia.
Defined.

(** ** Opening a stream: what a failure leaves behind *)

(** [open] returns nil exactly when the codec context is allocated, the
    parameters are accepted, the codec opens and the frame is allocated.
    Only then does it mark the stream as opened; a failure leaves the mark
    as it was.  A failure after the codec context was allocated keeps that
    context, in the stream and in native memory, and nothing else. *)
Theorem open_outcome (e : open_env) (s : baseStream) (w : Mem) :
  let '(s', w', err) := open e s w in
  (err = None <->
   avcodec_alloc_context3_ok e = true /\ 0 <= avcodec_parameters_to_context_r e
   /\ 0 <= avcodec_open2_r e /\ av_frame_alloc_ok e = true)
  /\ (err = None ->
      opened s' = true
      /\ exists cc fr,
           codecCtx s' = Some cc /\ frame s' = Some fr /\ cc <> fr
           /\ cheap w !! cc = None /\ cheap w !! fr = None
           /\ cheap w' = <[fr := CFrame None]> (<[cc := CCodecCtx]> (cheap w)))
  /\ (err <> None -> opened s' = opened s)
  /\ (avcodec_alloc_context3_ok e = false -> codecCtx s' = None /\ w' = w)
  /\ (avcodec_alloc_context3_ok e = true -> err <> None ->
      exists cc,
        codecCtx s' = Some cc /\ cheap w !! cc = None
        /\ cheap w' = <[cc := CCodecCtx]> (cheap w)).
Proof.
  destruct w as [h g]. unfold open, c_alloc.
  cbn [cheap goheap set_cheap].
  destruct (avcodec_alloc_context3_ok e); cbn [codecCtx set_codecCtx].
  2: { split; [split; [discriminate|intros [? _]; discriminate]|].
       split; [discriminate|]. split; [reflexivity|].
       split; [auto|discriminate]. }
  pose proof (fresh_lookup h) as H1.
  destruct (Z.ltb_spec (avcodec_parameters_to_context_r e) 0) as [Hp|Hp].
  { split; [split; [discriminate|lia]|]. split; [discriminate|].
    split; [reflexivity|]. split; [discriminate|].
    intros _ _. eexists. repeat split; [exact H1]. }
  destruct (Z.ltb_spec (avcodec_open2_r e) 0) as [Ho|Ho].
  { split; [split; [discriminate|lia]|]. split; [discriminate|].
    split; [reflexivity|]. split; [discriminate|].
    intros _ _. eexists. repeat split; [exact H1]. }
  destruct (av_frame_alloc_ok e); cbn [frame set_frame cheap goheap set_cheap].
  - pose proof (fresh_lookup (<[fresh (dom h) := CCodecCtx]> h)) as H2.
    fresh_facts H2.
    split; [split; auto|]. split; [|split; [congruence|split; [discriminate|congruence]]].
    intros _. split; [reflexivity|].
    eexists _, _. repeat split; [congruence|exact H1|exact H2].
  - split; [split; [discriminate|intros (_ & _ & _ & ?); discriminate]|].
    split; [discriminate|]. split; [reflexivity|]. split; [discriminate|].
    intros _ _. eexists. repeat split; [exact H1].
Qed.
Lemma Mem_eq (w w' : Mem) : cheap w = cheap w' -> goheap w = goheap w' -> w = w'.
Proof. destruct w, w'. simpl. intros -> ->. reflexivity. Qed.

Lemma Video_Close_fields (vs : Video.VideoStream) (w : Mem) :
  let '(s1, _, e1) := Video.Close vs w in
  e1 = None /\ opened (Video.base s1) = false
  /\ codecCtx (Video.base s1) = None /\ frame (Video.base s1) = None
  /\ Video.rgbaFrame s1 = None /\ Video.swsCtx s1 = None.
Proof.
  unfold Video.Close.
  pose proof (close_fields (Video.base vs) w) as Hc.
  destruct (close (Video.base vs) w) as [[b w0] err].
  destruct Hc as (-> & Hcc & Hfr & Hfc & Hfi & Hfo & Hop & _).
  destruct vs as [b0 sc rf bs].
  destruct rf as [f|], sc as [c|]; cbn -[c_free Video.rgba_data0 close]; auto 8.
Qed.

Lemma Audio_Close_fields (aus : Audio.AudioStream) (w : Mem) :
  let '(s1, _, e1) := Audio.Close aus w in
  e1 = None /\ opened (Audio.base s1) = false
  /\ codecCtx (Audio.base s1) = None /\ frame (Audio.base s1) = None
  /\ Audio.buffer s1 = None /\ Audio.swrCtx s1 = None.
Proof.
  unfold Audio.Close.
  pose proof (close_fields (Audio.base aus) w) as Hc.
  destruct (close (Audio.base aus) w) as [[b w0] err].
  destruct Hc as (-> & Hcc & Hfr & Hfc & Hfi & Hfo & Hop & _).
  cbn -[c_free close]. auto 8.
Qed.

(** Whatever step of OpenDecode fails, or none, Close afterwards returns
    nil and gives back every native object that OpenDecode allocated: for a
    stream that held no frame, filter, RGBA frame or scaler before, native
    memory is as it was before OpenDecode, and the stream is not opened. *)
Theorem Video_Close_after_OpenDecode (e : Video.open_env) (wd ht alg : Z)
    (s : Video.VideoStream) (w : Mem) :
  frame (Video.base s) = None ->
  filterCtx (Video.base s) = None ->
  filterInPacket (Video.base s) = None ->
  filterOutPacket (Video.base s) = None ->
  Video.rgbaFrame s = None ->
  Video.swsCtx s = None ->
  let '(s1, w1, _) := Video.OpenDecode e wd ht alg s w in
  let '(s2, w2, err) := Video.Close s1 w1 in
  err = None /\ w2 = w /\ opened (Video.base s2) = false
  /\ codecCtx (Video.base s2) = None /\ frame (Video.base s2) = None
  /\ Video.rgbaFrame s2 = None /\ Video.swsCtx s2 = None.
Proof.
  intros Hfr Hfc Hfi Hfo Hrf Hsw.
  destruct (Video.OpenDecode e wd ht alg s w) as [[s1 w1] err1] eqn:Hopen.
  pose proof (Video_Close_fields s1 w1) as Hf.
  destruct (Video.Close s1 w1) as [[s2 w2] e2] eqn:Hclose.
  destruct Hf as (-> & Hop2 & Hcc2 & Hfr2 & Hrf2 & Hsw2).
  split; [reflexivity|]. split; [|auto 8].
  destruct err1 as [er|].
  2: { destruct (OpenDecode_video_opened e wd ht alg s s1 w w1 Hfc Hfi Hfo Hopen)
         as (Hvo & _ & Hg).
       destruct (Close_video_opened w s1 w1 Hvo) as (s' & w' & Hc & Hch & Hgo).
       rewrite Hc in Hclose. injection Hclose as _ <-.
       apply Mem_eq; congruence. }
  revert Hopen Hclose.
  destruct s as [b sws0 rf0 bsz]. destruct b as [i pa c cc0 fr0 fa fc fi fo sk op].
  simpl in Hfr, Hfc, Hfi, Hfo, Hrf, Hsw. subst fr0 fc fi fo rf0 sws0.
  destruct w as [h g].
  unfold Video.OpenDecode, open, Video.free_rgbaFrame, c_alloc.
  cbn [Video.base Video.set_base cheap goheap set_cheap].
  pose proof (fresh_lookup h) as H1.
  destruct (avcodec_alloc_context3_ok (Video.base_open e));
    cbn [codecCtx set_codecCtx cheap goheap set_cheap].
  2: { intros Ho; injection Ho as <- <- _. unfold Video.Close, close. simpl.
       intros Hc; injection Hc as _ <-. reflexivity. }
  set (k1 := fresh (dom h)) in *. set (h1 := <[k1:=CCodecCtx]> h) in *.
  assert (Hd1 : delete k1 h1 = h) by (apply delete_insert_id; exact H1).
  destruct (avcodec_parameters_to_context_r (Video.base_open e) <? 0).
  { intros Ho; injection Ho as <- <- _. unfold Video.Close, close. simpl.
    rewrite Hd1. intros Hc; injection Hc as _ <-. reflexivity. }
  destruct (avcodec_open2_r (Video.base_open e) <? 0).
  { intros Ho; injection Ho as <- <- _. unfold Video.Close, close. simpl.
    rewrite Hd1. intros Hc; injection Hc as _ <-. reflexivity. }
  pose proof (fresh_lookup h1) as H2.
  destruct (av_frame_alloc_ok (Video.base_open e));
    cbn [frame set_frame set_codecCtx cheap goheap set_cheap].
  2: { intros Ho; injection Ho as <- <- _. unfold Video.Close, close. simpl.
       rewrite Hd1. intros Hc; injection Hc as _ <-. reflexivity. }
  set (k2 := fresh (dom h1)) in *. set (h2 := <[k2:=CFrame None]> h1) in *.
  assert (Hd2 : delete k1 (delete k2 h2) = h).
  { unfold h2. rewrite delete_insert_id by exact H2. exact Hd1. }
  pose proof (fresh_lookup h2) as H3.
  destruct (Video.rgba_frame_alloc_ok e);
    cbn [Video.rgbaFrame Video.set_rgbaFrame Video.set_base Video.bufSize Video.set_bufSize
         cheap goheap set_cheap].
  2: { intros Ho; injection Ho as <- <- _. unfold Video.Close, close. simpl.
       rewrite Hd2. intros Hc; injection Hc as _ <-. reflexivity. }
  set (k3 := fresh (dom h2)) in *. set (h3 := <[k3:=CFrame None]> h2) in *.
  assert (Hd3 : delete k3 h3 = h2) by (apply delete_insert_id; exact H3).
  destruct (Video.av_image_get_buffer_size_r e <? 0).
  { intros Ho; injection Ho as <- <- _. unfold Video.Close, close. simpl.
    rewrite Hd3, Hd2. intros Hc; injection Hc as _ <-. reflexivity. }
  pose proof (fresh_lookup h3) as H4.
  destruct (Video.av_malloc_ok e); cbn [cheap goheap set_cheap c_free].
  2: { intros Ho; injection Ho as <- <- _. unfold Video.Close, close. simpl.
       rewrite Hd3, Hd2. intros Hc; injection Hc as _ <-. reflexivity. }
  set (k4 := fresh (dom h3)) in *. set (h4 := <[k4:=CBuffer _]> h3) in *.
  assert (Hd4 : delete k4 h4 = h3) by (apply delete_insert_id; exact H4).
  destruct (Video.av_image_fill_arrays_r e <? 0).
  { intros Ho; injection Ho as <- <- _. unfold Video.Close, close. simpl.
    rewrite Hd4, Hd3, Hd2. intros Hc; injection Hc as _ <-. reflexivity. }
  assert (Hk34 : k3 <> k4).
  { intros Heq. unfold h3 in H4. rewrite <- Heq, lookup_insert_eq in H4. discriminate. }
  set (h5 := <[k3:=CFrame (Some k4)]> h4) in *.
  assert (Hd5 : delete k3 (delete k4 h5) = h2).
  { apply map_eq. intros k.
    destruct (decide (k = k3)) as [->|Hk3].
    - rewrite lookup_delete_eq. symmetry. exact H3.
    - rewrite lookup_delete_ne by congruence.
      destruct (decide (k = k4)) as [->|Hk4].
      + rewrite lookup_delete_eq. symmetry. unfold h3 in H4.
        rewrite lookup_insert_ne in H4 by congruence. exact H4.
      + rewrite lookup_delete_ne by congruence. unfold h5, h4, h3.
        rewrite !lookup_insert_ne by congruence. reflexivity. }
  destruct (Video.sws_getContext_ok e);
    cbn [Video.swsCtx Video.set_swsCtx cheap goheap set_cheap]; [discriminate|].
  intros Ho; injection Ho as <- <- _. unfold Video.Close, close. simpl.
  rewrite Hd5, Hd2. intros Hc; injection Hc as _ <-. reflexivity.
Qed.

Lemma Video_Close_after_OpenDecode_witness :
  (Video.Close (Video.OpenDecode (video_open_env open_ok false) 2 1 4
                  sample_video empty_mem).1.1
               (Video.OpenDecode (video_open_env open_ok false) 2 1 4
                  sample_video empty_mem).1.2).1.2
  = empty_mem.
Proof.
  pose proof (Video_Close_after_OpenDecode (video_open_env open_ok false) 2 1 4
                sample_video empty_mem
                ltac:(reflexivity) ltac:(reflexivity) ltac:(reflexivity)
                ltac:(reflexivity) ltac:(reflexivity) ltac:(reflexivity)) as H.
  destruct (Video.OpenDecode _ 2 1 4 sample_video empty_mem) as [[s1 w1] e1].
  cbn [fst snd].
  destruct (Video.Close s1 w1) as [[s2 w2] e2].
  cbn [fst snd]. apply H.
Defined.

(** When OpenDecode of a video stream fails after [open] has succeeded, at
    the RGBA frame, the buffer size, the buffer, the image arrays or the
    scaler, the stream is left marked as opened, with its codec context and
    frame set and still allocated; what the later steps allocated is given
    back and the RGBA frame is nil. *)
Theorem Video_OpenDecode_failure_after_open (e : Video.open_env) (wd ht alg : Z)
    (s s' : Video.VideoStream) (w w' : Mem) (er : error) :
  avcodec_alloc_context3_ok (Video.base_open e) = true ->
  0 <= avcodec_parameters_to_context_r (Video.base_open e) ->
  0 <= avcodec_open2_r (Video.base_open e) ->
  av_frame_alloc_ok (Video.base_open e) = true ->
  Video.OpenDecode e wd ht alg s w = (s', w', Some er) ->
  opened (Video.base s') = true
  /\ Video.rgbaFrame s' = None
  /\ exists cc fr,
       codecCtx (Video.base s') = Some cc /\ frame (Video.base s') = Some fr
       /\ cc <> fr /\ cheap w !! cc = None /\ cheap w !! fr = None
       /\ cheap w' = <[fr := CFrame None]> (<[cc := CCodecCtx]> (cheap w)).
Proof.
  intros Hok1 Hok2 Hok3 Hok4.
  destruct s as [b sws0 rf0 bsz]. destruct w as [h g].
  unfold Video.OpenDecode, open, Video.free_rgbaFrame, c_alloc.
  cbn [Video.base Video.set_base cheap goheap set_cheap].
  rewrite Hok1. cbn [codecCtx set_codecCtx cheap goheap set_cheap].
  destruct (Z.ltb_spec (avcodec_parameters_to_context_r (Video.base_open e)) 0); [lia|].
  destruct (Z.ltb_spec (avcodec_open2_r (Video.base_open e)) 0); [lia|].
  rewrite Hok4. cbn [frame set_frame set_codecCtx cheap goheap set_cheap].
  pose proof (fresh_lookup h) as H1.
  set (k1 := fresh (dom h)) in *. set (h1 := <[k1:=CCodecCtx]> h) in *.
  pose proof (fresh_lookup h1) as H2.
  set (k2 := fresh (dom h1)) in *. set (h2 := <[k2:=CFrame None]> h1) in *.
  assert (Hk12 : k1 <> k2).
  { intros Heq. unfold h1 in H2. rewrite <- Heq, lookup_insert_eq in H2. discriminate. }
  assert (Hk2 : h !! k2 = None).
  { unfold h1 in H2. rewrite lookup_insert_ne in H2 by exact Hk12. exact H2. }
  pose proof (fresh_lookup h2) as H3.
  assert (Hfin : forall (s1 : Video.VideoStream) (w1 : Mem),
            cheap w1 = h2 ->
            opened (Video.base s1) = true -> Video.rgbaFrame s1 = None ->
            codecCtx (Video.base s1) = Some k1 -> frame (Video.base s1) = Some k2 ->
            opened (Video.base s1) = true
            /\ Video.rgbaFrame s1 = None
            /\ exists cc fr,
                 codecCtx (Video.base s1) = Some cc /\ frame (Video.base s1) = Some fr
                 /\ cc <> fr /\ h !! cc = None /\ h !! fr = None
                 /\ cheap w1 = <[fr := CFrame None]> (<[cc := CCodecCtx]> h)).
  { intros s1 w1 Hw Ho Hr Hc Hf. split; [exact Ho|]. split; [exact Hr|].
    exists k1, k2. repeat split; assumption. }
  destruct (Video.rgba_frame_alloc_ok e);
    cbn [Video.rgbaFrame Video.set_rgbaFrame Video.set_base Video.bufSize Video.set_bufSize
         cheap goheap set_cheap].
  2: { intros Ho; injection Ho as <- <- _. apply Hfin; reflexivity. }
  set (k3 := fresh (dom h2)) in *. set (h3 := <[k3:=CFrame None]> h2) in *.
  assert (Hd3 : delete k3 h3 = h2) by (apply delete_insert_id; exact H3).
  destruct (Video.av_image_get_buffer_size_r e <? 0).
  { intros Ho; injection Ho as <- <- _. apply Hfin; [exact Hd3|reflexivity..]. }
  pose proof (fresh_lookup h3) as H4.
  destruct (Video.av_malloc_ok e); cbn [cheap goheap set_cheap c_free].
  2: { intros Ho; injection Ho as <- <- _. apply Hfin; [exact Hd3|reflexivity..]. }
  set (k4 := fresh (dom h3)) in *. set (h4 := <[k4:=CBuffer _]> h3) in *.
  assert (Hd4 : delete k4 h4 = h3) by (apply delete_insert_id; exact H4).
  destruct (Video.av_image_fill_arrays_r e <? 0).
  { intros Ho; injection Ho as <- <- _.
    apply Hfin; [cbn [cheap set_cheap]; rewrite Hd4; exact Hd3|reflexivity..]. }
  assert (Hk34 : k3 <> k4).
  { intros Heq. unfold h3 in H4. rewrite <- Heq, lookup_insert_eq in H4. discriminate. }
  set (h5 := <[k3:=CFrame (Some k4)]> h4) in *.
  assert (Hd5 : delete k3 (delete k4 h5) = h2).
  { apply map_eq. intros k.
    destruct (decide (k = k3)) as [->|Hk3].
    - rewrite lookup_delete_eq. symmetry. exact H3.
    - rewrite lookup_delete_ne by congruence.
      destruct (decide (k = k4)) as [->|Hk4].
      + rewrite lookup_delete_eq. symmetry. unfold h3 in H4.
        rewrite lookup_insert_ne in H4 by congruence. exact H4.
      + rewrite lookup_delete_ne by congruence. unfold h5, h4, h3.
        rewrite !lookup_insert_ne by congruence. reflexivity. }
  destruct (Video.sws_getContext_ok e);
    cbn [Video.swsCtx Video.set_swsCtx cheap goheap set_cheap]; [discriminate|].
  intros Ho; injection Ho as <- <- _. apply Hfin; [exact Hd5|reflexivity..].
Qed.

Lemma Video_OpenDecode_failure_after_open_witness :
  opened (Video.base (Video.OpenDecode (video_open_env open_ok false) 2 1 4
                        sample_video empty_mem).1.1) = true.
Proof.
  refine (proj1 (Video_OpenDecode_failure_after_open (video_open_env open_ok false)
                   2 1 4 sample_video _ empty_mem _ _ _ _ _ _ _)).
  - reflexivity.
  - simpl. lia.
  - simpl. lia.
  - reflexivity.
  - vm_compute. reflexivity.
Defined.

(** When Open of an audio stream fails after [open] has succeeded, the
    stream is left marked as opened with its codec context and frame set
    and still allocated.  If the resampler could not be allocated nothing
    else is held; if it could not be initialised, the resampler is held as
    well. *)
Theorem Audio_Open_failure_after_open (e : Audio.open_env)
    (s s' : Audio.AudioStream) (w w' : Mem) (er : error) :
  avcodec_alloc_context3_ok (Audio.base_open e) = true ->
  0 <= avcodec_parameters_to_context_r (Audio.base_open e) ->
  0 <= avcodec_open2_r (Audio.base_open e) ->
  av_frame_alloc_ok (Audio.base_open e) = true ->
  Audio.swrCtx s = None ->
  Audio.Open e s w = (s', w', Some er) ->
  opened (Audio.base s') = true
  /\ exists cc fr,
       codecCtx (Audio.base s') = Some cc /\ frame (Audio.base s') = Some fr
       /\ cc <> fr /\ cheap w !! cc = None /\ cheap w !! fr = None
       /\ ((Audio.swr_alloc_set_opts2_ok e = false
            /\ Audio.swrCtx s' = None
            /\ cheap w' = <[fr := CFrame None]> (<[cc := CCodecCtx]> (cheap w)))
           \/ (Audio.swr_alloc_set_opts2_ok e = true /\ Audio.swr_init_r e < 0
               /\ exists sw,
                    Audio.swrCtx s' = Some sw /\ sw <> cc /\ sw <> fr
                    /\ cheap w !! sw = None
                    /\ cheap w'
                       = <[sw := CSwrCtx]>
                           (<[fr := CFrame None]> (<[cc := CCodecCtx]> (cheap w))))).
Proof.
  intros Hok1 Hok2 Hok3 Hok4 Hsw.
  destruct s as [b sw0 bf bsz]. simpl in Hsw. subst sw0. destruct w as [h g].
  unfold Audio.Open, open, Audio.swr_alloc_set_opts2, c_alloc.
  cbn [Audio.base Audio.set_base cheap goheap set_cheap].
  rewrite Hok1. cbn [codecCtx set_codecCtx cheap goheap set_cheap].
  destruct (Z.ltb_spec (avcodec_parameters_to_context_r (Audio.base_open e)) 0); [lia|].
  destruct (Z.ltb_spec (avcodec_open2_r (Audio.base_open e)) 0); [lia|].
  rewrite Hok4. cbn [frame set_frame set_codecCtx cheap goheap set_cheap].
  pose proof (fresh_lookup h) as H1.
  set (k1 := fresh (dom h)) in *. set (h1 := <[k1:=CCodecCtx]> h) in *.
  pose proof (fresh_lookup h1) as H2.
  set (k2 := fresh (dom h1)) in *. set (h2 := <[k2:=CFrame None]> h1) in *.
  assert (Hk12 : k1 <> k2).
  { intros Heq. unfold h1 in H2. rewrite <- Heq, lookup_insert_eq in H2. discriminate. }
  assert (Hk2 : h !! k2 = None).
  { unfold h1 in H2. rewrite lookup_insert_ne in H2 by exact Hk12. exact H2. }
  pose proof (fresh_lookup h2) as H3.
  destruct (Audio.swr_alloc_set_opts2_ok e);
    cbn [Audio.swrCtx Audio.set_swrCtx Audio.set_base cheap goheap set_cheap c_free].
  - set (k3 := fresh (dom h2)) in *.
    assert (Hk32 : k3 <> k2).
    { intros Heq. unfold h2 in H3. rewrite Heq, lookup_insert_eq in H3. discriminate. }
    assert (Hk31 : k3 <> k1).
    { intros Heq. unfold h2, h1 in H3.
      rewrite lookup_insert_ne, Heq, lookup_insert_eq in H3 by congruence. discriminate. }
    assert (Hk3 : h !! k3 = None).
    { unfold h2, h1 in H3. rewrite !lookup_insert_ne in H3 by congruence. exact H3. }
    destruct (Z.ltb_spec (Audio.swr_init_r e) 0) as [Hinit|Hinit]; [|discriminate].
    intros Ho; injection Ho as <- <- _.
    split; [reflexivity|]. exists k1, k2.
    split; [reflexivity|]. split; [reflexivity|]. split; [exact Hk12|].
    split; [exact H1|]. split; [exact Hk2|]. right.
    split; [reflexivity|]. split; [exact Hinit|]. exists k3.
    repeat split; assumption.
  - intros Ho; injection Ho as <- <- _.
    split; [reflexivity|]. exists k1, k2.
    split; [reflexivity|]. split; [reflexivity|]. split; [exact Hk12|].
    split; [exact H1|]. split; [exact Hk2|]. left.
    repeat split.
Qed.

Lemma Audio_Open_failure_after_open_witness :
  opened (Audio.base (Audio.Open (audio_open_env open_ok (-22))
                        sample_audio empty_mem).1.1) = true.
Proof.
  refine (proj1 (Audio_Open_failure_after_open (audio_open_env open_ok (-22))
                   sample_audio _ empty_mem _ _ _ _ _ _ _ _)).
  - reflexivity.
  - simpl. lia.
  - simpl. lia.
  - reflexivity.
  - reflexivity.
  - vm_compute. reflexivity.
Defined.

(** Whatever step of Open of an audio stream fails, or none, Close
    afterwards returns nil and gives back every native object that Open
    allocated: for a stream that held no frame, filter, resampler or
    buffer before, native memory is as it was before Open, and the stream
    is not opened. *)
Theorem Audio_Close_after_Open (e : Audio.open_env) (s : Audio.AudioStream) (w : Mem) :
  frame (Audio.base s) = None ->
  filterCtx (Audio.base s) = None ->
  filterInPacket (Audio.base s) = None ->
  filterOutPacket (Audio.base s) = None ->
  Audio.swrCtx s = None ->
  Audio.buffer s = None ->
  let '(s1, w1, _) := Audio.Open e s w in
  let '(s2, w2, err) := Audio.Close s1 w1 in
  err = None /\ w2 = w /\ opened (Audio.base s2) = false
  /\ codecCtx (Audio.base s2) = None /\ frame (Audio.base s2) = None
  /\ Audio.buffer s2 = None /\ Audio.swrCtx s2 = None.
Proof.
  intros Hfr Hfc Hfi Hfo Hsw Hbuf.
  destruct (Audio.Open e s w) as [[s1 w1] err1] eqn:Hopen.
  pose proof (Audio_Close_fields s1 w1) as Hf.
  destruct (Audio.Close s1 w1) as [[s2 w2] e2] eqn:Hclose.
  destruct Hf as (-> & Hop2 & Hcc2 & Hfr2 & Hrf2 & Hsw2).
  split; [reflexivity|]. split; [|auto 8].
  revert Hopen Hclose.
  destruct s as [b sw0 bf bsz]. destruct b as [i pa c cc0 fr0 fa fc fi fo sk op].
  simpl in Hfr, Hfc, Hfi, Hfo, Hsw, Hbuf. subst fr0 fc fi fo sw0 bf.
  destruct w as [h g].
  unfold Audio.Open, open, Audio.swr_alloc_set_opts2, c_alloc.
  cbn [Audio.base Audio.set_base cheap goheap set_cheap].
  pose proof (fresh_lookup h) as H1.
  destruct (avcodec_alloc_context3_ok (Audio.base_open e));
    cbn [codecCtx set_codecCtx cheap goheap set_cheap].
  2: { intros Ho; injection Ho as <- <- _. unfold Audio.Close, close. simpl.
       intros Hc; injection Hc as _ <-. reflexivity. }
  set (k1 := fresh (dom h)) in *. set (h1 := <[k1:=CCodecCtx]> h) in *.
  assert (Hd1 : delete k1 h1 = h) by (apply delete_insert_id; exact H1).
  destruct (avcodec_parameters_to_context_r (Audio.base_open e) <? 0).
  { intros Ho; injection Ho as <- <- _. unfold Audio.Close, close. simpl.
    rewrite Hd1. intros Hc; injection Hc as _ <-. reflexivity. }
  destruct (avcodec_open2_r (Audio.base_open e) <? 0).
  { intros Ho; injection Ho as <- <- _. unfold Audio.Close, close. simpl.
    rewrite Hd1. intros Hc; injection Hc as _ <-. reflexivity. }
  pose proof (fresh_lookup h1) as H2.
  destruct (av_frame_alloc_ok (Audio.base_open e));
    cbn [frame set_frame set_codecCtx cheap goheap set_cheap].
  2: { intros Ho; injection Ho as <- <- _. unfold Audio.Close, close. simpl.
       rewrite Hd1. intros Hc; injection Hc as _ <-. reflexivity. }
  set (k2 := fresh (dom h1)) in *. set (h2 := <[k2:=CFrame None]> h1) in *.
  assert (Hd2 : delete k1 (delete k2 h2) = h).
  { unfold h2. rewrite delete_insert_id by exact H2. exact Hd1. }
  pose proof (fresh_lookup h2) as H3.
  destruct (Audio.swr_alloc_set_opts2_ok e);
    cbn [Audio.swrCtx Audio.set_swrCtx Audio.set_base cheap goheap set_cheap c_free].
  2: { intros Ho; injection Ho as <- <- _. unfold Audio.Close, close. simpl.
       rewrite Hd2. intros Hc; injection Hc as _ <-. reflexivity. }
  set (k3 := fresh (dom h2)) in *. set (h3 := <[k3:=CSwrCtx]> h2) in *.
  assert (Hd3 : delete k3 (delete k1 (delete k2 h3)) = h).
  { rewrite <- Hd2. apply map_eq. intros k.
    destruct (decide (k = k3)) as [->|Hk3].
    - rewrite lookup_delete_eq. symmetry.
      destruct (decide (k3 = k1)) as [->|Hk1]; [apply lookup_delete_eq|].
      rewrite lookup_delete_ne by congruence.
      destruct (decide (k3 = k2)) as [->|Hk2]; [apply lookup_delete_eq|].
      rewrite lookup_delete_ne by congruence. exact H3.
    - rewrite lookup_delete_ne by congruence.
      destruct (decide (k = k1)) as [->|Hk1]; [rewrite !lookup_delete_eq; reflexivity|].
      rewrite !(lookup_delete_ne _ k1) by congruence.
      destruct (decide (k = k2)) as [->|Hk2]; [rewrite !lookup_delete_eq; reflexivity|].
      rewrite !lookup_delete_ne by congruence. unfold h3.
      rewrite lookup_insert_ne by congruence. reflexivity. }
  destruct (Audio.swr_init_r e <? 0).
  - intros Ho; injection Ho as <- <- _. unfold Audio.Close, close. simpl.
    rewrite Hd3. intros Hc; injection Hc as _ <-. reflexivity.
  - intros Ho; injection Ho as <- <- _. unfold Audio.Close, close. simpl.
    rewrite Hd3. intros Hc; injection Hc as _ <-. reflexivity.
Qed.

Lemma Audio_Close_after_Open_witness :
  (Audio.Close (Audio.Open (audio_open_env open_ok (-22)) sample_audio empty_mem).1.1
               (Audio.Open (audio_open_env open_ok (-22)) sample_audio empty_mem).1.2).1.2
  = empty_mem.
Proof.
  pose proof (Audio_Close_after_Open (audio_open_env open_ok (-22))
                sample_audio empty_mem
                ltac:(reflexivity) ltac:(reflexivity) ltac:(reflexivity)
                ltac:(reflexivity) ltac:(reflexivity) ltac:(reflexivity)) as H.
  destruct (Audio.Open _ sample_audio empty_mem) as [[s1 w1] e1].
  cbn [fst snd].
  destruct (Audio.Close s1 w1) as [[s2 w2] e2].
  cbn [fst snd]. apply H.
Defined.
